(** * Feishu document writer: Markdown parser, document client,
      image cache and orchestrator

    A shallow embedding of [scripts/parser.py], [scripts/doc_writer.py],
    [scripts/uploader.py] and [scripts/writer.py], followed by the
    properties of the specification that concern them and by further
    properties of the code: the kinds of line of the parser one by one,
    requests that fail, [get_table_cells], [delete_document_content],
    [resolve_image_path] and the order of the calls of [write_file] and
    [update_document].

    Conventions of the embedding.
    - A Python [str] is a [list ascii]; a character is a code point below
      256.  The character classes of [str.strip], [\s], [\d] and
      [str.lower] are the ones Python uses on that range.
    - A Python [dict] with a fixed shape is a record or a constructor of an
      inductive type; a dict used as an index map is a [gmap].
    - A [while] loop over the lines of the input keeps the index [i] of the
      source; the unbounded outer loop of [parse] takes fuel and
      [parse_loop_total] shows that the fuel given by [parse] suffices.
    - Remote calls are answered by an oracle that sees the whole history
      of earlier calls; every call is appended to a log.  [time.sleep] and
      [print] have no counterpart. *)

From Stdlib Require Import Ascii String ZArith Lia.
From stdpp Require Import base list gmap strings.

(** ** Python strings *)

Module PyStr.

Definition str := list ascii.
Definition str_of (s : string) : str := list_ascii_of_string s.
Notation "'py' s" := (str_of s%string) (at level 1, s at level 0, format "'py' s").

Definition chr_in (lo hi : N) (c : ascii) : bool :=
  ((lo <=? N_of_ascii c) && (N_of_ascii c <=? hi))%N.

(** [str.isspace] on one code point: TAB..CR, FS..US, space, NEL, NBSP. *)
Definition isspace (c : ascii) : bool :=
  chr_in 9 13 c || chr_in 28 32 c || chr_in 133 133 c || chr_in 160 160 c.

(** [\d] on a [str] pattern: the decimal digits; below 256 these are 0-9. *)
Definition isdecimal (c : ascii) : bool := chr_in 48 57 c.

(** [str.lower] on one code point: A-Z and the Latin-1 capitals. *)
Definition lower_chr (c : ascii) : ascii :=
  if chr_in 65 90 c || (chr_in 192 222 c && negb (chr_in 215 215 c))
  then ascii_of_N (N_of_ascii c + 32) else c.

Definition lower (s : str) : str := map lower_chr s.

Definition newline : ascii := ascii_of_N 10.

(** [s.startswith(p)] *)
Fixpoint startswith (s p : str) {struct p} : bool :=
  match p with
  | [] => true
  | a :: p' =>
      match s with
      | b :: s' => Ascii.eqb a b && startswith s' p'
      | [] => false
      end
  end.

(** [s.endswith(p)] *)
Definition endswith (s p : str) : bool := startswith (rev s) (rev p).

Fixpoint lstrip (s : str) : str :=
  match s with
  | c :: s' => if isspace c then lstrip s' else s
  | [] => []
  end.

Definition rstrip (s : str) : str := rev (lstrip (rev s)).

(** [s.strip()] *)
Definition strip (s : str) : str := rstrip (lstrip s).

(** [s.split(sep)] for a separator of one character. *)
Fixpoint split_chr (sep : ascii) (s : str) : list str :=
  match s with
  | [] => [[]]
  | c :: s' =>
      if Ascii.eqb c sep then [] :: split_chr sep s'
      else match split_chr sep s' with
           | w :: ws => (c :: w) :: ws
           | [] => [[c]]
           end
  end.

(** [s.split(sep)] for a separator of several characters: occurrences are
    taken from the left and do not overlap; [skip] counts the characters of
    the occurrence being stepped over. *)
Fixpoint split_str (sep : str) (skip : nat) (s : str) : list str :=
  match s with
  | [] => [[]]
  | c :: s' =>
      match skip with
      | S k => split_str sep k s'
      | O =>
          if startswith s sep then [] :: split_str sep (length sep - 1) s'
          else match split_str sep 0 s' with
               | w :: ws => (c :: w) :: ws
               | [] => [[c]]
               end
      end
  end.

(** [sub in s] *)
Fixpoint contains (s sub : str) : bool :=
  startswith s sub ||
  match s with
  | [] => false
  | _ :: s' => contains s' sub
  end.

(** [sep.join(l)] *)
Fixpoint join (sep : str) (l : list str) : str :=
  match l with
  | [] => []
  | x :: xs =>
      match xs with
      | [] => x
      | _ :: _ => x ++ sep ++ join sep xs
      end
  end.

(** [s[a:b]] for [0 <= a] and [0 <= b]. *)
Definition slice {A} (s : list A) (a b : nat) : list A := take (b - a) (drop a s).

(** Truth value of a string, and [a or b] on strings. *)
Definition truthy (s : str) : bool := match s with [] => false | _ :: _ => true end.
Definition py_or (a b : str) : str := if truthy a then a else b.

Definition str_eqb (a b : str) : bool := bool_decide (a = b).

(** [d.get(key, dflt)] on a dict written as a literal with distinct keys. *)
Fixpoint dict_get {V} (d : list (str * V)) (key : str) (dflt : V) : V :=
  match d with
  | [] => dflt
  | (k, v) :: d' => if str_eqb k key then v else dict_get d' key dflt
  end.

End PyStr.
Export PyStr.

(** ** The regular expressions of the parser

    Each pattern of the source is translated by hand.  A lazy group is
    followed by a continuation, so that the translation backtracks the way
    the [re] module does: the group takes the fewest characters for which
    the rest of the pattern succeeds, and [.] never matches a newline. *)

Module Re.

(** The literal [p], then [k]. *)
Definition lit {R} (p : str) (k : str -> option R) (s : str) : option R :=
  if startswith s p then k (drop (length p) s) else None.

(** [(.+?)] followed by [k]. *)
Fixpoint lazy_plus {R} (k : str -> option R) (s : str) : option (str * R) :=
  match s with
  | [] => None
  | c :: s' =>
      if Ascii.eqb c newline then None
      else match k s' with
           | Some r => Some ([c], r)
           | None =>
               match lazy_plus k s' with
               | Some (g, r) => Some (c :: g, r)
               | None => None
               end
           end
  end.

(** [(.*?)] followed by [k]. *)
Fixpoint lazy_star {R} (k : str -> option R) (s : str) : option (str * R) :=
  match k s with
  | Some r => Some ([], r)
  | None =>
      match s with
      | [] => None
      | c :: s' =>
          if Ascii.eqb c newline then None
          else match lazy_star k s' with
               | Some (g, r) => Some (c :: g, r)
               | None => None
               end
      end
  end.

(** The longest prefix of [s] made of characters in the class [cls], and
    what follows it. *)
Fixpoint span (cls : ascii -> bool) (s : str) : str * str :=
  match s with
  | c :: s' => if cls c then let '(a, b) := span cls s' in (c :: a, b) else ([], s)
  | [] => ([], [])
  end.

(** [$] without MULTILINE: the end of the string, or just before a newline
    that ends the string. *)
Definition at_end (s : str) : bool :=
  match s with
  | [] => true
  | [c] => Ascii.eqb c newline
  | _ => false
  end.

Definition is_chr (a c : ascii) : bool := Ascii.eqb a c.

(** [re.match(r"^#+", line).group()]; the caller has checked that the line
    starts with the marker, so the match exists. *)
Definition match_hashes (line : str) : str := fst (span (is_chr "#") line).

(** [re.match(r"!\[(.*?)\]\((.*?)\)", line)]: groups 1 and 2. *)
Definition match_image (line : str) : option (str * str) :=
  match lit py"![" (lazy_star (lit py"](" (lazy_star (lit py")" Some)))) line with
  | Some (g1, (g2, _)) => Some (g1, g2)
  | None => None
  end.

Definition bullet_chr (c : ascii) : bool := is_chr "-" c || is_chr "*" c || is_chr "+" c.

(** [re.match(r"^[\-\*\+]\s", line)]: the text after the match. *)
Definition match_bullet (line : str) : option str :=
  match line with
  | c :: d :: rest => if bullet_chr c && isspace d then Some rest else None
  | _ => None
  end.

(** [re.match(r"^\d+\.\s", line)]: the text after the match. *)
Definition match_ordered (line : str) : option str :=
  match span isdecimal line with
  | (_ :: _, c :: d :: rest) => if is_chr "." c && isspace d then Some rest else None
  | _ => None
  end.

(** [re.sub(pat, "", line)] for the two anchored patterns above: the match
    at the start of the line, if any, is removed. *)
Definition sub_prefix (m : str -> option str) (line : str) : str :=
  match m line with
  | Some rest => rest
  | None => line
  end.

Definition divider_chr (c : ascii) : bool := is_chr "-" c || is_chr "*" c || is_chr "_" c.

(** [re.match(r"^[\-\*\_]{3,}$", s)] *)
Definition match_divider (s : str) : bool :=
  let '(run, rest) := span divider_chr s in
  (3 <=? length run) && at_end rest.

Definition dash_colon_chr (c : ascii) : bool := is_chr "-" c || is_chr ":" c.

(** [re.match(r"^[\-:]+$", s)] *)
Definition match_dash_colon (s : str) : bool :=
  let '(run, rest) := span dash_colon_chr s in
  truthy run && at_end rest.

(** A match of the inline pattern
    [(\*\*(.+?)\*\*|__(.+?)__|`(.+?)`|\*(.+?)\*|_(.+?)_|\[(.+?)\]\((.+?)\))]:
    its span in the text and the groups 2 to 8 (group 1 is the whole
    match). *)
Record Match := {
  m_start : nat; m_end : nat;
  group2 : option str; group3 : option str; group4 : option str;
  group5 : option str; group6 : option str;
  group7 : option str; group8 : option str }.

(** One alternative [d(.+?)d]: the group and the text after the match. *)
Definition delimited (d : str) (s : str) : option (str * str) :=
  lit d (lazy_plus (lit d Some)) s.

Definition link (s : str) : option (str * (str * str)) :=
  lit py"[" (lazy_plus (lit py"](" (lazy_plus (lit py")" Some)))) s.

(** The inline pattern tried at the start of [s], which is the text from
    position [pos] on: the alternatives in their order. *)
Definition match_inline_at (pos : nat) (s : str) : option Match :=
  let mk rest g2 g3 g4 g5 g6 g7 g8 :=
    Some {| m_start := pos; m_end := pos + (length s - length rest);
            group2 := g2; group3 := g3; group4 := g4; group5 := g5;
            group6 := g6; group7 := g7; group8 := g8 |} in
  match delimited py"**" s with
  | Some (g, rest) => mk rest (Some g) None None None None None None
  | None =>
  match delimited py"__" s with
  | Some (g, rest) => mk rest None (Some g) None None None None None
  | None =>
  match delimited py"`" s with
  | Some (g, rest) => mk rest None None (Some g) None None None None
  | None =>
  match delimited py"*" s with
  | Some (g, rest) => mk rest None None None (Some g) None None None
  | None =>
  match delimited py"_" s with
  | Some (g, rest) => mk rest None None None None (Some g) None None
  | None =>
  match link s with
  | Some (g7, (g8, rest)) => mk rest None None None None None (Some g7) (Some g8)
  | None => None
  end end end end end end.

(** [re.finditer(pattern, text)] from position [pos], [s] being the text
    from there on: the leftmost match, then the search resumes at its end.
    A match is never empty; [skip] counts the characters of the last match
    that are still to be stepped over. *)
Fixpoint finditer_from (skip pos : nat) (s : str) : list Match :=
  match s with
  | [] => []
  | _ :: s' =>
      match skip with
      | S k => finditer_from k (S pos) s'
      | O =>
          match match_inline_at pos s with
          | Some m => m :: finditer_from (m_end m - pos - 1) (S pos) s'
          | None => finditer_from 0 (S pos) s'
          end
      end
  end.

Definition finditer_inline (text : str) : list Match := finditer_from 0 0 text.

End Re.

(** ** [scripts/parser.py]: Markdown to blocks *)

Module Parser.
Import Re.

(** The value of ["text_element_style"]: the keys that may be present. *)
Record Style := {
  bold : bool; italic : bool; inline_code : bool; link_url : option str }.

Definition style_bold : Style :=
  {| bold := true; italic := false; inline_code := false; link_url := None |}.
Definition style_inline_code : Style :=
  {| bold := false; italic := false; inline_code := true; link_url := None |}.
Definition style_italic : Style :=
  {| bold := false; italic := true; inline_code := false; link_url := None |}.
Definition style_link (url : str) : Style :=
  {| bold := false; italic := false; inline_code := false; link_url := Some url |}.

(** [{"text_run": {"content": ..., "text_element_style": ...}}]; the style
    key is absent from a plain run. *)
Record TextRun := { content : str; text_element_style : option Style }.

Definition plain_run (text : str) : TextRun :=
  {| content := text; text_element_style := None |}.
Definition styled_run (text : str) (st : Style) : TextRun :=
  {| content := text; text_element_style := Some st |}.

(** The block dicts built by the [_create_*_block] methods. *)
Inductive Block :=
  | Heading (level : nat) (elements : list TextRun)
  | Text (elements : list TextRun)
  | Code (code : str) (language : Z)
  | Quote (elements : list TextRun)
  | Bullet (elements : list TextRun)
  | Ordered (elements : list TextRun)
  | Divider
  | ImagePlaceholder (image_path : str) (is_url : bool)
  | TablePlaceholder (table_data : list (list str)) (rows cols : nat).

Definition IMAGE_PLACEHOLDER : str := py"__IMAGE_PLACEHOLDER__".
Definition TABLE_PLACEHOLDER : str := py"__TABLE_PLACEHOLDER__".

(** The value under ["block_type"]: a vendor code, or a placeholder mark. *)
Definition block_type (b : Block) : Z + str :=
  match b with
  | Heading level _ => inl (2 + Z.of_nat level)%Z
  | Text _ => inl 2%Z
  | Code _ _ => inl 14%Z
  | Quote _ => inl 15%Z
  | Bullet _ => inl 12%Z
  | Ordered _ => inl 13%Z
  | Divider => inl 22%Z
  | ImagePlaceholder _ _ => inr IMAGE_PLACEHOLDER
  | TablePlaceholder _ _ _ => inr TABLE_PLACEHOLDER
  end.

(** The mutable fields of a [MarkdownParser] that [parse] touches. *)
Record MarkdownParser := {
  pending_images : list (nat * str * bool);
  pending_tables : list (nat * list (list str)) }.

(** [MarkdownParser.__init__] *)
Definition init : MarkdownParser := {| pending_images := []; pending_tables := [] |}.

Definition opt_truthy (o : option str) : bool :=
  match o with Some s => truthy s | None => false end.

(** [a or b] on two groups of a match. *)
Definition group_or (a b : option str) : option str := if opt_truthy a then a else b.

(** The string of a group that took part in the match. *)
Definition group_str (o : option str) : str :=
  match o with Some s => s | None => [] end.

(** The body of the [for match in re.finditer(...)] loop of
    [_parse_inline_formats]; the state is [(elements, last_end)]. *)
Definition inline_step (text : str) (acc : list TextRun * nat) (m : Match)
  : list TextRun * nat :=
  let '(elements, last_end) := acc in
  let elements :=
    if last_end <? m_start m then
      let plain_text := slice text last_end (m_start m) in
      if truthy plain_text then elements ++ [plain_run plain_text] else elements
    else elements in
  let elements :=
    if opt_truthy (group2 m) || opt_truthy (group3 m) then
      elements ++ [styled_run (group_str (group_or (group2 m) (group3 m))) style_bold]
    else if opt_truthy (group4 m) then
      elements ++ [styled_run (group_str (group4 m)) style_inline_code]
    else if opt_truthy (group5 m) || opt_truthy (group6 m) then
      elements ++ [styled_run (group_str (group_or (group5 m) (group6 m))) style_italic]
    else if opt_truthy (group7 m) && opt_truthy (group8 m) then
      elements ++ [styled_run (group_str (group7 m)) (style_link (group_str (group8 m)))]
    else elements in
  (elements, m_end m).

Definition _parse_inline_formats (text : str) : list TextRun :=
  let '(elements, last_end) := foldl (inline_step text) ([], 0) (finditer_inline text) in
  let elements :=
    if last_end <? length text then
      let remaining := drop last_end text in
      if truthy remaining then elements ++ [plain_run remaining] else elements
    else elements in
  match elements with
  | [] => [plain_run text]
  | _ :: _ => elements
  end.

Definition _create_text_elements (text : str) : list TextRun :=
  let elements := [] ++ _parse_inline_formats text in
  match elements with
  | [] => [plain_run text]
  | _ :: _ => elements
  end.

Definition _create_heading_block (text : str) (level : nat) : Block :=
  Heading level (_create_text_elements text).

Definition _create_text_block (text : str) : Block := Text (_create_text_elements text).

Definition language_map : list (str * Z) :=
  [ (py"python", 49); (py"javascript", 22); (py"js", 22); (py"typescript", 67);
    (py"ts", 67); (py"java", 21); (py"go", 18); (py"c", 7); (py"cpp", 9);
    (py"c++", 9); (py"csharp", 10); (py"c#", 10); (py"ruby", 54); (py"php", 46);
    (py"swift", 64); (py"kotlin", 27); (py"rust", 55); (py"sql", 61);
    (py"shell", 58); (py"bash", 58); (py"json", 23); (py"xml", 73);
    (py"html", 20); (py"css", 11); (py"yaml", 74); (py"markdown", 35);
    (py"plain_text", 47) ]%Z.

Definition _create_code_block (code language : str) : Block :=
  let lang_code := dict_get language_map (lower language) 47%Z in
  Code code lang_code.

Definition _create_quote_block (text : str) : Block := Quote (_create_text_elements text).
Definition _create_bullet_block (text : str) : Block := Bullet (_create_text_elements text).
Definition _create_ordered_block (text : str) : Block := Ordered (_create_text_elements text).
Definition _create_divider_block : Block := Divider.

(** [max(len(row) for row in table_data) if table_data else 0] *)
Definition max_row_len (table_data : list (list str)) : nat :=
  foldr (fun row m => Nat.max (length row) m) 0 table_data.

Definition _create_table_block (table_data : list (list str)) (block_index : nat)
    (self : MarkdownParser) : Block * MarkdownParser :=
  let self := {| pending_images := pending_images self;
                 pending_tables := pending_tables self ++ [(block_index, table_data)] |} in
  let rows := length table_data in
  let cols := max_row_len table_data in
  (TablePlaceholder table_data rows cols, self).

Definition _create_image_block (img_path alt_text : str) (block_index : nat)
    (self : MarkdownParser) : option Block * MarkdownParser :=
  let is_url := startswith img_path py"http://" || startswith img_path py"https://" in
  let self := {| pending_images := pending_images self ++ [(block_index, img_path, is_url)];
                 pending_tables := pending_tables self |} in
  (Some (ImagePlaceholder img_path is_url), self).

Definition _parse_table_row (line : str) : list str :=
  let line := strip line in
  let line := if startswith line py"|" then drop 1 line else line in
  let line := if endswith line py"|" then take (length line - 1) line else line in
  map strip (split_chr "|" line).

Definition is_separator_row (cells : list str) : bool :=
  forallb (fun cell => match_dash_colon (strip cell)) cells.

(** The loop of [_parse_table] on the lines from the current index on: the
    rows collected and the number of lines stepped over. *)
Fixpoint parse_table_rows (rest : list str) : list (list str) * nat :=
  match rest with
  | [] => ([], 0)
  | l :: rest' =>
      let line := strip l in
      if negb (startswith line py"|") then ([], 0)
      else
        let cells := _parse_table_row line in
        match cells with
        | [] => ([], 0)
        | _ :: _ =>
            let '(table_rows, n) := parse_table_rows rest' in
            if is_separator_row cells then (table_rows, S n)
            else (cells :: table_rows, S n)
        end
  end.

Definition _parse_table (lines : list str) (start_idx : nat) : list (list str) * nat :=
  parse_table_rows (drop start_idx lines).

(** [while i < len(lines) and cond(lines[i]): acc.append(f(lines[i])); i += 1]
    on the lines from [i] on: what was appended and how far [i] moved. *)
Fixpoint while_lines (cond : str -> bool) (f : str -> str) (rest : list str)
  : list str * nat :=
  match rest with
  | l :: rest' =>
      if cond l then let '(acc, n) := while_lines cond f rest' in (f l :: acc, S n)
      else ([], 0)
  | [] => ([], 0)
  end.

Definition is_some {A} (o : option A) : bool := match o with Some _ => true | None => false end.

(** One turn of the [while] loop of [parse] from the image test on; the
    result is the new [(i, blocks, self)]. *)
Definition parse_line_tail (lines : list str) (i : nat) (line : str)
    (blocks : list Block) (self : MarkdownParser) : nat * list Block * MarkdownParser :=
  match match_image line with
  | Some (alt_text, img_path) =>
      let '(block, self) := _create_image_block img_path alt_text (length blocks) self in
      let blocks := match block with Some b => blocks ++ [b] | None => blocks end in
      (i + 1, blocks, self)
  | None =>
  if startswith line py">" then
    let '(quote_lines, n) :=
      while_lines (fun l => startswith l py">") (fun l => strip (drop 1 l)) (drop i lines) in
    (i + n, blocks ++ [_create_quote_block (join [newline] quote_lines)], self)
  else if is_some (match_bullet line) then
    let '(list_items, n) :=
      while_lines (fun l => is_some (match_bullet l)) (sub_prefix match_bullet) (drop i lines) in
    (i + n, blocks ++ map _create_bullet_block list_items, self)
  else if is_some (match_ordered line) then
    let '(list_items, n) :=
      while_lines (fun l => is_some (match_ordered l)) (sub_prefix match_ordered) (drop i lines) in
    (i + n, blocks ++ map _create_ordered_block list_items, self)
  else if match_divider (strip line) then
    (i + 1, blocks ++ [_create_divider_block], self)
  else
    let blocks := if truthy (strip line) then blocks ++ [_create_text_block line] else blocks in
    (i + 1, blocks, self)
  end.

(** One turn of the [while] loop of [parse], [line] being [lines[i]]. *)
Definition parse_line (lines : list str) (i : nat) (line : str)
    (blocks : list Block) (self : MarkdownParser) : nat * list Block * MarkdownParser :=
  if startswith line py"#" then
    let level := length (match_hashes line) in
    let text := strip (drop level line) in
    (i + 1, blocks ++ [_create_heading_block text (Nat.min level 9)], self)
  else if startswith line py"```" then
    let language := py_or (strip (drop 3 line)) py"plain_text" in
    let '(code_lines, n) :=
      while_lines (fun l => negb (startswith l py"```")) id (drop (i + 1) lines) in
    (i + 1 + n + 1, blocks ++ [_create_code_block (join [newline] code_lines) language], self)
  else if startswith (strip line) py"|" && contains (drop 1 line) py"|" then
    let '(table_data, consumed) := _parse_table lines i in
    match table_data with
    | _ :: _ =>
        let '(block, self) := _create_table_block table_data (length blocks) self in
        (i + consumed, blocks ++ [block], self)
    | [] => parse_line_tail lines i line blocks self
    end
  else parse_line_tail lines i line blocks self.

(** The [while i < len(lines)] loop of [parse]. *)
Fixpoint parse_loop (fuel : nat) (lines : list str) (i : nat)
    (blocks : list Block) (self : MarkdownParser) : option (list Block * MarkdownParser) :=
  match lines !! i with
  | None => Some (blocks, self)
  | Some line =>
      match fuel with
      | O => None
      | S fuel' =>
          let '(i', blocks', self') := parse_line lines i line blocks self in
          parse_loop fuel' lines i' blocks' self'
      end
  end.

(** [MarkdownParser.parse]: the blocks and the parser after the call. *)
Definition parse (content : str) (self : MarkdownParser)
  : option (list Block * MarkdownParser) :=
  let lines := split_chr newline content in
  parse_loop (length lines) lines 0 [] self.

(** *** Vocabulary of the properties of the parser *)

Definition is_heading_line (l : str) : bool := startswith l py"#".
Definition is_fence_line (l : str) : bool := startswith l py"```".

(** A line that neither is a heading nor opens or closes a fenced block. *)
Definition plain_line (l : str) : bool := negb (is_heading_line l) && negb (is_fence_line l).

Definition is_placeholder (b : Block) : bool :=
  match b with
  | ImagePlaceholder _ _ | TablePlaceholder _ _ _ => true
  | _ => false
  end.

(** The blocks of the quote, list, divider and paragraph branches. *)
Definition ordinary (b : Block) : bool :=
  match b with
  | Text _ | Quote _ | Bullet _ | Ordered _ | Divider => true
  | _ => false
  end.

(** The runs of the loop of [parse], turn by turn. *)
Inductive loop_run (lines : list str)
  : nat -> list Block -> MarkdownParser -> list Block * MarkdownParser -> Prop :=
  | loop_exit i blocks self :
      lines !! i = None -> loop_run lines i blocks self (blocks, self)
  | loop_turn i line blocks self i' blocks' self' r :
      lines !! i = Some line ->
      parse_line lines i line blocks self = (i', blocks', self') ->
      loop_run lines i' blocks' self' r ->
      loop_run lines i blocks self r.

(** The five kinds of turn: what is appended, how far the index moves and
    which lines are stepped over. *)
Inductive turn (lines : list str) (i : nat) (line : str) (blocks : list Block)
    (self : MarkdownParser) : nat * list Block * MarkdownParser -> Prop :=
  | turn_heading :
      is_heading_line line = true ->
      turn lines i line blocks self
        (i + 1,
         blocks ++ [_create_heading_block (strip (drop (length (match_hashes line)) line))
                      (Nat.min (length (match_hashes line)) 9)],
         self)
  | turn_code n :
      is_heading_line line = false -> is_fence_line line = true ->
      i + 1 + n <= length lines ->
      Forall (fun l => is_fence_line l = false) (take n (drop (i + 1) lines)) ->
      (forall l, lines !! (i + 1 + n) = Some l -> is_fence_line l = true) ->
      turn lines i line blocks self
        (i + 1 + n + 1,
         blocks ++ [_create_code_block (join [newline] (take n (drop (i + 1) lines)))
                      (py_or (strip (drop 3 line)) py"plain_text")],
         self)
  | turn_table d c :
      plain_line line = true ->
      _parse_table lines i = (d, c) -> d <> [] ->
      1 <= c -> i + c <= length lines ->
      Forall (fun l => plain_line l = true) (take c (drop i lines)) ->
      turn lines i line blocks self
        (i + c,
         blocks ++ [TablePlaceholder d (length d) (max_row_len d)],
         {| pending_images := pending_images self;
            pending_tables := pending_tables self ++ [(length blocks, d)] |})
  | turn_image p u :
      plain_line line = true ->
      turn lines i line blocks self
        (i + 1,
         blocks ++ [ImagePlaceholder p u],
         {| pending_images := pending_images self ++ [(length blocks, p, u)];
            pending_tables := pending_tables self |})
  | turn_other c new :
      plain_line line = true ->
      1 <= c -> i + c <= length lines ->
      Forall (fun l => plain_line l = true) (take c (drop i lines)) ->
      Forall (fun b => ordinary b = true) new ->
      turn lines i line blocks self (i + c, blocks ++ new, self).

(** The pending lists and the placeholders of [blocks] describe each other. *)
Definition pending_ok (blocks : list Block) (self : MarkdownParser) : Prop :=
  (forall idx p u, (idx, p, u) ∈ pending_images self ->
     blocks !! idx = Some (ImagePlaceholder p u)) /\
  (forall idx d, (idx, d) ∈ pending_tables self ->
     blocks !! idx = Some (TablePlaceholder d (length d) (max_row_len d))) /\
  (forall idx p u, blocks !! idx = Some (ImagePlaceholder p u) ->
     (idx, p, u) ∈ pending_images self) /\
  (forall idx d r c, blocks !! idx = Some (TablePlaceholder d r c) ->
     (idx, d) ∈ pending_tables self).

(** A cell made of dashes and colons only, as in [|---|:-:|]. *)
Definition solely_dash_colon (cell : str) : bool :=
  truthy cell && forallb dash_colon_chr cell.

(** A row all of whose cells are such: the alignment row of a table. *)
Definition alignment_row (cells : list str) : bool := forallb solely_dash_colon cells.

(** A table placeholder holds the rows of a run of table lines, the
    alignment rows left out, with its dimensions. *)
Definition table_ok (lines : list str) (b : Block) : Prop :=
  match b with
  | TablePlaceholder d r c =>
      d <> [] /\ r = length d /\ c = max_row_len d /\
      exists i n,
        Forall (fun l => startswith (strip l) py"|" = true) (take n (drop i lines)) /\
        d = filter (fun row => alignment_row row = false)
              (map (fun l => _parse_table_row (strip l)) (take n (drop i lines)))
  | _ => True
  end.

(** The lines that are not inside a fenced code block, the fence lines
    themselves left out: [in_code] flips at every line that starts with
    the fence. *)
Fixpoint outside_fences (in_code : bool) (ls : list str) : list str :=
  match ls with
  | [] => []
  | l :: ls' =>
      if is_fence_line l then outside_fences (negb in_code) ls'
      else if in_code then outside_fences true ls'
      else l :: outside_fences false ls'
  end.

(** The number of leading markers of a line, capped at 9. *)
Definition heading_depth (l : str) : nat := Nat.min (length (match_hashes l)) 9.

Definition heading_level (b : Block) : option nat :=
  match b with Heading level _ => Some level | _ => None end.

(** The depths of the heading blocks of a sequence, in order. *)
Definition heading_levels (blocks : list Block) : list nat := omap heading_level blocks.

(** The depths of the heading lines outside fenced blocks, in order. *)
Definition expected_levels (ls : list str) : list nat :=
  map heading_depth (filter (fun l => is_heading_line l = true) (outside_fences false ls)).

(** The number of lines that start with the fence. *)
Definition fence_count (ls : list str) : nat :=
  length (filter (fun l => is_fence_line l = true) ls).

Definition b2n (b : bool) : nat := if b then 1 else 0.

(** The number of style keys a run carries. *)
Definition style_count (r : TextRun) : nat :=
  match text_element_style r with
  | None => 0
  | Some st =>
      b2n (bold st) + b2n (italic st) + b2n (inline_code st) + b2n (is_some (link_url st))
  end.

End Parser.

(** ** Effects: a log of calls, and exceptions *)

Module Eff.

(** The outcome of a Python call: it raised, or it returned a value. *)
Inductive Result (A : Type) := Raised | Returned (a : A).
Arguments Raised {A}.
Arguments Returned {A} a.

(** A computation over a state [S] that may raise. *)
Definition M (S A : Type) : Type := S -> Result A * S.

Global Instance M_ret {S} : MRet (M S) := fun A (a : A) s => (Returned a, s).
Global Instance M_bind {S} : MBind (M S) := fun A B (k : A -> M S B) (c : M S A) s =>
  match c s with
  | (Returned a, s') => k a s'
  | (Raised, s') => (Raised, s')
  end.

Definition raise {S A} : M S A := fun s => (Raised, s).

(** [try: c  except Exception: return dflt] *)
Definition try_except {S A} (c : M S A) (dflt : A) : M S A :=
  fun s => match c s with
           | (Returned a, s') => (Returned a, s')
           | (Raised, s') => (Returned dflt, s')
           end.

(** [l[i]], which raises IndexError out of range. *)
Definition index {S A} (l : list A) (i : nat) : M S A :=
  match l !! i with
  | Some x => mret x
  | None => raise
  end.

End Eff.
Export Eff.

(** ** The remote service and the cache directory, as the client sees them *)

Module Http.
Import Parser.

(** The requests of the methods modelled at this level.  [PostChildren] is
    the POST to [.../blocks/{block_id}/children] with ["children"] as its
    payload, [GetChildren] the GET on the same address, [GetUrl] the
    download of an image. *)
Inductive Request :=
  | PostChildren (document_id block_id : str) (children : list Block)
  | GetChildren (document_id block_id : str)
  | GetUrl (url : str).

(** An entry of ["items"]; [block_id] is [item.get("block_id")]. *)
Record Item := { block_id : option str }.

(** What comes back.  [status_ok] is false for a transport error and for
    an HTTP status on which [raise_for_status] raises; [json] is the
    ["code"] of the body and the ["items"] of its ["data"], or [None] for a
    body on which [resp.json()] raises; [resp_content] is [resp.content]. *)
Record Response := {
  status_ok : bool;
  json : option (Z * list Item);
  resp_content : str }.

(** The world: the requests sent so far, and the files of the cache
    directory with their contents. *)
Record World := { requests : list Request; files : gmap str str }.

(** The service answers a request knowing the requests before it. *)
Definition Server := list Request -> Request -> Response.

Definition send (server : Server) (r : Request) : M World Response :=
  fun w => (Returned (server (requests w) r),
            {| requests := requests w ++ [r]; files := files w |}).

(** [resp = requests.post(...); resp.raise_for_status(); result = resp.json()] *)
Definition send_json (server : Server) (r : Request) : M World (Z * list Item) :=
  resp ← send server r;
  if status_ok resp then
    match json resp with
    | Some result => mret result
    | None => raise
    end
  else raise.

Definition exists_file (path : str) : M World bool :=
  fun w => (Returned (bool_decide (is_Some (files w !! path))), w).

Definition write_file_bytes (path bytes : str) : M World unit :=
  fun w => (Returned tt, {| requests := requests w; files := <[path := bytes]> (files w) |}).

(** The world after the requests [rs] have been sent. *)
Definition sent (w : World) (rs : list Request) : World :=
  {| requests := requests w ++ rs; files := files w |}.

(** The ["code"] of a response that [send_json] accepts. *)
Definition api_code (r : Response) : option Z :=
  if status_ok r then fst <$> json r else None.

End Http.

(** ** [scripts/doc_writer.py] *)

Module DocWriter.
Import Parser Http.

Section WithServer.
Variable server : Server.

(** [range(start, stop, step)] for a positive step. *)
Definition range_step (start stop step : nat) : list nat :=
  map (fun k => start + k * step) (seq 0 ((stop - start + (step - 1)) / step)).

Definition batch_size : nat := 50.

(** The [for i in range(0, len(blocks), batch_size)] loop of
    [append_blocks]. *)
Fixpoint append_batches (document_id block_id : str) (blocks : list Block)
    (starts : list nat) : M World bool :=
  match starts with
  | [] => mret true
  | i :: starts' =>
      let batch := slice blocks i (i + batch_size) in
      '(code, _) ← send_json server (PostChildren document_id block_id batch);
      if negb (code =? 0)%Z then mret false
      else append_batches document_id block_id blocks starts'
  end.

Definition append_blocks (document_id block_id : str) (blocks : list Block) : M World bool :=
  match blocks with
  | [] => mret true
  | _ :: _ =>
      append_batches document_id block_id blocks (range_step 0 (length blocks) batch_size)
  end.

(** The text of [None] in an f-string. *)
Definition fmt_id (o : option str) : str :=
  match o with Some s => s | None => py"None" end.

Definition fill_table_cell (document_id : str) (cell_block_id : option str)
    (content : str) : M World bool :=
  try_except
    ('(code, _) ← send_json server
        (PostChildren document_id (fmt_id cell_block_id) [Text [plain_run content]]);
     if negb (code =? 0)%Z then mret false else mret true)
    false.

(** The [for col_idx in range(cols)] loop of [fill_table]; [break] leaves
    it, [continue] goes to the next column. *)
Fixpoint fill_row (document_id : str) (cells : list Item) (table_data : list (list str))
    (cols row_idx : nat) (col_idxs : list nat) : M World unit :=
  match col_idxs with
  | [] => mret tt
  | col_idx :: col_idxs' =>
      let cell_index := row_idx * cols + col_idx in
      if length cells <=? cell_index then mret tt
      else
        row ← index table_data row_idx;
        if length row <=? col_idx
        then fill_row document_id cells table_data cols row_idx col_idxs'
        else
          cell_block ← index cells cell_index;
          let cell_id := block_id cell_block in
          content ← index row col_idx;
          (if truthy content
           then success ← fill_table_cell document_id cell_id content; mret tt
           else mret tt) ;;
          fill_row document_id cells table_data cols row_idx col_idxs'
  end.

(** The [for row_idx in range(rows)] loop of [fill_table]. *)
Fixpoint fill_rows (document_id : str) (cells : list Item) (table_data : list (list str))
    (cols : nat) (row_idxs : list nat) : M World unit :=
  match row_idxs with
  | [] => mret tt
  | row_idx :: row_idxs' =>
      fill_row document_id cells table_data cols row_idx (seq 0 cols) ;;
      fill_rows document_id cells table_data cols row_idxs'
  end.

Definition fill_table (document_id table_block_id : str) (table_data : list (list str))
  : M World bool :=
  try_except
    ('(code, cells) ← send_json server (GetChildren document_id table_block_id);
     if negb (code =? 0)%Z then mret false
     else
       let rows := length table_data in
       let cols := max_row_len table_data in
       fill_rows document_id cells table_data cols (seq 0 rows) ;;
       mret true)
    false.

End WithServer.

(** *** Vocabulary of the properties of the client *)

(** The batches of [append_blocks], in the order in which they are sent. *)
Definition chunks (blocks : list Block) : list (list Block) :=
  map (fun i => slice blocks i (i + batch_size)) (range_step 0 (length blocks) batch_size).

(** The answer to batch [j] of [cs] when the batches before it have been
    sent from the world [w]. *)
Definition reply (server : Server) (document_id block_id : str) (w : World)
    (cs : list (list Block)) (j : nat) : option Response :=
  c ← cs !! j;
  Some (server (requests w ++ map (PostChildren document_id block_id) (take j cs))
          (PostChildren document_id block_id c)).

(** The cell of the grid at row [r] and column [c] that is to be written,
    with the container it goes to: the entry [r * cols + c] of [cells]. *)
Definition planned_fill (cells : list Item) (table_data : list (list str))
    (cols r c : nat) : list (option str * str) :=
  match cells !! (r * cols + c), table_data !! r ≫= (fun row => row !! c) with
  | Some cell, Some content => if truthy content then [(block_id cell, content)] else []
  | _, _ => []
  end.

(** The fills of a whole grid, row by row and column by column. *)
Definition fill_plan (cells : list Item) (table_data : list (list str))
  : list (option str * str) :=
  let cols := max_row_len table_data in
  r ← seq 0 (length table_data);
  c ← seq 0 cols;
  planned_fill cells table_data cols r c.

(** The request that writes [f.2] into the container [f.1]. *)
Definition fill_request (document_id : str) (f : option str * str) : Request :=
  PostChildren document_id (fmt_id (fst f)) [Text [plain_run (snd f)]].

End DocWriter.

(** ** [scripts/uploader.py]: the download cache *)

Module Uploader.
Import Http.

Section WithLibraries.
(** Functions of the Python standard library that the method calls:
    [urlparse(url).path] ([None] when [urlparse] raises),
    [os.path.splitext(p)[1]], [hashlib.md5(s.encode('utf-8')).hexdigest()],
    and the path of the cache directory. *)
Variable urlparse_path : str -> option str.
Variable splitext_ext : str -> str.
Variable md5_hexdigest : str -> str.
Variable TEMP_IMAGE_DIR : str.
Variable server : Server.

Definition image_exts : list str :=
  [py".jpg"; py".jpeg"; py".png"; py".gif"; py".webp"; py".bmp"; py".svg"].

Definition ext_map : list (str * str) :=
  [ (py"jpeg", py".jpg"); (py"jpg", py".jpg"); (py"png", py".png");
    (py"gif", py".gif"); (py"webp", py".webp"); (py"bmp", py".bmp") ].

(** The extension chosen for the cache file, given the path of the URL. *)
Definition infer_ext (url url_path : str) : str :=
  let ext := splitext_ext url_path in
  if negb (truthy ext) || negb (existsb (str_eqb (lower ext)) image_exts) then
    if contains url py"wx_fmt=" then
      let after := default [] (last (split_str py"wx_fmt=" 0 url)) in
      let fmt := default [] (head (split_chr "&" after)) in
      dict_get ext_map fmt py".jpg"
    else py".jpg"
  else ext.

(** [TEMP_IMAGE_DIR / filename] *)
Definition cache_path (filename : str) : str := TEMP_IMAGE_DIR ++ py"/" ++ filename.

Definition cache_filename (url url_path : str) : str :=
  let url_hash := take 12 (md5_hexdigest url) in
  py"img_" ++ url_hash ++ infer_ext url url_path.

Definition download_from_url (url : str) : M World (option str) :=
  try_except
    ((url_path ← (match urlparse_path url with
                   | Some p => mret p
                   | None => raise
                   end : M World str);
      let filename := cache_filename url url_path in
      let local_path := cache_path filename in
      found ← exists_file local_path;
      if (found : bool) then mret (Some local_path)
      else
        resp ← send server (GetUrl url);
        if status_ok (resp : Response) then
          write_file_bytes local_path (resp_content resp) ;;
          mret (Some local_path)
        else raise) : M World (option str))
    None.

End WithLibraries.
End Uploader.

(** ** [scripts/writer.py]: the orchestrator

    The orchestrator is modelled against the methods of the document
    client and of the uploader: each call is logged with its arguments and
    answered by an oracle that sees the log. *)

Module Writer.
Import Parser.

(** An entry of a folder listing: a dict with string values. *)
Abbreviation Doc := (gmap string str).

(** The calls of [FeishuWriter] on [self.doc_writer] and [self.uploader]. *)
Inductive Call :=
  | append_blocks (document_id block_id : str) (blocks : list Block)
  | create_image_block (document_id block_id : str)
  | upload (image_source parent_node : str)
  | replace_image_token (document_id block_id file_token : str)
  | create_table (document_id block_id : str) (rows cols : nat)
  | fill_table (document_id table_block_id : str) (table_data : list (list str))
  | list_documents_in_folder (folder_token : str)
  | create_document (title : str) (folder_token : option str)
  | create_wiki_document (title space_id : str) (parent_node_token : option str)
  | get_wiki_space_id (node_token : str)
  | delete_document_content (document_id : str).

(** What the calls return, by method; the first argument is the log of
    the calls made before. *)
Record Client := {
  on_append_blocks : list Call -> str -> str -> list Block -> Result bool;
  on_create_image_block : list Call -> str -> str -> Result (option str);
  on_upload : list Call -> str -> str -> Result (option str);
  on_replace_image_token : list Call -> str -> str -> str -> Result bool;
  on_create_table : list Call -> str -> str -> nat -> nat -> Result (option str);
  on_fill_table : list Call -> str -> str -> list (list str) -> Result bool;
  on_list_documents_in_folder : list Call -> str -> Result (list Doc);
  on_create_document : list Call -> str -> option str -> Result (str * str);
  on_create_wiki_document :
    list Call -> str -> str -> option str -> Result (str * option str);
  on_get_wiki_space_id : list Call -> str -> Result (option str);
  on_delete_document_content : list Call -> str -> Result bool }.

(** What [write_file] reads from its surroundings: the file ([None] when
    the path does not exist), [Path(p).stem] and [os.getenv]. *)
Record Host := {
  read_text : str -> option str;
  path_stem : str -> str;
  getenv : string -> option str }.

Definition call {A} (c : Call) (answer : list Call -> Result A) : M (list Call) A :=
  fun log => (answer log, log ++ [c]).

Section WithClient.
Variable client : Client.
Variable host : Host.

Definition do_append_blocks (document_id block_id : str) (blocks : list Block) :=
  call (append_blocks document_id block_id blocks)
       (fun log => on_append_blocks client log document_id block_id blocks).
Definition do_create_image_block (document_id block_id : str) :=
  call (create_image_block document_id block_id)
       (fun log => on_create_image_block client log document_id block_id).
Definition do_upload (image_source parent_node : str) :=
  call (upload image_source parent_node)
       (fun log => on_upload client log image_source parent_node).
Definition do_replace_image_token (document_id block_id file_token : str) :=
  call (replace_image_token document_id block_id file_token)
       (fun log => on_replace_image_token client log document_id block_id file_token).
Definition do_create_table (document_id block_id : str) (rows cols : nat) :=
  call (create_table document_id block_id rows cols)
       (fun log => on_create_table client log document_id block_id rows cols).
Definition do_fill_table (document_id table_block_id : str) (table_data : list (list str)) :=
  call (fill_table document_id table_block_id table_data)
       (fun log => on_fill_table client log document_id table_block_id table_data).
Definition do_list_documents_in_folder (folder_token : str) :=
  call (list_documents_in_folder folder_token)
       (fun log => on_list_documents_in_folder client log folder_token).
Definition do_create_document (title : str) (folder_token : option str) :=
  call (create_document title folder_token)
       (fun log => on_create_document client log title folder_token).
Definition do_create_wiki_document (title space_id : str) (parent : option str) :=
  call (create_wiki_document title space_id parent)
       (fun log => on_create_wiki_document client log title space_id parent).
Definition do_get_wiki_space_id (node_token : str) :=
  call (get_wiki_space_id node_token)
       (fun log => on_get_wiki_space_id client log node_token).
Definition do_delete_document_content (document_id : str) :=
  call (delete_document_content document_id)
       (fun log => on_delete_document_content client log document_id).

(** [{idx: (path, is_url) for idx, path, is_url in pending_images}]: a later
    entry with the same index replaces an earlier one. *)
Definition build_image_map (pending_images : list (nat * str * bool))
  : gmap nat (str * bool) :=
  foldl (fun m '(idx, path, is_url) => <[idx := (path, is_url)]> m) ∅ pending_images.

(** [{idx: data for idx, data in pending_tables}] *)
Definition build_table_map (pending_tables : list (nat * list (list str)))
  : gmap nat (list (list str)) :=
  foldl (fun m '(idx, data) => <[idx := data]> m) ∅ pending_tables.

(** [if current_batch: append_blocks(doc_id, doc_id, current_batch)]; the
    batch is empty afterwards. *)
Definition flush (doc_id : str) (current_batch : list Block) : M (list Call) unit :=
  match current_batch with
  | [] => mret tt
  | _ :: _ => do_append_blocks doc_id doc_id current_batch ;; mret tt
  end.

(** The image branch after the flush; the result is the new
    [uploaded_count].  Each [continue] of the source ends the branch. *)
Definition handle_image (doc_id image_path : str) (uploaded_count : nat)
  : M (list Call) nat :=
  image_block_id ← do_create_image_block doc_id doc_id;
  if negb (opt_truthy image_block_id) then mret uploaded_count
  else
    file_token ← do_upload image_path (group_str image_block_id);
    if negb (opt_truthy file_token) then mret uploaded_count
    else
      ok ← do_replace_image_token doc_id (group_str image_block_id) (group_str file_token);
      if (ok : bool) then mret (uploaded_count + 1) else mret uploaded_count.

(** The table branch after the flush. *)
Definition handle_table (doc_id : str) (table_data : list (list str))
  : M (list Call) unit :=
  let rows := length table_data in
  let cols := max_row_len table_data in
  if (0 <? rows) && (0 <? cols) then
    table_block_id ← do_create_table doc_id doc_id rows cols;
    if opt_truthy table_block_id
    then do_fill_table doc_id (group_str table_block_id) table_data ;; mret tt
    else mret tt
  else mret tt.

(** The [for i, block in enumerate(blocks)] loop; the state is
    [(current_batch, uploaded_count)]. *)
Fixpoint write_loop (doc_id : str) (image_map : gmap nat (str * bool))
    (table_map : gmap nat (list (list str))) (items : list (nat * Block))
    (current_batch : list Block) (uploaded_count : nat)
  : M (list Call) (list Block * nat) :=
  match items with
  | [] => mret (current_batch, uploaded_count)
  | (i, block) :: items' =>
      match image_map !! i with
      | Some (image_path, is_url) =>
          flush doc_id current_batch ;;
          uploaded_count ← handle_image doc_id image_path uploaded_count;
          write_loop doc_id image_map table_map items' [] uploaded_count
      | None =>
          match table_map !! i with
          | Some table_data =>
              flush doc_id current_batch ;;
              handle_table doc_id table_data ;;
              write_loop doc_id image_map table_map items' [] uploaded_count
          | None =>
              write_loop doc_id image_map table_map items'
                (current_batch ++ [block]) uploaded_count
          end
      end
  end.

(** [enumerate(blocks)] *)
Definition enumerate {A} (l : list A) : list (nat * A) := zip (seq 0 (length l)) l.

Definition _write_content_with_images (md_path doc_id : str) (blocks : list Block)
    (pending_images : list (nat * str * bool))
    (pending_tables : list (nat * list (list str))) : M (list Call) nat :=
  let image_map := build_image_map pending_images in
  let table_map := build_table_map pending_tables in
  '(current_batch, uploaded_count) ←
    write_loop doc_id image_map table_map (enumerate blocks) [] 0;
  flush doc_id current_batch ;;
  mret uploaded_count.

(** The ["message"] of a result of [write_file] or [update_document]: the
    file does not exist; [f"duplicate:{existing_doc.get('token')}:{title}"];
    no library space is configured; the creation of the library document
    or of the document raised; the document was created; it was updated. *)
Inductive Message :=
  | file_not_found (md_path : str)
  | duplicate (token : option str) (title : str)
  | wiki_space_missing
  | wiki_creation_failed
  | creation_failed
  | created (title : str)
  | updated.

(** The dict returned by [write_file]; an absent key is [None]. *)
Record Outcome := {
  success : bool;
  document_id : option str;
  message : Message;
  existing_doc : option Doc;
  node_token : option (option str);
  uploaded_images : option nat }.

Definition failure (msg : Message) : Outcome :=
  {| success := false; document_id := None; message := msg;
     existing_doc := None; node_token := None; uploaded_images := None |}.

(** The truth value of a dict. *)
Definition doc_truthy (d : Doc) : bool := negb (bool_decide (d = ∅)).

(** [for doc in docs: if doc.get("name") == title: existing_doc = doc; break] *)
Fixpoint find_by_name (title : str) (docs : list Doc) : option Doc :=
  match docs with
  | [] => None
  | doc :: docs' =>
      if bool_decide (doc !! "name" = Some title) then Some doc
      else find_by_name title docs'
  end.

(** [a or b] on optional strings. *)
Definition opt_or (a b : option str) : option str := if opt_truthy a then a else b.

(** [try: c  except Exception as e: ...]: [None] when [c] raised. *)
Definition attempt {S A} (c : M S A) : M S (option A) :=
  fun s => match c s with
           | (Returned a, s') => (Returned (Some a), s')
           | (Raised, s') => (Returned None, s')
           end.

(** The part of [write_file] after the duplicate check. *)
Definition write_new (md_path target : str) (folder_token wiki_token : option str)
    (title : str) (blocks : list Block) (parser : MarkdownParser) : M (list Call) Outcome :=
  if str_eqb target py"wiki" then
    let wiki_space_id := getenv host "FEISHU_DEFAULT_WIKI_SPACE_ID" in
    let wiki_node_token := opt_or wiki_token (getenv host "FEISHU_DEFAULT_WIKI_NODE_TOKEN") in
    wiki_space_id ←
      (if opt_truthy wiki_node_token && negb (opt_truthy wiki_space_id)
       then do_get_wiki_space_id (group_str wiki_node_token)
       else mret wiki_space_id);
    if negb (opt_truthy wiki_space_id) then mret (failure wiki_space_missing)
    else
      made ← attempt (do_create_wiki_document title (group_str wiki_space_id) wiki_node_token);
      match made with
      | None => mret (failure wiki_creation_failed)
      | Some (doc_id, node) =>
          uploaded ← _write_content_with_images md_path doc_id blocks
                       (pending_images parser) (pending_tables parser);
          mret {| success := true; document_id := Some doc_id; message := created title;
                  existing_doc := None; node_token := Some node;
                  uploaded_images := Some uploaded |}
      end
  else
    made ← attempt (do_create_document title
                      (if str_eqb target py"folder" then folder_token else None));
    match made with
    | None => mret (failure creation_failed)
    | Some (doc_id, block_id) =>
        uploaded ← _write_content_with_images md_path doc_id blocks
                     (pending_images parser) (pending_tables parser);
        mret {| success := true; document_id := Some doc_id; message := created title;
                existing_doc := None; node_token := None;
                uploaded_images := Some uploaded |}
    end.

Definition write_file (md_path target : str) (folder_token wiki_token : option str)
    (check_duplicate : bool) : M (list Call) Outcome :=
  match read_text host md_path with
  | None => mret (failure (file_not_found md_path))
  | Some content =>
      let title := path_stem host md_path in
      match parse content init with
      | None => raise
      | Some (blocks, parser) =>
          existing ←
            (if check_duplicate && opt_truthy folder_token then
               docs ← do_list_documents_in_folder (group_str folder_token);
               mret (find_by_name title docs)
             else mret None);
          match existing with
          | Some doc =>
              if doc_truthy doc then
                mret {| success := false; document_id := None;
                        message := duplicate (doc !! "token") title;
                        existing_doc := Some doc; node_token := None;
                        uploaded_images := None |}
              else write_new md_path target folder_token wiki_token title blocks parser
          | None => write_new md_path target folder_token wiki_token title blocks parser
          end
      end
  end.

(** [update_document] *)
Definition update_document (document_id md_path : str) : M (list Call) Outcome :=
  match read_text host md_path with
  | None => mret (failure (file_not_found md_path))
  | Some content =>
      match parse content init with
      | None => raise
      | Some (blocks, parser) =>
          do_delete_document_content document_id ;;
          uploaded ← _write_content_with_images md_path document_id blocks
                       (pending_images parser) (pending_tables parser);
          mret {| success := true; document_id := Some document_id; message := updated;
                  existing_doc := None; node_token := None;
                  uploaded_images := Some uploaded |}
      end
  end.

(** *** Vocabulary of the properties of the orchestrator *)

(** The loop followed by the last flush, on positions and blocks of any
    origin, from a given count. *)
Definition write_items (doc_id : str) (image_map : gmap nat (str * bool))
    (table_map : gmap nat (list (list str))) (items : list (nat * Block))
    (count : nat) : M (list Call) nat :=
  '(current_batch, uploaded_count) ←
    write_loop doc_id image_map table_map items [] count;
  flush doc_id current_batch ;;
  mret uploaded_count.

(** The special handling of position [i]. *)
Definition special (doc_id : str) (image_map : gmap nat (str * bool))
    (table_map : gmap nat (list (list str))) (i : nat) (count : nat)
  : M (list Call) nat :=
  match image_map !! i with
  | Some (image_path, _) => handle_image doc_id image_path count
  | None =>
      match table_map !! i with
      | Some table_data => handle_table doc_id table_data ;; mret count
      | None => mret count
      end
  end.

End WithClient.

(** What a call adds to the document, in the order of the calls. *)
Inductive Piece :=
  | piece_block (b : Block)
  | piece_image
  | piece_table (rows cols : nat).

Definition rendered_call (c : Call) : list Piece :=
  match c with
  | append_blocks _ _ blocks => map piece_block blocks
  | create_image_block _ _ => [piece_image]
  | create_table _ _ rows cols => [piece_table rows cols]
  | _ => []
  end.

(** What a log of calls adds to the document. *)
Definition rendered (log : list Call) : list Piece := c ← log; rendered_call c.

(** What the block at position [ib.1] is to become in the document. *)
Definition expected_item (image_map : gmap nat (str * bool))
    (table_map : gmap nat (list (list str))) (ib : nat * Block) : list Piece :=
  match image_map !! ib.1 with
  | Some _ => [piece_image]
  | None =>
      match table_map !! ib.1 with
      | Some data =>
          if (0 <? length data) && (0 <? max_row_len data)
          then [piece_table (length data) (max_row_len data)] else []
      | None => [piece_block ib.2]
      end
  end.

(** The document that a sequence of positions and blocks describes. *)
Definition expected (image_map : gmap nat (str * bool))
    (table_map : gmap nat (list (list str))) (items : list (nat * Block)) : list Piece :=
  ib ← items; expected_item image_map table_map ib.

(** A position with an entry in one of the index maps. *)
Definition flagged (image_map : gmap nat (str * bool))
    (table_map : gmap nat (list (list str))) (i : nat) : bool :=
  is_some (image_map !! i) || is_some (table_map !! i).

(** An append goes to the root of the document and is never empty. *)
Definition append_ok (doc_id : str) (c : Call) : Prop :=
  match c with
  | append_blocks d b blocks => d = doc_id /\ b = doc_id /\ blocks <> []
  | _ => True
  end.

(** [c] run on [log] ends with [res] after the calls [new]. *)
Definition runs {A} (c : M (list Call) A) (log : list Call) (res : Result A)
    (new : list Call) : Prop :=
  c log = (res, log ++ new).

(** A step whose calls render as [its], whether it returns or raises. *)
Definition step_ok {A} (doc_id : str) (c : M (list Call) A) (its : list Piece) : Prop :=
  forall log, exists res new,
    runs c log res new /\ Forall (append_ok doc_id) new /\ rendered new = its.

End Writer.

(** ** Concrete inputs, services and clients used in the examples *)

Module Samples.
Import Parser Http DocWriter Writer.

(** A fenced block that holds a line starting with the heading marker. *)
Definition fenced_marker_text : str :=
  py"```" ++ [newline] ++ py"# not a heading" ++ [newline] ++ py"```".

(** A paragraph, then a fence tagged [python] that is never closed. *)
Definition unclosed_text : str :=
  py"intro" ++ [newline] ++ py"```python" ++ [newline] ++
  py"x = 1" ++ [newline] ++ py"# still code".

Definition empty_world : World := {| requests := []; files := ∅ |}.

(** A service that accepts the first request and rejects the later ones. *)
Definition flaky_server : Server := fun history _ =>
  {| status_ok := true;
     json := Some (if length history =? 0 then 0%Z else 1%Z, []);
     resp_content := [] |}.

Definition cell (s : string) : Http.Item := {| block_id := Some (str_of s) |}.

Definition five_cells : list Http.Item := [cell "c0"; cell "c1"; cell "c2"; cell "c3"; cell "c4"].

(** A service that lists five cells and rejects every fill. *)
Definition strict_server : Server := fun _ r =>
  match r with
  | GetChildren _ _ => {| status_ok := true; json := Some (0%Z, five_cells);
                          resp_content := [] |}
  | _ => {| status_ok := true; json := Some (1%Z, []); resp_content := [] |}
  end.

(** Two rows of three columns, with an empty cell and a short row. *)
Definition sample_grid : list (list str) := [[py"a"; py""; py"c"]; [py"d"; py"e"]].

Definition sample_url : str := py"https://example.com/pics/cat.PNG?size=2".

(** Stand-ins for the library functions, on [sample_url]. *)
Definition sample_urlparse_path (url : str) : option str := Some py"/pics/cat.PNG".
Definition sample_splitext_ext (p : str) : str := py".PNG".
Definition sample_md5 (s : str) : str := py"0123456789abcdef0123456789abcdef".

(** A service that delivers three bytes for every download. *)
Definition image_server : Server := fun _ _ =>
  {| status_ok := true; json := None; resp_content := py"PNG" |}.

(** A folder listing with two items; the second bears the title [notes]. *)
Definition other_doc : Doc := {[ "name" := py"draft"; "token" := py"tok1" ]}.
Definition notes_doc : Doc := {[ "name" := py"notes"; "token" := py"tok2" ]}.
Definition listing : list Doc := [other_doc; notes_doc].

(** A client on which every call succeeds. *)
Definition quiet_client : Client :=
  {| on_append_blocks := fun _ _ _ _ => Returned true;
     on_create_image_block := fun _ _ _ => Returned (Some py"img1");
     on_upload := fun _ _ _ => Returned (Some py"file1");
     on_replace_image_token := fun _ _ _ _ => Returned true;
     on_create_table := fun _ _ _ _ _ => Returned (Some py"tbl1");
     on_fill_table := fun _ _ _ _ => Returned true;
     on_list_documents_in_folder := fun _ _ => Returned listing;
     on_create_document := fun _ _ _ => Returned (py"doc1", py"doc1");
     on_create_wiki_document := fun _ _ _ _ => Returned (py"doc1", Some py"node1");
     on_get_wiki_space_id := fun _ _ => Returned (Some py"space1");
     on_delete_document_content := fun _ _ => Returned true |}.

(** A paragraph, an image, a paragraph, a table and a paragraph. *)
Definition mixed_text : str :=
  py"first" ++ [newline] ++ py"![pic](a.png)" ++ [newline] ++ py"second" ++ [newline] ++
  py"| h | k |" ++ [newline] ++ py"|---|---|" ++ [newline] ++ py"| 1 | 2 |" ++ [newline] ++
  py"third".

Definition notes_host : Host :=
  {| read_text := fun p => if str_eqb p py"notes.md" then Some mixed_text else None;
     path_stem := fun _ => py"notes";
     getenv := fun _ => None |}.

End Samples.

(** ** Further vocabulary of the parser *)

Module ParserTerms.
Import Re Parser.

(** The characters that open an alternative of the inline pattern. *)
Definition markup_chr (c : ascii) : bool :=
  is_chr "*" c || is_chr "_" c || is_chr "`" c || is_chr "[" c.

(** A letter of the basic Latin alphabet. *)
Definition letter (c : ascii) : bool := chr_in 65 90 c || chr_in 97 122 c.

(** A line whose first character is a letter. *)
Definition starts_with_letter (l : str) : bool :=
  match l with c :: _ => letter c | [] => false end.

(** An item line of an ordered list: digits, a dot, one whitespace
    character, then the text of the item. *)
Definition ordered_line (digits : str) (sp : ascii) (text : str) : str :=
  digits ++ "."%char :: sp :: text.

(** An item as written: its number, the whitespace after the dot, its text. *)
Definition item_ok (it : str * ascii * str) : bool :=
  truthy it.1.1 && forallb isdecimal it.1.1 && isspace it.1.2.
Definition item_line (it : str * ascii * str) : str := ordered_line it.1.1 it.1.2 it.2.

(** The line of an image: alternative text and target, then anything. *)
Definition image_line (alt target tail : str) : str :=
  py"![" ++ alt ++ py"](" ++ target ++ py")" ++ tail.

(** A table line as written from its cells: a delimiter, the cells
    separated by delimiters, a delimiter. *)
Definition row_line (cells : list str) : str := py"|" ++ join py"|" cells ++ py"|".

(** Cells that can be written so: at least one, none holding a delimiter. *)
Definition row_ok (cells : list str) : bool :=
  match cells with
  | [] => false
  | _ :: _ => forallb (fun cell => negb (existsb (is_chr "|") cell)) cells
  end.

(** The grid of a table written from [rows]: the cells stripped, the
    alignment rows left out. *)
Definition data_rows (rows : list (list str)) : list (list str) :=
  filter (fun row => alignment_row row = false) (map (map strip) rows).

(** A list of numbers that goes up strictly. *)
Fixpoint increasing (l : list nat) : bool :=
  match l with
  | a :: (b :: _) as rest => (a <? b) && increasing rest
  | _ => true
  end.

(** The positions recorded in the two pending lists. *)
Definition image_indices (self : MarkdownParser) : list nat :=
  map (fun e => e.1.1) (pending_images self).
Definition table_indices (self : MarkdownParser) : list nat :=
  map fst (pending_tables self).

(** The positions of each pending list go up and lie within the blocks. *)
Definition indices_ok (blocks : list Block) (self : MarkdownParser) : Prop :=
  increasing (image_indices self) = true /\
  increasing (table_indices self) = true /\
  Forall (fun a => a < length blocks) (image_indices self) /\
  Forall (fun a => a < length blocks) (table_indices self).

(** [img_path.startswith('http://') or img_path.startswith('https://')] *)
Definition is_remote (img_path : str) : bool :=
  startswith img_path py"http://" || startswith img_path py"https://".

(** The flag of an image placeholder says whether its path is remote. *)
Definition flag_ok (b : Block) : Prop :=
  match b with
  | ImagePlaceholder p u => u = is_remote p
  | _ => True
  end.

End ParserTerms.

(** ** [scripts/doc_writer.py]: the cells of a table *)

Module TableCells.
Import Parser Http DocWriter.

Section WithServer.
Variable server : Server.

(** The [for row in rows] loop of [get_table_cells]; the state is [cells]. *)
Fixpoint row_cells (document_id : str) (rows : list Item) (cells : list Item)
  : M World (list Item) :=
  match rows with
  | [] => mret cells
  | row :: rows' =>
      let row_id := block_id row in
      '(code, items) ← send_json server (GetChildren document_id (fmt_id row_id));
      row_cells document_id rows' (if (code =? 0)%Z then cells ++ items else cells)
  end.

Definition get_table_cells (document_id table_block_id : str) : M World (list Item) :=
  try_except
    ('(code, rows) ← send_json server (GetChildren document_id table_block_id);
     if negb (code =? 0)%Z then mret [] else row_cells document_id rows [])
    [].

End WithServer.

(** The request for the children of a row. *)
Definition row_request (document_id : str) (row : Item) : Request :=
  GetChildren document_id (fmt_id (block_id row)).

(** The answer to the request for row [j] of [rows] when the rows before
    it have been asked for from the world [w]. *)
Definition row_reply (server : Server) (document_id : str) (w : World)
    (rows : list Item) (j : nat) : option Response :=
  row ← rows !! j;
  Some (server (requests w ++ map (row_request document_id) (take j rows))
          (row_request document_id row)).

(** The items that an accepted answer contributes. *)
Definition kept (answer : Z * list Item) : list Item :=
  if (answer.1 =? 0)%Z then answer.2 else [].

(** The body of a response that [send_json] accepts. *)
Definition accepted (r : Response) : option (Z * list Item) :=
  if status_ok r then json r else None.

End TableCells.

(** ** [scripts/doc_writer.py]: clearing a document

    [delete_document_content] lists the blocks of the document and sends
    one DELETE per block.  Only the listing is checked with
    [raise_for_status]; on a DELETE the method looks at nothing, so that
    only a request that gets no response at all raises. *)

Module Cleanup.
Import Http.

Inductive Request :=
  | ListBlocks (document_id : str)
  | DeleteBlock (document_id block_id : str).

(** What [requests] gives back: it raises, or there is a response, with
    what [raise_for_status] makes of its status and with the ["code"] and
    the ["items"] of its body ([None] when [resp.json()] raises). *)
Inductive Reply :=
  | no_response
  | response (status_ok : bool) (json : option (Z * list Item)).

(** The service answers a request knowing the requests before it. *)
Definition Server := list Request -> Request -> Reply.

Section WithServer.
Variable server : Server.

Definition request (r : Request) : M (list Request) (bool * option (Z * list Item)) :=
  fun log =>
    match server log r with
    | no_response => (Raised, log ++ [r])
    | response ok body => (Returned (ok, body), log ++ [r])
    end.

(** The [for block in blocks] loop. *)
Fixpoint delete_blocks (document_id : str) (blocks : list Item) : M (list Request) unit :=
  match blocks with
  | [] => mret tt
  | block :: blocks' =>
      (match block_id block with
       | Some block_id =>
           if truthy block_id && negb (str_eqb block_id document_id)
           then request (DeleteBlock document_id block_id) ;; mret tt
           else mret tt
       | None => mret tt
       end) ;;
      delete_blocks document_id blocks'
  end.

Definition delete_document_content (document_id : str) : M (list Request) bool :=
  '(ok, body) ← request (ListBlocks document_id);
  if negb (ok : bool) then raise
  else
    match body with
    | None => raise
    | Some (code, blocks) =>
        if negb (code =? 0)%Z then mret false
        else delete_blocks document_id blocks ;; mret true
    end.

End WithServer.

(** The identifiers that are to be deleted: those that are not empty and
    are not the document itself. *)
Definition doomed (document_id : str) (blocks : list Item) : list str :=
  omap (fun block =>
          match block_id block with
          | Some id => if truthy id && negb (str_eqb id document_id) then Some id else None
          | None => None
          end) blocks.

(** The answers to the deletions of [ids], asked one after the other once
    the requests [log] have been sent. *)
Definition delete_reply (server : Server) (document_id : str) (log : list Request)
    (ids : list str) (j : nat) : option Reply :=
  id ← ids !! j;
  Some (server (log ++ map (DeleteBlock document_id) (take j ids))
          (DeleteBlock document_id id)).

End Cleanup.

(** ** [scripts/uploader.py]: local paths and URLs *)

Module Resolve.
Import Parser Http Uploader.

Section WithLibraries.
(** As for the cache, with three operations of [pathlib]:
    [Path(p).is_absolute()], [str(Path(p))] and [str(md_dir / p)]. *)
Variable urlparse_path : str -> option str.
Variable splitext_ext : str -> str.
Variable md5_hexdigest : str -> str.
Variable TEMP_IMAGE_DIR : str.
Variable server : Server.
Variable is_absolute : str -> bool.
Variable as_path : str -> str.
Variable under : str -> str -> str.

Definition resolve_image_path (md_dir img_path : str) : M World (option str) :=
  if startswith img_path py"http://" || startswith img_path py"https://" then
    download_from_url urlparse_path splitext_ext md5_hexdigest TEMP_IMAGE_DIR server img_path
  else
    let path := if negb (is_absolute img_path) then under md_dir img_path
                else as_path img_path in
    found ← exists_file path;
    if (found : bool) then mret (Some path) else mret None.

End WithLibraries.
End Resolve.

(** ** Further vocabulary of the orchestrator *)

Module WriterTerms.
Import Parser Writer.

(** The calls that write into a document. *)
Definition content_call (c : Call) : bool :=
  match c with
  | append_blocks _ _ _ | create_image_block _ _ | upload _ _
  | replace_image_token _ _ _ | create_table _ _ _ _ | fill_table _ _ _ => true
  | _ => false
  end.

(** The calls that create a document. *)
Definition creation_call (c : Call) : bool :=
  match c with
  | create_document _ _ | create_wiki_document _ _ _ => true
  | _ => false
  end.

Definition is_listing (c : Call) : bool :=
  match c with list_documents_in_folder _ => true | _ => false end.
Definition is_space_lookup (c : Call) : bool :=
  match c with get_wiki_space_id _ => true | _ => false end.
Definition is_create_image (c : Call) : bool :=
  match c with create_image_block _ _ => true | _ => false end.
Definition is_upload (c : Call) : bool :=
  match c with upload _ _ => true | _ => false end.
Definition is_replace (c : Call) : bool :=
  match c with replace_image_token _ _ _ => true | _ => false end.
Definition is_create_table (c : Call) : bool :=
  match c with create_table _ _ _ _ => true | _ => false end.
Definition is_fill_table (c : Call) : bool :=
  match c with fill_table _ _ _ => true | _ => false end.

(** A call that writes into the document [doc_id], at its root where the
    call names a parent block. *)
Definition targets (doc_id : str) (c : Call) : Prop :=
  match c with
  | append_blocks d b _ | create_image_block d b | create_table d b _ _ =>
      d = doc_id /\ b = doc_id
  | replace_image_token d _ _ | fill_table d _ _ => d = doc_id
  | upload _ _ => True
  | _ => False
  end.

(** The number of calls of a kind in a log. *)
Definition count (kind : Call -> bool) (log : list Call) : nat :=
  length (List.filter kind log).

(** Each stage of the handling of an image or of a table is tried at most
    as often as the stage before it. *)
Definition staged (log : list Call) : Prop :=
  count is_replace log <= count is_upload log /\
  count is_upload log <= count is_create_image log /\
  count is_fill_table log <= count is_create_table log.

(** The calls of a write of at most [k] positions into [doc_id]. *)
Definition trace_ok (doc_id : str) (k : nat) (log : list Call) : Prop :=
  Forall (targets doc_id) log /\ staged log /\
  count is_create_image log + count is_create_table log <= k.

(** The calls of the part of [write_file] after the duplicate check: at
    most one lookup of the space, then at most one creation, then content
    calls into the document created. *)
Definition new_shape (host : Host) (target : str) (res : Result Outcome)
    (new : list Call) : Prop :=
  exists g c post,
    new = g ++ c ++ post /\
    length g <= 1 /\ Forall (fun x => is_space_lookup x = true) g /\
    length c <= 1 /\ Forall (fun x => creation_call x = true) c /\
    Forall (fun x => content_call x = true) post /\
    (c = [] -> post = []) /\
    (opt_truthy (getenv host "FEISHU_DEFAULT_WIKI_SPACE_ID") = true -> g = []) /\
    (target <> py"wiki" -> g = []) /\
    (forall o, res = Returned o -> success o = true ->
       exists d, document_id o = Some d /\ Forall (targets d) post).

End WriterTerms.

(** ** Further inputs, services and clients used in the examples *)

Module MoreSamples.
Import Parser Http DocWriter TableCells Writer Samples.

(** The cells of a table of three lines, the second an alignment row and
    the third one cell short. *)
Definition table_rows : list (list str) :=
  [[py" a "; py" b "; py" c "]; [py"---"; py":-:"; py"---"]; [py" 1 "; py" 2 "]].

(** That table between two paragraphs. *)
Definition table_text : str :=
  py"intro" ++ [newline] ++ py"| a | b | c |" ++ [newline] ++ py"|---|:-:|---|" ++
  [newline] ++ py"| 1 | 2 |" ++ [newline] ++ py"end".

(** A service that accepts the first request and does not answer the
    later ones. *)
Definition dropping_server : Server := fun history _ =>
  {| status_ok := length history =? 0; json := Some (0%Z, []); resp_content := [] |}.

(** A service that answers nothing. *)
Definition down_server : Server := fun _ _ =>
  {| status_ok := false; json := None; resp_content := [] |}.

(** A service that fails the first download and delivers the later ones. *)
Definition recovering_server : Server := fun history _ =>
  {| status_ok := negb (length history =? 0); json := None; resp_content := py"PNG" |}.

(** A table of two rows: the first row has two cells, the second is
    answered with a code that is not 0. *)
Definition rows_server : Server := fun _ r =>
  match r with
  | GetChildren _ b =>
      if str_eqb b py"tbl" then
        {| status_ok := true; json := Some (0%Z, [cell "r0"; cell "r1"]);
           resp_content := [] |}
      else if str_eqb b py"r0" then
        {| status_ok := true; json := Some (0%Z, [cell "c0"; cell "c1"]);
           resp_content := [] |}
      else
        {| status_ok := true; json := Some (1%Z, [cell "c2"]); resp_content := [] |}
  | _ => {| status_ok := false; json := None; resp_content := [] |}
  end.

(** The same table on a service that does not answer for the second row. *)
Definition broken_row_server : Server := fun _ r =>
  match r with
  | GetChildren _ b =>
      if str_eqb b py"tbl" then
        {| status_ok := true; json := Some (0%Z, [cell "r0"; cell "r1"]);
           resp_content := [] |}
      else if str_eqb b py"r0" then
        {| status_ok := true; json := Some (0%Z, [cell "c0"; cell "c1"]);
           resp_content := [] |}
      else {| status_ok := false; json := None; resp_content := [] |}
  | _ => {| status_ok := false; json := None; resp_content := [] |}
  end.

(** A document of five blocks: its root, a block, a block without
    identifier, a block with an empty identifier, and a block.  Every
    deletion is answered with an error status. *)
Definition listing_server : Cleanup.Server := fun _ r =>
  match r with
  | Cleanup.ListBlocks _ =>
      Cleanup.response true
        (Some (0%Z, [cell "doc"; cell "b1"; {| block_id := None |}; cell ""; cell "b2"]))
  | Cleanup.DeleteBlock _ _ => Cleanup.response false None
  end.

(** A client on which the creation of a document raises. *)
Definition failing_client : Client :=
  {| on_append_blocks := fun _ _ _ _ => Returned true;
     on_create_image_block := fun _ _ _ => Returned (Some py"img1");
     on_upload := fun _ _ _ => Returned (Some py"file1");
     on_replace_image_token := fun _ _ _ _ => Returned true;
     on_create_table := fun _ _ _ _ _ => Returned (Some py"tbl1");
     on_fill_table := fun _ _ _ _ => Returned true;
     on_list_documents_in_folder := fun _ _ => Returned listing;
     on_create_document := fun _ _ _ => Raised;
     on_create_wiki_document := fun _ _ _ _ => Raised;
     on_get_wiki_space_id := fun _ _ => Returned None;
     on_delete_document_content := fun _ _ => Returned false |}.

(** A host on which a space is configured. *)
Definition wiki_host : Host :=
  {| read_text := fun p => if str_eqb p py"notes.md" then Some mixed_text else None;
     path_stem := fun _ => py"notes";
     getenv := fun name => if String.eqb name "FEISHU_DEFAULT_WIKI_SPACE_ID"
                           then Some py"space9" else None |}.

End MoreSamples.

(** * Properties *)

(** ** Laws of the effect monad, pointwise *)

Module EffFacts.

Lemma mret_bind {S A B} (a : A) (k : A -> M S B) : (mret a ≫= k) = k a.
Proof. reflexivity. Qed.

Lemma bind_run {S A B} (c : M S A) (k : A -> M S B) (s s' : S) (a : A) :
  c s = (Returned a, s') -> (c ≫= k) s = k a s'.
Proof. intros E. unfold mbind, M_bind. by rewrite E. Qed.

Lemma bind_assoc {S A B C} (c : M S A) (k : A -> M S B) (h : B -> M S C) (s : S) :
  ((c ≫= k) ≫= h) s = (c ≫= fun a => k a ≫= h) s.
Proof. unfold mbind, M_bind. destruct (c s) as [[|a] s']; reflexivity. Qed.

Lemma bind_ext {S A B} (c : M S A) (k1 k2 : A -> M S B) (s : S) :
  (forall a s', k1 a s' = k2 a s') -> (c ≫= k1) s = (c ≫= k2) s.
Proof.
  intros H. unfold mbind, M_bind. destruct (c s) as [[|a] s']; [reflexivity | apply H].
Qed.

Lemma bind_cong {S A B} (c1 c2 : M S A) (k : A -> M S B) (s : S) :
  c1 s = c2 s -> (c1 ≫= k) s = (c2 ≫= k) s.
Proof. intros H. unfold mbind, M_bind. by rewrite H. Qed.

Lemma index_some {S A} (l : list A) (i : nat) (x : A) :
  l !! i = Some x -> @index S A l i = mret x.
Proof. intros E. unfold index. by rewrite E. Qed.

End EffFacts.

(** ** The parser *)

Module ParserFacts.
Import Re Parser Samples.

(** *** Inline formats *)

Lemma inline_step_app text acc m :
  exists extra, fst (inline_step text acc m) = fst acc ++ extra /\
                Forall (fun r => style_count r <= 1) extra.
Proof.
  destruct acc as [elements last_end]. unfold inline_step. cbn [fst].
  set (e1 := if last_end <? m_start m then _ else _).
  assert (H1 : exists x1, e1 = elements ++ x1 /\ Forall (fun r => style_count r <= 1) x1).
  { subst e1. destruct (last_end <? m_start m).
    - destruct (truthy _).
      + eexists; split; [reflexivity|]. repeat constructor.
      + exists []. rewrite app_nil_r. auto.
    - exists []. rewrite app_nil_r. auto. }
  destruct H1 as (x1 & -> & Hx1).
  repeat match goal with
  | |- context [if ?c then _ else _] => destruct c
  end; cbn [fst];
  first [ eexists; split; [ rewrite <- app_assoc; reflexivity | ];
          apply Forall_app; split; [assumption | repeat constructor]
        | exists x1; split; [reflexivity | assumption] ].
Qed.

Lemma foldl_inline_step_app text ms acc :
  exists extra, fst (foldl (inline_step text) acc ms) = fst acc ++ extra /\
                Forall (fun r => style_count r <= 1) extra.
Proof.
  revert acc. induction ms as [|m ms IH]; intros acc; cbn [foldl].
  - exists []. rewrite app_nil_r. auto.
  - destruct (IH (inline_step text acc m)) as (x2 & E2 & F2).
    destruct (inline_step_app text acc m) as (x1 & E1 & F1).
    exists (x1 ++ x2). rewrite E2, E1, app_assoc. split; [reflexivity|].
    apply Forall_app; auto.
Qed.

Lemma parse_inline_formats_styles text :
  Forall (fun r => style_count r <= 1) (_parse_inline_formats text).
Proof.
  unfold _parse_inline_formats.
  destruct (foldl_inline_step_app text (finditer_inline text) ([], 0)) as (x & E & F).
  destruct (foldl _ _ _) as [elements last_end]. cbn [fst] in E. subst elements.
  cbn [app].
  set (e := if last_end <? length text then _ else _).
  assert (He : Forall (fun r => style_count r <= 1) e).
  { subst e. destruct (_ <? _); [|assumption].
    destruct (truthy _); [|assumption].
    apply Forall_app; split; [assumption | repeat constructor]. }
  destruct e; [repeat constructor | assumption].
Qed.

Lemma startswith_app (d tail : str) : startswith (d ++ tail) d = true.
Proof.
  induction d as [|a d IH]; cbn; [reflexivity|]. rewrite Ascii.eqb_refl. exact IH.
Qed.

(** [(.+?)] followed by the closing mark [d] finds a group in
    [x ++ d ++ tail] when [x] is not empty and has no newline. *)
Lemma lazy_plus_close (d x tail : str) :
  x <> [] -> newline ∉ x ->
  exists g rest, lazy_plus (lit d Some) (x ++ d ++ tail) = Some (g, rest) /\ g <> [].
Proof.
  induction x as [|c x IH]; intros Hne Hnl; [congruence|].
  cbn [app lazy_plus].
  destruct (Ascii.eqb_spec c newline) as [->|Hc].
  { exfalso. apply Hnl. left. }
  destruct (lit d Some (x ++ d ++ tail)) as [r|] eqn:E.
  - eexists _, _. split; [reflexivity | discriminate].
  - destruct x as [|c' x'].
    + exfalso. cbn [app] in E. unfold lit in E.
      rewrite startswith_app in E. discriminate.
    + destruct IH as (g & rest & -> & Hg); [discriminate | |].
      { intros Hin. apply Hnl. right. exact Hin. }
      eexists _, _. split; [reflexivity | discriminate].
Qed.

Lemma bold_first (x : str) :
  x <> [] -> newline ∉ x ->
  exists g more, _parse_inline_formats (py"**" ++ x ++ py"**")
                 = styled_run g style_bold :: more /\ g <> [].
Proof.
  intros Hne Hnl.
  destruct (lazy_plus_close py"**" x [] Hne Hnl) as (g & rest & E & Hg).
  rewrite app_nil_r in E.
  unfold _parse_inline_formats, finditer_inline.
  change (py"**" ++ x ++ py"**") with ("*"%char :: "*"%char :: x ++ py"**").
  cbn [finditer_from].
  assert (Hm : exists m, match_inline_at 0 ("*"%char :: "*"%char :: x ++ py"**") = Some m
                 /\ m_start m = 0 /\ group2 m = Some g).
  { unfold match_inline_at, delimited.
    change (lit py"**" (lazy_plus (lit py"**" Some)) ("*"%char :: "*"%char :: x ++ py"**"))
      with (lazy_plus (lit py"**" Some) (x ++ py"**")).
    rewrite E. eexists. split; [reflexivity|]. split; reflexivity. }
  destruct Hm as (m & -> & Hs & Hg2).
  cbn [foldl].
  destruct (foldl_inline_step_app ("*"%char :: "*"%char :: x ++ py"**")
              (finditer_from (m_end m - 0 - 1) 1 ("*"%char :: x ++ py"**"))
              (inline_step ("*"%char :: "*"%char :: x ++ py"**") ([], 0) m))
    as (extra & Ex & _).
  destruct (foldl _ _ _) as [elements last_end]. cbn [fst] in Ex.
  assert (Hfirst : fst (inline_step ("*"%char :: "*"%char :: x ++ py"**") ([], 0) m)
                   = [styled_run g style_bold]).
  { unfold inline_step. rewrite Hs, Hg2. cbn.
    destruct g; [congruence|]. reflexivity. }
  rewrite Hfirst in Ex. subst elements. cbn [app].
  destruct (_ <? _); [destruct (truthy _)|]; cbn [app];
    eexists _, _; (split; [reflexivity | exact Hg]).
Qed.

(** C5.  Each of [**bold**], [`code`], [*italic*] and [[text](url)] on a
    line of its own gives exactly one run, which carries the one style of
    its kind; a text that opens with [**x**], [x] not empty and without a
    newline, starts with a bold run, since the bold alternative is tried
    before the italic one; and no run of any text carries more than one
    style. *)
Theorem inline_formats_single_style :
  _parse_inline_formats py"**bold**" = [styled_run py"bold" style_bold] /\
  _parse_inline_formats py"`code`" = [styled_run py"code" style_inline_code] /\
  _parse_inline_formats py"*italic*" = [styled_run py"italic" style_italic] /\
  _parse_inline_formats py"[text](url)" = [styled_run py"text" (style_link py"url")] /\
  (forall x, x <> [] -> newline ∉ x ->
     exists g more, _parse_inline_formats (py"**" ++ x ++ py"**")
                    = styled_run g style_bold :: more /\ g <> []) /\
  (forall text, Forall (fun r => style_count r <= 1) (_parse_inline_formats text)).
Proof.
  repeat split; try (vm_compute; reflexivity).
  - intros x Hx Hn. destruct (bold_first x Hx Hn) as (g & more & E & Hg).
    exists g, more. split; assumption.
  - apply parse_inline_formats_styles.
Qed.

(** *** Lines and their first character *)

Lemma startswith_cons (c : ascii) (l : str) (a : ascii) :
  startswith (c :: l) [a] = Ascii.eqb a c.
Proof. cbn. by rewrite andb_true_r. Qed.

Lemma plain_first (c : ascii) (l : str) :
  c <> "#"%char -> c <> "`"%char -> plain_line (c :: l) = true.
Proof.
  intros H1 H2. unfold plain_line, is_heading_line, is_fence_line.
  change py"#" with ["#"%char]. change py"```" with ("`"%char :: py"``").
  cbn [startswith].
  destruct (Ascii.eqb_spec "#" c); [congruence|].
  destruct (Ascii.eqb_spec "`" c); [congruence|]. reflexivity.
Qed.

Lemma plain_nil : plain_line [] = true.
Proof. reflexivity. Qed.

Lemma lstrip_snoc (l : str) (x : ascii) :
  isspace x = false -> exists y, lstrip (l ++ [x]) = y ++ [x].
Proof.
  intros Hx. induction l as [|c l IH]; cbn.
  - rewrite Hx. by exists [].
  - destruct (isspace c); [exact IH|]. by exists (c :: l).
Qed.

Lemma strip_cons_nonspace (x : ascii) (l : str) :
  isspace x = false -> exists y, strip (x :: l) = x :: y.
Proof.
  intros Hx. unfold strip, rstrip. cbn [lstrip]. rewrite Hx. cbn [rev].
  destruct (lstrip_snoc (rev l) x Hx) as [y ->]. rewrite rev_app_distr. by eexists.
Qed.

Lemma plain_of_strip_bar (l : str) : startswith (strip l) py"|" = true -> plain_line l = true.
Proof.
  intros H. destruct l as [|c l]; [reflexivity|].
  apply plain_first; intros ->.
  - destruct (strip_cons_nonspace "#" l eq_refl) as [y E]. rewrite E in H. discriminate.
  - destruct (strip_cons_nonspace "`" l eq_refl) as [y E]. rewrite E in H. discriminate.
Qed.

Lemma plain_of_quote (l : str) : startswith l py">" = true -> plain_line l = true.
Proof.
  destruct l as [|c l]; [discriminate|]. change py">" with [">"%char].
  rewrite startswith_cons. intros H. apply Ascii.eqb_eq in H. subst c.
  by apply plain_first.
Qed.

Lemma plain_of_bullet (l : str) : is_some (match_bullet l) = true -> plain_line l = true.
Proof.
  unfold match_bullet. destruct l as [|c [|d l]]; try discriminate.
  destruct (bullet_chr c) eqn:Hc; [|discriminate]. intros _.
  apply plain_first; intros ->; discriminate.
Qed.

Lemma plain_of_ordered (l : str) : is_some (match_ordered l) = true -> plain_line l = true.
Proof.
  unfold match_ordered. destruct l as [|c l]; [discriminate|]. cbn [span].
  destruct (isdecimal c) eqn:Hc; [|discriminate]. intros _.
  apply plain_first; intros ->; discriminate.
Qed.

(** *** The inner loops *)

Lemma while_lines_spec cond f rest :
  exists n, while_lines cond f rest = (map f (take n rest), n) /\
            n <= length rest /\
            Forall (fun l => cond l = true) (take n rest) /\
            (forall l, rest !! n = Some l -> cond l = false).
Proof.
  induction rest as [|l rest IH]; cbn [while_lines].
  - exists 0. repeat split; [lia | constructor | intros ? [=]].
  - destruct (cond l) eqn:Hl.
    + destruct IH as (n & -> & Hn & Hall & Hstop).
      exists (S n). cbn. repeat split; [lia | by constructor | exact Hstop].
    + exists 0. cbn. repeat split; [lia | constructor |]. by intros ? [= <-].
Qed.

Lemma parse_table_rows_spec rest :
  exists n, snd (parse_table_rows rest) = n /\ n <= length rest /\
            Forall (fun l => startswith (strip l) py"|" = true) (take n rest) /\
            fst (parse_table_rows rest)
            = filter (fun cells => is_separator_row cells = false)
                (map (fun l => _parse_table_row (strip l)) (take n rest)).
Proof.
  induction rest as [|l rest IH]; cbn [parse_table_rows].
  - exists 0. repeat split; [lia | constructor].
  - destruct (startswith (strip l) py"|") eqn:Hl; cbn [negb].
    + destruct (_parse_table_row (strip l)) as [|c0 cells] eqn:Hrow.
      { exists 0. repeat split; [lia | constructor]. }
      destruct IH as (n & Hn & Hle & Hall & Hrows).
      destruct (parse_table_rows rest) as [rows m]. cbn [fst snd] in *. subst m.
      exists (S n). cbn [take map]. rewrite Hrow.
      destruct (is_separator_row (c0 :: cells)) eqn:Hsep; cbn [fst snd].
      * repeat split; [cbn [length]; lia | by constructor |].
        rewrite filter_cons_False by (rewrite Hsep; discriminate). exact Hrows.
      * repeat split; [cbn [length]; lia | by constructor |].
        rewrite filter_cons_True by exact Hsep. by rewrite Hrows.
    + exists 0. repeat split; [lia | constructor].
Qed.

Lemma parse_table_rows_progress rest :
  fst (parse_table_rows rest) <> [] -> 1 <= snd (parse_table_rows rest).
Proof.
  destruct rest as [|l rest]; cbn [parse_table_rows]; [done|].
  destruct (negb _); [done|].
  destruct (_parse_table_row _); [done|].
  destruct (parse_table_rows rest) as [rows m].
  destruct (is_separator_row _); cbn; lia.
Qed.

(** *** One turn of the loop *)

Lemma parse_line_tail_turn lines i line blocks self :
  lines !! i = Some line -> plain_line line = true ->
  turn lines i line blocks self (parse_line_tail lines i line blocks self).
Proof.
  intros Hi Hplain. unfold parse_line_tail.
  assert (Hone : Forall (fun l => plain_line l = true) (take 1 (drop i lines))).
  { rewrite (drop_S lines line i Hi). cbn. by repeat constructor. }
  assert (Hlen : i + 1 <= length lines).
  { apply lookup_lt_Some in Hi. lia. }
  assert (Hwhile : forall cond f mk, cond line = true ->
            (forall l, cond l = true -> plain_line l = true) ->
            (forall acc, Forall (fun b => ordinary b = true) (mk acc)) ->
            turn lines i line blocks self
              (let '(acc, n) := while_lines cond f (drop i lines) in
               (i + n, blocks ++ mk acc, self))).
  { intros cond f mk Hc Hp Hmk.
    destruct (while_lines_spec cond f (drop i lines)) as (n & -> & Hn & Hall & Hstop).
    apply turn_other; try done.
    - destruct n; [|lia]. rewrite (drop_S lines line i Hi) in Hstop.
      specialize (Hstop line eq_refl). congruence.
    - rewrite length_drop in Hn. lia.
    - eapply Forall_impl; [exact Hall|]. exact Hp. }
  destruct (match_image line) as [[alt_text img_path]|].
  { unfold _create_image_block. apply turn_image. exact Hplain. }
  destruct (startswith line py">") eqn:Hq.
  { apply (Hwhile (fun l => startswith l py">") (fun l => strip (drop 1 l))
             (fun acc => [_create_quote_block (join [newline] acc)])); try done.
    - apply plain_of_quote.
    - intros acc. by repeat constructor. }
  destruct (is_some (match_bullet line)) eqn:Hb.
  { apply (Hwhile (fun l => is_some (match_bullet l)) (sub_prefix match_bullet)
             (fun acc => map _create_bullet_block acc)); try done.
    - apply plain_of_bullet.
    - intros acc. rewrite Forall_map. by apply Forall_true. }
  destruct (is_some (match_ordered line)) eqn:Ho.
  { apply (Hwhile (fun l => is_some (match_ordered l)) (sub_prefix match_ordered)
             (fun acc => map _create_ordered_block acc)); try done.
    - apply plain_of_ordered.
    - intros acc. rewrite Forall_map. by apply Forall_true. }
  destruct (match_divider (strip line)).
  { apply turn_other; try done. by repeat constructor. }
  destruct (truthy (strip line)).
  - apply turn_other; try done. by repeat constructor.
  - rewrite <- (app_nil_r blocks) at 2. apply turn_other; try done.
Qed.

Lemma heading_not_fence line : is_heading_line line = true -> is_fence_line line = false.
Proof.
  destruct line as [|c l]; [discriminate|]. unfold is_heading_line, is_fence_line.
  change py"#" with ["#"%char]. rewrite startswith_cons. intros H.
  apply Ascii.eqb_eq in H. by subst c.
Qed.

Lemma parse_line_turn lines i line blocks self :
  lines !! i = Some line ->
  turn lines i line blocks self (parse_line lines i line blocks self).
Proof.
  intros Hi. unfold parse_line.
  destruct (startswith line py"#") eqn:Hh.
  { by apply turn_heading. }
  destruct (startswith line py"```") eqn:Hf.
  { destruct (while_lines_spec (fun l => negb (startswith l py"```")) id
               (drop (i + 1) lines)) as (n & -> & Hn & Hall & Hstop).
    rewrite map_id. rewrite length_drop in Hn. apply lookup_lt_Some in Hi as Hlt.
    apply turn_code; try done.
    - lia.
    - eapply Forall_impl; [exact Hall|]. cbn. intros l Hl.
      by apply negb_true_iff in Hl.
    - intros l Hl. rewrite lookup_drop in Hstop. specialize (Hstop l Hl).
      by apply negb_false_iff in Hstop. }
  assert (Hplain : plain_line line = true).
  { unfold plain_line, is_heading_line, is_fence_line. by rewrite Hh, Hf. }
  destruct (startswith (strip line) py"|" && contains (drop 1 line) py"|");
    [|by apply parse_line_tail_turn].
  unfold _parse_table.
  destruct (parse_table_rows_spec (drop i lines)) as (n & Hn & Hle & Hall & Hrows).
  pose proof (parse_table_rows_progress (drop i lines)) as Hprog.
  destruct (parse_table_rows (drop i lines)) as [[|row rows] c] eqn:Et;
    [by apply parse_line_tail_turn|].
  cbn [fst snd] in *. subst c. unfold _create_table_block.
  apply turn_table; try done.
  - by apply Hprog.
  - rewrite length_drop in Hle. apply lookup_lt_Some in Hi. lia.
  - eapply Forall_impl; [exact Hall|]. apply plain_of_strip_bar.
Qed.

(** *** The loop *)

Lemma turn_progress lines i line blocks self r :
  turn lines i line blocks self r -> i < r.1.1.
Proof. destruct 1; cbn; lia. Qed.

Lemma parse_loop_run fuel lines i blocks self r :
  parse_loop fuel lines i blocks self = Some r -> loop_run lines i blocks self r.
Proof.
  revert i blocks self. induction fuel as [|fuel IH]; intros i blocks self; cbn.
  - destruct (lines !! i) eqn:Hi; [discriminate|]. intros [= <-]. by constructor.
  - destruct (lines !! i) as [line|] eqn:Hi.
    + destruct (parse_line lines i line blocks self) as [[i' blocks'] self'] eqn:E.
      intros H. eapply loop_turn; eauto.
    + intros [= <-]. by constructor.
Qed.

Lemma parse_loop_total fuel lines i blocks self :
  length lines <= fuel + i -> is_Some (parse_loop fuel lines i blocks self).
Proof.
  revert i blocks self. induction fuel as [|fuel IH]; intros i blocks self Hf; cbn.
  - rewrite (lookup_ge_None_2 lines i) by lia. by eexists.
  - destruct (lines !! i) as [line|] eqn:Hi; [|by eexists].
    pose proof (turn_progress _ _ _ _ _ _ (parse_line_turn lines i line blocks self Hi)) as Hp.
    destruct (parse_line lines i line blocks self) as [[i' blocks'] self'].
    cbn in Hp. apply IH. lia.
Qed.

Lemma parse_total content self :
  exists blocks self', parse content self = Some (blocks, self') /\
    loop_run (split_chr newline content) 0 [] self (blocks, self').
Proof.
  unfold parse.
  destruct (parse_loop_total (length (split_chr newline content))
              (split_chr newline content) 0 [] self) as [[blocks self'] E]; [lia|].
  exists blocks, self'. split; [exact E|]. by apply parse_loop_run in E.
Qed.

(** *** The pending lists *)

Lemma lookup_snoc_inv {A} (l : list A) (x y : A) (i : nat) :
  (l ++ [x]) !! i = Some y -> l !! i = Some y \/ (i = length l /\ y = x).
Proof.
  intros H. apply lookup_app_Some in H as [H|[Hi H]]; [by left|].
  right. destruct (i - length l) eqn:E; cbn in H; [|done].
  injection H as <-. split; [lia | done].
Qed.

Lemma pending_ok_app blocks self new :
  pending_ok blocks self -> Forall (fun b => is_placeholder b = false) new ->
  pending_ok (blocks ++ new) self.
Proof.
  intros (H1 & H2 & H3 & H4) Hnew.
  assert (Hin : forall idx b, (blocks ++ new) !! idx = Some b -> is_placeholder b = true ->
                              blocks !! idx = Some b).
  { intros idx b Hl Hb. apply lookup_app_Some in Hl as [Hl|[_ Hl]]; [done|].
    apply list_elem_of_lookup_2 in Hl. rewrite Forall_forall in Hnew.
    rewrite (Hnew b Hl) in Hb. discriminate. }
  repeat split.
  - intros idx p u Hp. apply lookup_app_l_Some. eauto.
  - intros idx d Hd. apply lookup_app_l_Some. eauto.
  - intros idx p u Hl. apply (H3 idx p u). by apply Hin.
  - intros idx d r c Hl. apply (H4 idx d r c). by apply Hin.
Qed.

Lemma ordinary_not_placeholder new :
  Forall (fun b => ordinary b = true) new -> Forall (fun b => is_placeholder b = false) new.
Proof. intros H. eapply Forall_impl; [exact H|]. by intros []. Qed.

Lemma turn_pending_ok lines i line blocks self i' blocks' self' :
  turn lines i line blocks self (i', blocks', self') ->
  pending_ok blocks self -> pending_ok blocks' self'.
Proof.
  intros Ht Hok. inversion Ht; subst; clear Ht.
  - apply pending_ok_app; [done | by repeat constructor].
  - apply pending_ok_app; [done | by repeat constructor].
  - destruct Hok as (Oa & Ob & Oc & Od). repeat split; cbn [pending_images pending_tables].
    + intros idx p u Hp. apply lookup_app_l_Some. eauto.
    + intros idx d0 Hd. apply elem_of_app in Hd as [Hd|Hd].
      * apply lookup_app_l_Some. eauto.
      * apply list_elem_of_singleton in Hd. injection Hd as -> ->.
        by rewrite lookup_app_r, Nat.sub_diag by lia.
    + intros idx p u Hl. apply lookup_snoc_inv in Hl as [Hl|[_ [=]]]. eauto.
    + intros idx d0 r c0 Hl. apply elem_of_app.
      apply lookup_snoc_inv in Hl as [Hl|[-> [= -> _ _]]]; [left; eauto|].
      right. by apply list_elem_of_singleton.
  - destruct Hok as (Oa & Ob & Oc & Od). repeat split; cbn [pending_images pending_tables].
    + intros idx p0 u0 Hp. apply elem_of_app in Hp as [Hp|Hp].
      * apply lookup_app_l_Some. eauto.
      * apply list_elem_of_singleton in Hp. injection Hp as -> -> ->.
        by rewrite lookup_app_r, Nat.sub_diag by lia.
    + intros idx d Hd. apply lookup_app_l_Some. eauto.
    + intros idx p0 u0 Hl. apply elem_of_app.
      apply lookup_snoc_inv in Hl as [Hl|[-> [= -> ->]]]; [left; eauto|].
      right. by apply list_elem_of_singleton.
    + intros idx d r c Hl. apply lookup_snoc_inv in Hl as [Hl|[_ [=]]]. eauto.
  - apply pending_ok_app; [done | by apply ordinary_not_placeholder].
Qed.

Lemma loop_run_pending_ok lines i blocks self r :
  loop_run lines i blocks self r -> pending_ok blocks self -> pending_ok r.1 r.2.
Proof.
  induction 1 as [i blocks self Hi | i line blocks self i' blocks' self' r Hi E _ IH];
    intros Hok; [done|].
  apply IH. eapply turn_pending_ok; [|exact Hok].
  rewrite <- E. by apply parse_line_turn.
Qed.

Lemma pending_ok_init : pending_ok [] init.
Proof.
  repeat split; cbn; intros *; first [by intros ?%elem_of_nil | by rewrite lookup_nil].
Qed.

Lemma parse_pending_ok content :
  exists blocks self, parse content init = Some (blocks, self) /\ pending_ok blocks self.
Proof.
  destruct (parse_total content init) as (blocks & self & E & Hrun).
  exists blocks, self. split; [exact E|].
  apply (loop_run_pending_ok _ _ _ _ _ Hrun pending_ok_init).
Qed.

(** *** Tables: [strip] is idempotent *)

Lemma lstrip_lstrip s : lstrip (lstrip s) = lstrip s.
Proof.
  induction s as [|c s IH]; [done|]. cbn. destruct (isspace c) eqn:E; [done|].
  cbn. by rewrite E.
Qed.

Lemma lstrip_length s : length (lstrip s) <= length s.
Proof.
  induction s as [|c s IH]; [done|]. cbn. destruct (isspace c); cbn; lia.
Qed.

Lemma lstrip_head s : lstrip s = [] \/ exists c y, lstrip s = c :: y /\ isspace c = false.
Proof.
  induction s as [|c s IH]; [by left|]. cbn. destruct (isspace c) eqn:E; [done|].
  right. by exists c, s.
Qed.

Lemma rstrip_cons_nonspace c s : isspace c = false -> exists y, rstrip (c :: s) = c :: y.
Proof.
  intros Hc. unfold rstrip. cbn [rev].
  destruct (lstrip_snoc (rev s) c Hc) as [y ->]. rewrite rev_app_distr. by eexists.
Qed.

Lemma strip_trimmed s :
  lstrip (strip s) = strip s /\ lstrip (rev (strip s)) = rev (strip s).
Proof.
  unfold strip. split.
  - destruct (lstrip_head s) as [->|(c & y & -> & Hc)]; [done|].
    destruct (rstrip_cons_nonspace c y Hc) as [y' ->]. cbn. by rewrite Hc.
  - unfold rstrip. by rewrite rev_involutive, lstrip_lstrip.
Qed.

Lemma strip_strip s : strip (strip s) = strip s.
Proof.
  destruct (strip_trimmed s) as [H1 H2].
  unfold strip at 1. rewrite H1. unfold rstrip. by rewrite H2, rev_involutive.
Qed.

(** *** The separator test on stripped cells *)

Lemma span_app cls s :
  s = (span cls s).1 ++ (span cls s).2 /\ forallb cls (span cls s).1 = true.
Proof.
  induction s as [|c s [IH1 IH2]]; [done|]. cbn. destruct (cls c) eqn:E; [|done].
  destruct (span cls s) as [a b]. cbn in *. split; [by f_equal|]. by rewrite E.
Qed.

Lemma span_all cls s : forallb cls s = true -> span cls s = (s, []).
Proof.
  induction s as [|c s IH]; [done|]. cbn. intros [Hc Hs]%andb_true_iff.
  by rewrite Hc, IH.
Qed.

Lemma match_dash_colon_trimmed s :
  lstrip (rev s) = rev s -> match_dash_colon s = solely_dash_colon s.
Proof.
  intros Htrim. unfold match_dash_colon, solely_dash_colon.
  destruct (forallb dash_colon_chr s) eqn:Hall.
  - by rewrite (span_all _ _ Hall).
  - rewrite andb_false_r.
    destruct (span_app dash_colon_chr s) as [Hs Hrun].
    destruct (span dash_colon_chr s) as [run rest]. cbn [fst snd] in *.
    destruct rest as [|c [|c' rest]]; cbn [at_end].
    + rewrite app_nil_r in Hs. subst run. congruence.
    + destruct (Ascii.eqb_spec c newline) as [->|]; [|by rewrite andb_false_r].
      exfalso. subst s. rewrite rev_app_distr in Htrim. cbn [rev app lstrip] in Htrim.
      change (isspace newline) with true in Htrim. cbn iota in Htrim.
      apply (f_equal length) in Htrim.
      pose proof (lstrip_length (rev run)). cbn [length] in Htrim. lia.
    + by rewrite andb_false_r.
Qed.

Lemma separator_row_stripped (cells : list str) :
  is_separator_row (map strip cells) = alignment_row (map strip cells).
Proof.
  unfold is_separator_row, alignment_row.
  induction cells as [|c cells IH]; [done|]. cbn [map forallb]. rewrite IH. f_equal.
  rewrite strip_strip. apply match_dash_colon_trimmed. apply strip_trimmed.
Qed.

Lemma separator_row_parsed (line : str) :
  is_separator_row (_parse_table_row line) = alignment_row (_parse_table_row line).
Proof. unfold _parse_table_row. apply separator_row_stripped. Qed.

(** *** The column count *)

Lemma max_row_len_spec (d : list (list str)) :
  (forall row, row ∈ d -> length row <= max_row_len d) /\
  (d <> [] -> exists row, row ∈ d /\ length row = max_row_len d).
Proof.
  induction d as [|r d [IH1 IH2]]; [split; [by intros ? ?%elem_of_nil | done]|].
  unfold max_row_len in *. cbn [foldr]. split.
  - intros row [->|Hin]%elem_of_cons; [lia|]. specialize (IH1 row Hin). lia.
  - intros _. destruct (Nat.max_spec (length r) (foldr (fun row m => length row `max` m) 0 d))
      as [[Hlt ->]|[Hle ->]].
    + destruct d as [|r' d']; [cbn in Hlt; lia|].
      destruct IH2 as (row & Hin & E); [done|]. exists row. split; [by right | done].
    + exists r. split; [by left | done].
Qed.

Lemma filter_ext_in {A} (P Q : A -> Prop) `{!forall x, Decision (P x)}
    `{!forall x, Decision (Q x)} (l : list A) :
  (forall x, x ∈ l -> P x <-> Q x) -> filter P l = filter Q l.
Proof.
  induction l as [|x l IH]; intros Hext; [done|].
  rewrite !filter_cons. rewrite IH by (intros y Hy; apply Hext; by right).
  destruct (decide (P x)) as [HP|HP], (decide (Q x)) as [HQ|HQ]; try done.
  - exfalso. apply HQ, Hext; [by left | done].
  - exfalso. apply HP, Hext; [by left | done].
Qed.

(** *** Every table placeholder comes from a region *)

Lemma turn_table_ok lines i line blocks self i' blocks' self' :
  turn lines i line blocks self (i', blocks', self') ->
  Forall (table_ok lines) blocks -> Forall (table_ok lines) blocks'.
Proof.
  intros Ht Hok. inversion Ht; subst; clear Ht; apply Forall_app; split; try done.
  - by repeat constructor.
  - by repeat constructor.
  - repeat constructor; try done.
    unfold _parse_table in *.
    destruct (parse_table_rows_spec (drop i lines)) as (n & Hn & Hle & Hall & Hrows).
    exists i, n. split; [done|].
    match goal with H : parse_table_rows _ = _ |- _ => rewrite H in Hrows end.
    cbn [fst] in Hrows. rewrite Hrows. apply filter_ext_in. intros row Hrow.
    apply list_elem_of_fmap in Hrow as (l & -> & _).
    by rewrite separator_row_parsed.
  - by repeat constructor.
  - eapply Forall_impl; [eassumption|]. by intros [].
Qed.

Lemma loop_run_table_ok lines i blocks self r :
  loop_run lines i blocks self r -> Forall (table_ok lines) blocks ->
  Forall (table_ok lines) r.1.
Proof.
  induction 1 as [i blocks self Hi | i line blocks self i' blocks' self' r Hi E _ IH];
    intros Hok; [done|].
  apply IH. eapply turn_table_ok; [|exact Hok].
  rewrite <- E. by apply parse_line_turn.
Qed.

(** In every table placeholder that [parse] emits, no row of the grid is an
    alignment row (all cells made of dashes and colons only); the grid is
    the rows of a run of table lines with the alignment rows left out; and
    the column count is the greatest number of cells of a row of the
    grid. *)
Lemma emitted_grids content :
  exists blocks self, parse content init = Some (blocks, self) /\
    forall d r c, TablePlaceholder d r c ∈ blocks ->
      Forall (fun row => alignment_row row = false) d /\
      (exists i n,
         let region := take n (drop i (split_chr newline content)) in
         Forall (fun l => startswith (strip l) py"|" = true) region /\
         d = filter (fun row => alignment_row row = false)
               (map (fun l => _parse_table_row (strip l)) region)) /\
      r = length d /\
      (forall row, row ∈ d -> length row <= c) /\
      (exists row, row ∈ d /\ length row = c).
Proof.
  destruct (parse_total content init) as (blocks & self & E & Hrun).
  exists blocks, self. split; [exact E|]. intros d r c Hin.
  pose proof (loop_run_table_ok _ _ _ _ _ Hrun (Forall_nil_2 _)) as Hok.
  cbn in Hok. rewrite Forall_forall in Hok. specialize (Hok _ Hin).
  destruct Hok as (Hne & -> & -> & i & n & Hreg & Hd).
  destruct (max_row_len_spec d) as [Hmax1 Hmax2].
  repeat split; try done.
  - rewrite Hd. apply Forall_forall. by intros row [? _]%list_elem_of_filter.
  - by exists i, n.
  - by apply Hmax2.
Qed.

(** *** Headings *)

Lemma outside_fences_plain (a b : list str) :
  Forall (fun l => plain_line l = true) a ->
  filter (fun l => is_heading_line l = true) (outside_fences false (a ++ b))
  = filter (fun l => is_heading_line l = true) (outside_fences false b).
Proof.
  induction 1 as [|l a Hl _ IH]; [done|]. cbn [app outside_fences].
  unfold plain_line in Hl. apply andb_true_iff in Hl as [Hh Hf].
  apply negb_true_iff in Hh, Hf. rewrite Hf.
  rewrite filter_cons_False by (rewrite Hh; discriminate). exact IH.
Qed.

Lemma outside_fences_code (a b : list str) :
  Forall (fun l => is_fence_line l = false) a ->
  outside_fences true (a ++ b) = outside_fences true b.
Proof.
  induction 1 as [|l a Hl _ IH]; [done|]. cbn [app outside_fences]. by rewrite Hl.
Qed.

Lemma heading_levels_app a b : heading_levels (a ++ b) = heading_levels a ++ heading_levels b.
Proof. apply omap_app. Qed.

Lemma heading_levels_ordinary new :
  Forall (fun b => ordinary b = true) new -> heading_levels new = [].
Proof.
  induction 1 as [|b new Hb _ IH]; [done|]. unfold heading_levels in *. cbn.
  rewrite IH. by destruct b.
Qed.

Lemma drop_split {A} (l : list A) (i c : nat) :
  drop i l = take c (drop i l) ++ drop (i + c) l.
Proof. by rewrite <- drop_drop, take_drop. Qed.

Lemma turn_heading_levels lines i line blocks self i' blocks' self' :
  lines !! i = Some line ->
  turn lines i line blocks self (i', blocks', self') ->
  exists new, blocks' = blocks ++ new /\
    expected_levels (drop i lines) = heading_levels new ++ expected_levels (drop i' lines).
Proof.
  intros Hi Ht.
  inversion Ht as [Hh | n Hh Hf Hlen Hall Hstop | d c Hp Htab Hd Hc Hlen Hall | p u Hp
                   | c new Hp Hc Hlen Hall Hord];
    subst; clear Ht; eexists; (split; [reflexivity|]).
  - rewrite (drop_S lines line i Hi). unfold expected_levels. cbn [outside_fences].
    rewrite (heading_not_fence line) by done.
    rewrite filter_cons_True by done. cbn. by rewrite Nat.add_1_r.
  - rewrite (drop_S lines line i Hi). unfold expected_levels. cbn [outside_fences].
    rewrite Hf.
    cbn [negb heading_levels omap heading_level _create_code_block app].
    rewrite <- Nat.add_1_r. rewrite (drop_split lines (i + 1) n).
    rewrite outside_fences_code by done.
    destruct (lines !! (i + 1 + n)) as [l|] eqn:El.
    + rewrite (drop_S lines l _ El). cbn [outside_fences].
      rewrite (Hstop l eq_refl).
      cbn [negb]. replace (i + 1 + n + 1) with (S (i + 1 + n)) by lia. reflexivity.
    + apply lookup_ge_None in El.
      rewrite (drop_ge lines (i + 1 + n)), (drop_ge lines (i + 1 + n + 1)) by lia.
      reflexivity.
  - unfold expected_levels. rewrite (drop_split lines i c).
    by rewrite outside_fences_plain.
  - unfold expected_levels. rewrite (drop_split lines i 1).
    rewrite outside_fences_plain; [done|].
    rewrite (drop_S lines line i Hi). cbn. by repeat constructor.
  - unfold expected_levels. rewrite (drop_split lines i c).
    rewrite outside_fences_plain by done. by rewrite heading_levels_ordinary.
Qed.

Lemma loop_run_heading_levels lines i blocks self r :
  loop_run lines i blocks self r ->
  heading_levels r.1 = heading_levels blocks ++ expected_levels (drop i lines).
Proof.
  induction 1 as [i blocks self Hi | i line blocks self i' blocks' self' r Hi E _ IH].
  - apply lookup_ge_None in Hi. rewrite drop_ge by lia. cbn. by rewrite app_nil_r.
  - pose proof (parse_line_turn lines i line blocks self Hi) as Ht. rewrite E in Ht.
    destruct (turn_heading_levels _ _ _ _ _ _ _ _ Hi Ht) as (new & -> & Hexp).
    by rewrite IH, Hexp, heading_levels_app, app_assoc.
Qed.

(** C2, as amended.  The heading blocks that [parse] emits are, in order,
    one for each line that starts with the marker and lies outside the
    fenced code blocks; the level of each is the number of leading
    markers of its line, capped at 9. *)
Theorem heading_blocks_outside_fences content :
  exists blocks self, parse content init = Some (blocks, self) /\
    heading_levels blocks = expected_levels (split_chr newline content).
Proof.
  destruct (parse_total content init) as (blocks & self & E & Hrun).
  exists blocks, self. split; [exact E|].
  apply (loop_run_heading_levels _ _ _ _ _ Hrun).
Qed.

(** *** Fenced code blocks *)

Lemma fence_count_app a b : fence_count (a ++ b) = fence_count a + fence_count b.
Proof. unfold fence_count. by rewrite filter_app, length_app. Qed.

Lemma fence_count_none a :
  Forall (fun l => is_fence_line l = false) a -> fence_count a = 0.
Proof.
  induction 1 as [|l a Hl _ IH]; [done|]. unfold fence_count in *.
  rewrite filter_cons_False by (rewrite Hl; discriminate). exact IH.
Qed.

Lemma plain_not_fence a :
  Forall (fun l => plain_line l = true) a -> Forall (fun l => is_fence_line l = false) a.
Proof.
  intros H. eapply Forall_impl; [exact H|]. cbn. intros l Hl.
  unfold plain_line in Hl. apply andb_true_iff in Hl as [_ Hf]. by apply negb_true_iff.
Qed.

Lemma take_split {A} (l : list A) (c m : nat) :
  c <= m -> take m l = take c l ++ take (m - c) (drop c l).
Proof. intros H. rewrite take_take_drop. f_equal. lia. Qed.

Lemma fence_count_skip lines k c i :
  k + c <= i -> Forall (fun l => is_fence_line l = false) (take c (drop k lines)) ->
  fence_count (take (i - k) (drop k lines))
  = fence_count (take (i - (k + c)) (drop (k + c) lines)).
Proof.
  intros Hle Hall. rewrite (take_split (drop k lines) c (i - k)) by lia.
  rewrite fence_count_app, (fence_count_none _ Hall), drop_drop. cbn. f_equal. f_equal. lia.
Qed.

Lemma no_overshoot lines k c i fence :
  lines !! i = Some fence -> is_fence_line fence = true -> k <= i ->
  Forall (fun l => is_fence_line l = false) (take c (drop k lines)) -> k + c <= i.
Proof.
  intros Hi Hf Hk Hall. destruct (decide (k + c <= i)) as [|Hn]; [done|]. exfalso.
  rewrite Forall_lookup in Hall. specialize (Hall (i - k) fence).
  rewrite lookup_take_lt, lookup_drop in Hall by lia.
  replace (k + (i - k)) with i in Hall by lia. specialize (Hall Hi). congruence.
Qed.

Section Unclosed.
Variable lines : list str.
Variable i : nat.
Variable fence : str.
Hypothesis Hi : lines !! i = Some fence.
Hypothesis Hfence : is_fence_line fence = true.
Hypothesis Hlast : Forall (fun l => is_fence_line l = false) (drop (S i) lines).

Lemma turn_before k line blocks self k' blocks' self' :
  lines !! k = Some line -> k < i ->
  Nat.even (fence_count (take (i - k) (drop k lines))) = true ->
  turn lines k line blocks self (k', blocks', self') ->
  k' <= i /\ Nat.even (fence_count (take (i - k') (drop k' lines))) = true /\
  exists new, blocks' = blocks ++ new.
Proof.
  intros Hk Hlt Hev Ht.
  assert (Hplain : forall c, Forall (fun l => plain_line l = true) (take c (drop k lines)) ->
            k + c <= i /\
            Nat.even (fence_count (take (i - (k + c)) (drop (k + c) lines))) = true).
  { intros c Hall. apply plain_not_fence in Hall.
    assert (k + c <= i) by (eapply no_overshoot; eauto; lia).
    split; [done|]. by rewrite <- (fence_count_skip lines k c i). }
  assert (Hone : plain_line line = true ->
            Forall (fun l => plain_line l = true) (take 1 (drop k lines))).
  { intros Hp. rewrite (drop_S lines line k Hk). cbn. by repeat constructor. }
  inversion Ht as [Hh | n Hh Hf Hlen Hall Hstop | d c Hp Htab Hd Hc Hlen Hall | p u Hp
                   | c new Hp Hc Hlen Hall Hord]; subst; clear Ht.
  - assert (Hnf : Forall (fun l => is_fence_line l = false) (take 1 (drop k lines))).
    { rewrite (drop_S lines line k Hk). cbn. repeat constructor. by apply heading_not_fence. }
    split; [lia|]. split; [|by eexists].
    by rewrite <- (fence_count_skip lines k 1 i) by (done || lia).
  - (* a fenced block that is closed before line [i] *)
    assert (Hsplit : take (i - k) (drop k lines)
                     = line :: take (i - (k + 1)) (drop (k + 1) lines)).
    { rewrite (drop_S lines line k Hk). replace (i - k) with (S (i - (k + 1))) by lia.
      cbn. by rewrite Nat.add_1_r. }
    rewrite Hsplit in Hev. change (line :: ?t) with ([line] ++ t) in Hev.
    rewrite fence_count_app in Hev.
    assert (H1 : fence_count [line] = 1).
    { unfold fence_count. by rewrite filter_cons_True. }
    rewrite H1 in Hev.
    destruct (decide (k + 1 + n < i)) as [Hin|Hout].
    + destruct (lookup_lt_is_Some_2 lines (k + 1 + n)) as [l El].
      { apply lookup_lt_Some in Hi. lia. }
      specialize (Hstop l El).
      assert (Hnf : fence_count (take (i - (k + 1)) (drop (k + 1) lines))
                    = fence_count (take (i - (k + 1 + n)) (drop (k + 1 + n) lines))).
      { apply fence_count_skip; [lia | done]. }
      rewrite Hnf in Hev.
      assert (Hsplit2 : take (i - (k + 1 + n)) (drop (k + 1 + n) lines)
                        = l :: take (i - (k + 1 + n + 1)) (drop (k + 1 + n + 1) lines)).
      { rewrite (drop_S lines l _ El).
        replace (i - (k + 1 + n)) with (S (i - (k + 1 + n + 1))) by lia.
        cbn. by rewrite Nat.add_1_r. }
      rewrite Hsplit2 in Hev. change (l :: ?t) with ([l] ++ t) in Hev.
      rewrite fence_count_app in Hev.
      assert (H2 : fence_count [l] = 1).
      { unfold fence_count. by rewrite filter_cons_True. }
      rewrite H2 in Hev. split; [lia|]. split; [|by eexists]. exact Hev.
    + exfalso.
      assert (Hz : fence_count (take (i - (k + 1)) (drop (k + 1) lines)) = 0).
      { apply fence_count_none.
        replace (take (i - (k + 1)) (drop (k + 1) lines))
          with (take (i - (k + 1)) (take n (drop (k + 1) lines)))
          by (rewrite take_take; f_equal; lia).
        by apply Forall_take. }
      rewrite Hz in Hev. discriminate.
  - destruct (Hplain c Hall) as [? ?]. split; [done|]. split; [done | by eexists].
  - destruct (Hplain 1 (Hone Hp)) as [? ?]. split; [done|]. split; [done | by eexists].
  - destruct (Hplain c Hall) as [? ?]. split; [done|]. split; [done | by eexists].
Qed.

Lemma turn_at blocks self k' blocks' self' :
  turn lines i fence blocks self (k', blocks', self') ->
  length lines < k' /\ self' = self /\
  blocks' = blocks ++ [_create_code_block (join [newline] (drop (S i) lines))
                         (py_or (strip (drop 3 fence)) py"plain_text")].
Proof.
  intros Ht.
  inversion Ht as [Hh | n Hh Hf Hlen Hall Hstop | d c Hp Htab Hd Hc Hlen Hall | p u Hp
                   | c new Hp Hc Hlen Hall Hord]; subst; clear Ht.
  - apply heading_not_fence in Hh. congruence.
  - assert (Hn : i + 1 + n = length lines).
    { destruct (lines !! (i + 1 + n)) as [l|] eqn:El.
      - exfalso. specialize (Hstop l eq_refl).
        rewrite Forall_lookup in Hlast. specialize (Hlast n l).
        rewrite lookup_drop in Hlast. replace (S i + n) with (i + 1 + n) in Hlast by lia.
        specialize (Hlast El). congruence.
      - apply lookup_ge_None in El. lia. }
    split; [lia|]. split; [done|]. do 2 f_equal.
    rewrite Nat.add_1_r. rewrite take_ge; [done|]. rewrite length_drop. lia.
  - unfold plain_line in Hp. rewrite Hfence, andb_false_r in Hp. discriminate.
  - unfold plain_line in Hp. rewrite Hfence, andb_false_r in Hp. discriminate.
  - unfold plain_line in Hp. rewrite Hfence, andb_false_r in Hp. discriminate.
Qed.

Lemma loop_run_unclosed k blocks self r :
  loop_run lines k blocks self r -> k <= i ->
  Nat.even (fence_count (take (i - k) (drop k lines))) = true ->
  exists before,
    r.1 = before ++ [_create_code_block (join [newline] (drop (S i) lines))
                       (py_or (strip (drop 3 fence)) py"plain_text")].
Proof.
  induction 1 as [k blocks self Hk | k line blocks self k' blocks' self' r Hk E Hrun IH];
    intros Hle Hev.
  - exfalso. apply lookup_ge_None in Hk. apply lookup_lt_Some in Hi. lia.
  - pose proof (parse_line_turn lines k line blocks self Hk) as Ht. rewrite E in Ht.
    destruct (decide (k = i)) as [->|Hne].
    + rewrite Hi in Hk. injection Hk as <-.
      destruct (turn_at _ _ _ _ _ Ht) as (Hk' & -> & ->).
      inversion Hrun as [? ? ? Hnone | ? ? ? ? ? ? ? ? Hsome]; subst.
      * by eexists.
      * exfalso. apply lookup_lt_Some in Hsome. lia.
    + destruct (turn_before _ _ _ _ _ _ _ Hk ltac:(lia) Hev Ht) as (Hk' & Hev' & new & ->).
      by apply IH.
Qed.

End Unclosed.

Lemma split_chr_nonempty (c : ascii) (s : str) : split_chr c s <> [].
Proof.
  induction s as [|a s IH]; cbn; [discriminate|].
  destruct (Ascii.eqb a c); [discriminate|]. by destruct (split_chr c s).
Qed.

(** The lines of a text, joined again, are the text. *)
Lemma join_split_chr (c : ascii) (s : str) : join [c] (split_chr c s) = s.
Proof.
  induction s as [|a s IH]; [reflexivity|]. cbn [split_chr].
  pose proof (split_chr_nonempty c s) as Hne.
  destruct (Ascii.eqb_spec a c) as [->|Hac].
  - destruct (split_chr c s) as [|w ws]; [congruence|]. cbn [join app] in *. by rewrite IH.
  - destruct (split_chr c s) as [|w ws]; [congruence|].
    destruct ws; cbn [join app] in *; by rewrite <- IH.
Qed.

(** C3.  When line [i] starts with the fence, an even number of fence
    lines comes before it (so that it opens a block) and no line after it
    starts with the fence, the last block that [parse] emits is a code
    block whose content is all the lines after line [i], joined by
    newlines as they were; its language is the one of the tag, and the
    code of plain text when the tag is empty. *)
Theorem unclosed_fence_consumes_rest content i fence :
  let lines := split_chr newline content in
  lines !! i = Some fence -> is_fence_line fence = true ->
  Nat.even (fence_count (take i lines)) = true ->
  Forall (fun l => is_fence_line l = false) (drop (S i) lines) ->
  exists before self language,
    parse content init
    = Some (before ++ [Code (join [newline] (drop (S i) lines)) language], self) /\
    language = dict_get language_map
                 (lower (py_or (strip (drop 3 fence)) py"plain_text")) 47%Z /\
    (strip (drop 3 fence) = [] -> language = 47%Z).
Proof.
  intros lines Hi Hf Hev Hlast.
  destruct (parse_total content init) as (blocks & self & E & Hrun). fold lines in Hrun.
  destruct (loop_run_unclosed lines i fence Hi Hf Hlast 0 [] init _ Hrun) as [before Hb].
  - lia.
  - by rewrite Nat.sub_0_r.
  - cbn in Hb. subst blocks. exists before, self. eexists. split; [exact E|].
    split; [reflexivity|]. by intros ->.
Qed.

(** *** Concrete inputs *)

(** C2, as stated, fails: the line inside the fence starts with the marker,
    yet [parse] emits a single code block and no heading block. *)
Lemma heading_line_inside_fence :
  ~ (forall content, exists blocks self,
       parse content init = Some (blocks, self) /\
       heading_levels blocks
       = map heading_depth
           (filter (fun l => is_heading_line l = true) (split_chr newline content))).
Proof.
  intros H. destruct (H fenced_marker_text) as (blocks & self & E & Hl).
  vm_compute in E. injection E as <- <-. vm_compute in Hl. discriminate.
Qed.

Example fenced_marker_parse :
  parse fenced_marker_text init = Some ([Code py"# not a heading" 47%Z], init).
Proof. vm_compute. reflexivity. Qed.

Lemma unclosed_fence_witness :
  (split_chr newline unclosed_text !! 1 = Some py"```python" /\
   is_fence_line py"```python" = true /\
   Nat.even (fence_count (take 1 (split_chr newline unclosed_text))) = true /\
   Forall (fun l => is_fence_line l = false) (drop 2 (split_chr newline unclosed_text))) /\
  exists before self language,
    parse unclosed_text init
    = Some (before ++ [Code (join [newline] (drop 2 (split_chr newline unclosed_text)))
                         language], self) /\
    language = dict_get language_map
                 (lower (py_or (strip (drop 3 py"```python")) py"plain_text")) 47%Z /\
    (strip (drop 3 py"```python") = [] -> language = 47%Z).
Proof.
  assert (H1 : split_chr newline unclosed_text !! 1 = Some py"```python")
    by (vm_compute; reflexivity).
  assert (H2 : is_fence_line py"```python" = true) by (vm_compute; reflexivity).
  assert (H3 : Nat.even (fence_count (take 1 (split_chr newline unclosed_text))) = true)
    by (vm_compute; reflexivity).
  assert (H4 : Forall (fun l => is_fence_line l = false)
                 (drop 2 (split_chr newline unclosed_text))).
  { vm_compute. repeat constructor. }
  split; [repeat split; assumption|].
  exact (unclosed_fence_consumes_rest unclosed_text 1 py"```python" H1 H2 H3 H4).
Defined.

Example unclosed_fence_parse :
  parse unclosed_text init
  = Some ([Text [plain_run py"intro"];
           Code (py"x = 1" ++ [newline] ++ py"# still code") 49%Z], init).
Proof. vm_compute. reflexivity. Qed.

End ParserFacts.

(** ** The document client *)

Module ClientFacts.
Import Parser Http DocWriter EffFacts Samples.

(** *** [append_blocks] *)

Section AppendBlocks.
Variable server : Server.
Variables document_id block_id : str.

Local Abbreviation post := (PostChildren document_id block_id).

Lemma sent_nil w : sent w [] = w.
Proof. destruct w. unfold sent. cbn. by rewrite app_nil_r. Qed.

Lemma sent_sent w a b : sent (sent w a) b = sent w (a ++ b).
Proof. unfold sent. cbn. by rewrite app_assoc. Qed.

Lemma send_json_code w r code :
  api_code (server (requests w) r) = Some code ->
  exists items, send_json server r w = (Returned (code, items), sent w [r]).
Proof.
  unfold api_code, send_json, send, mbind, M_bind, mret, M_ret, sent.
  destruct (status_ok _); [|discriminate].
  destruct (json _) as [[c items]|]; [|discriminate].
  cbn. intros [= ->]. by exists items.
Qed.

Lemma append_batches_spec blocks starts w :
  let cs := map (fun i => slice blocks i (i + batch_size)) starts in
  (forall j, j < length cs ->
     (forall i, i < j -> api_code <$> reply server document_id block_id w cs i = Some (Some 0%Z)) ->
     (exists c, api_code <$> reply server document_id block_id w cs j = Some (Some c)
                /\ c <> 0%Z) ->
     append_batches server document_id block_id blocks starts w
     = (Returned false, sent w (map post (take (S j) cs)))) /\
  ((forall i, i < length cs ->
      api_code <$> reply server document_id block_id w cs i = Some (Some 0%Z)) ->
     append_batches server document_id block_id blocks starts w
     = (Returned true, sent w (map post cs))).
Proof.
  revert w. induction starts as [|s starts IH]; intros w cs.
  - split.
    + intros j Hj. cbn in Hj. lia.
    + intros _. cbn. by rewrite sent_nil.
  - subst cs. cbn [map].
    set (c0 := slice blocks s (s + batch_size)).
    set (cs := map (fun i => slice blocks i (i + batch_size)) starts).
    assert (Hshift : forall i, reply server document_id block_id (sent w [post c0]) cs i
                      = reply server document_id block_id w (c0 :: cs) (S i)).
    { intros i. unfold reply. cbn. destruct (cs !! i); [|done]. cbn.
      by rewrite <- app_assoc. }
    destruct (IH (sent w [post c0])) as [IHf IHt]. fold cs in IHf, IHt.
    split.
    + intros j Hj Hbefore (c & Hc & Hnz).
      destruct j as [|j].
      * cbn in Hc. injection Hc as Hc. rewrite app_nil_r in Hc.
        destruct (send_json_code w (post c0) c Hc) as (items & E).
        cbn [append_batches]. fold c0. unfold mbind, M_bind. rewrite E.
        destruct (Z.eqb_spec c 0); [contradiction|]. reflexivity.
      * pose proof (Hbefore 0 ltac:(lia)) as H0. cbn in H0.
        injection H0 as H0. rewrite app_nil_r in H0.
        destruct (send_json_code w (post c0) 0%Z H0) as (items & E).
        cbn [append_batches]. fold c0. unfold mbind, M_bind. rewrite E. cbn [Z.eqb negb].
        rewrite (IHf j).
        -- by rewrite sent_sent.
        -- cbn in Hj. lia.
        -- intros i Hi. rewrite Hshift. apply Hbefore. lia.
        -- exists c. by rewrite Hshift.
    + intros Hall.
      pose proof (Hall 0 ltac:(cbn; lia)) as H0. cbn in H0.
      injection H0 as H0. rewrite app_nil_r in H0.
      destruct (send_json_code w (post c0) 0%Z H0) as (items & E).
      cbn [append_batches]. fold c0. unfold mbind, M_bind. rewrite E. cbn [Z.eqb negb].
      rewrite IHt.
      * by rewrite sent_sent.
      * intros i Hi. rewrite Hshift. apply Hall. cbn. lia.
Qed.

End AppendBlocks.

Lemma concat_slices {A} (l : list A) (step k : nat) :
  concat (map (fun i => slice l i (i + step)) (map (fun j => 0 + j * step) (seq 0 k)))
  = take (k * step) l.
Proof.
  induction k as [|k IH]; [done|].
  rewrite seq_S, !map_app, concat_app, IH. cbn [map concat seq].
  rewrite app_nil_r. unfold slice.
  replace (0 + (0 + k) * step + step - (0 + (0 + k) * step)) with step by lia.
  replace (0 + (0 + k) * step) with (k * step) by lia.
  replace (S k * step) with (k * step + step) by lia.
  by rewrite take_take_drop.
Qed.

Lemma chunks_concat (blocks : list Block) : concat (chunks blocks) = blocks.
Proof.
  unfold chunks, range_step. rewrite concat_slices.
  apply take_ge. unfold batch_size.
  replace (length blocks - 0 + (50 - 1)) with (length blocks + 49) by lia.
  pose proof (Nat.div_mod_eq (length blocks + 49) 50).
  pose proof (Nat.mod_upper_bound (length blocks + 49) 50). lia.
Qed.

Lemma chunks_bounds (blocks : list Block) :
  Forall (fun c => 0 < length c <= batch_size) (chunks blocks).
Proof.
  unfold chunks, range_step. rewrite Forall_map, Forall_map. apply Forall_forall.
  intros j Hj. apply elem_of_seq in Hj. unfold slice, batch_size in *.
  rewrite length_take, length_drop.
  replace (length blocks - 0 + (50 - 1)) with (length blocks + 49) in Hj by lia.
  pose proof (Nat.div_mod_eq (length blocks + 49) 50).
  pose proof (Nat.mod_upper_bound (length blocks + 49) 50). lia.
Qed.

(** C6.  The batches of [append_blocks] are consecutive slices of at most
    50 blocks that add up to the blocks given.  An empty list succeeds
    without a request.  When every batch is answered with code 0, all are
    sent in order and the call returns [True].  When batch [j] is the first
    one answered with another code, the call returns [False], the batches
    0 to [j] have been sent and nothing else: no later batch, and no
    request that would undo an earlier one. *)
Theorem append_blocks_chunked (server : Server) (document_id block_id : str)
    (blocks : list Block) (w : World) :
  let post := PostChildren document_id block_id in
  let cs := chunks blocks in
  concat cs = blocks /\
  Forall (fun c => 0 < length c <= 50) cs /\
  (blocks = [] -> append_blocks server document_id block_id blocks w = (Returned true, w)) /\
  ((forall i, i < length cs ->
      api_code <$> reply server document_id block_id w cs i = Some (Some 0%Z)) ->
   append_blocks server document_id block_id blocks w
   = (Returned true, sent w (map post cs))) /\
  (forall j, j < length cs ->
     (forall i, i < j ->
        api_code <$> reply server document_id block_id w cs i = Some (Some 0%Z)) ->
     (exists c, api_code <$> reply server document_id block_id w cs j = Some (Some c)
                /\ c <> 0%Z) ->
     append_blocks server document_id block_id blocks w
     = (Returned false, sent w (map post (take (S j) cs)))).
Proof.
  intros post cs. split; [apply chunks_concat|].
  split; [apply chunks_bounds|].
  split; [intros ->; reflexivity|].
  pose proof (append_batches_spec server document_id block_id blocks
                (range_step 0 (length blocks) batch_size) w) as [Hf Ht].
  split.
  - intros Hall. destruct blocks as [|b blocks].
    + cbn. by rewrite sent_nil.
    + unfold append_blocks. apply Ht. exact Hall.
  - intros j Hj Hbefore Hfail. destruct blocks as [|b blocks].
    + cbn in Hj. lia.
    + unfold append_blocks. apply Hf; assumption.
Qed.

(** *** [fill_table] *)

Lemma list_bind_all_nil {A B} (f : A -> list B) (l : list A) :
  Forall (fun x => f x = []) l -> l ≫= f = [].
Proof.
  induction 1 as [|x l Hx _ IH]; [done|]. cbn. by rewrite Hx, IH.
Qed.

Section FillTable.
Variable server : Server.
Variable document_id : str.

Lemma fill_table_cell_sent cell_id content w :
  exists ok, fill_table_cell server document_id cell_id content w
             = (Returned ok, sent w [fill_request document_id (cell_id, content)]).
Proof.
  unfold fill_table_cell, try_except, send_json, send, mbind, M_bind, mret, M_ret, raise,
    sent, fill_request. cbn.
  destruct (status_ok _); [|by eexists].
  destruct (json _) as [[code items]|]; [|by eexists].
  destruct (negb _); by eexists.
Qed.

Lemma fill_row_spec cells table_data cols r n a w :
  r < length table_data ->
  fill_row server document_id cells table_data cols r (seq a n) w
  = (Returned tt,
     sent w (map (fill_request document_id)
               (c ← seq a n; planned_fill cells table_data cols r c))).
Proof.
  intros Hr. revert a w. induction n as [|n IH]; intros a w.
  - cbn. by rewrite sent_nil.
  - cbn [seq fill_row]. destruct (Nat.leb_spec (length cells) (r * cols + a)) as [Hge|Hlt].
    + (* break: no later column has a container either *)
      replace (c ← a :: seq (S a) n; planned_fill cells table_data cols r c) with
        (@nil (option str * str)); [cbn; by rewrite sent_nil|].
      symmetry. apply list_bind_all_nil. apply Forall_forall. intros c Hc.
      change (a :: seq (S a) n) with (seq a (S n)) in Hc. apply elem_of_seq in Hc.
      unfold planned_fill. rewrite (lookup_ge_None_2 cells); [done | lia].
    + destruct (lookup_lt_is_Some_2 table_data r Hr) as [row Hrow].
      destruct (lookup_lt_is_Some_2 cells (r * cols + a) Hlt) as [cell Hcell].
      rewrite (index_some _ _ _ Hrow), mret_bind, (index_some _ _ _ Hcell).
      change (c ← a :: seq (S a) n; planned_fill cells table_data cols r c)
        with (planned_fill cells table_data cols r a ++
              (c ← seq (S a) n; planned_fill cells table_data cols r c)).
      rewrite map_app, <- sent_sent.
      unfold planned_fill at 1. rewrite Hcell, Hrow. cbn [mbind option_bind].
      destruct (Nat.leb_spec (length row) a) as [Hc|Hc].
      * rewrite (lookup_ge_None_2 row a Hc). cbn [map]. rewrite sent_nil. apply IH.
      * destruct (lookup_lt_is_Some_2 row a Hc) as [content Hcontent].
        rewrite mret_bind, (index_some _ _ _ Hcontent), mret_bind, Hcontent.
        destruct (truthy content).
        -- destruct (fill_table_cell_sent (block_id cell) content w) as (ok & E).
           erewrite bind_run; [|erewrite bind_run; [|exact E]; reflexivity].
           cbn [map]. apply IH.
        -- rewrite mret_bind. cbn [map]. rewrite sent_nil. apply IH.
Qed.

Lemma fill_rows_spec cells table_data cols n a w :
  a + n <= length table_data ->
  fill_rows server document_id cells table_data cols (seq a n) w
  = (Returned tt,
     sent w (map (fill_request document_id)
               (r ← seq a n; c ← seq 0 cols; planned_fill cells table_data cols r c))).
Proof.
  revert a w. induction n as [|n IH]; intros a w Ha.
  - cbn. by rewrite sent_nil.
  - cbn [seq fill_rows].
    erewrite bind_run; [|apply fill_row_spec; lia].
    rewrite IH by lia. rewrite sent_sent, <- map_app. reflexivity.
Qed.

End FillTable.

(** C7.  When the cells of the table have been fetched, [fill_table] sends,
    after the fetch, exactly the requests of [fill_plan], in its order:
    rows first, columns within a row, the cell at row [r] and column [c]
    going to entry [r * cols + c] of the fetched list, [cols] being the
    greatest row length; nothing is sent for an index beyond the fetched
    list, for a column beyond the length of its row, or for an empty
    string.  This holds whatever the service answers to the fills, so a
    failed fill does not stop the later ones. *)
Theorem fill_table_row_major (server : Server) (document_id table_block_id : str)
    (table_data : list (list str)) (w : World) (cells : list Item) :
  status_ok (server (requests w) (GetChildren document_id table_block_id)) = true ->
  json (server (requests w) (GetChildren document_id table_block_id)) = Some (0%Z, cells) ->
  fill_table server document_id table_block_id table_data w
  = (Returned true,
     sent w (GetChildren document_id table_block_id
             :: map (fill_request document_id) (fill_plan cells table_data))).
Proof.
  intros Hcode Hjson. unfold fill_table, try_except.
  assert (E : send_json server (GetChildren document_id table_block_id) w
              = (Returned (0%Z, cells), sent w [GetChildren document_id table_block_id])).
  { unfold send_json, send, mbind, M_bind, mret, M_ret, sent. cbn.
    by rewrite Hcode, Hjson. }
  erewrite bind_run; [|exact E]. cbn [Z.eqb negb].
  erewrite bind_run;
    [|apply (fill_rows_spec server document_id cells table_data (max_row_len table_data)
               (length table_data) 0); lia].
  unfold mret, M_ret. rewrite sent_sent. reflexivity.
Qed.

(** *** Concrete runs *)

Lemma append_blocks_chunked_witness :
  let blocks := replicate 120 Divider in
  let cs := chunks blocks in
  (1 < length cs /\
   (forall i, i < 1 ->
      api_code <$> reply flaky_server py"doc" py"doc" empty_world cs i = Some (Some 0%Z)) /\
   (exists c, api_code <$> reply flaky_server py"doc" py"doc" empty_world cs 1
              = Some (Some c) /\ c <> 0%Z)) /\
  append_blocks flaky_server py"doc" py"doc" blocks empty_world
  = (Returned false,
     sent empty_world
       [PostChildren py"doc" py"doc" (replicate 50 Divider);
        PostChildren py"doc" py"doc" (replicate 50 Divider)]).
Proof.
  intros blocks cs.
  assert (H1 : 1 < length cs) by (vm_compute; lia).
  assert (H2 : forall i, i < 1 ->
            api_code <$> reply flaky_server py"doc" py"doc" empty_world cs i
            = Some (Some 0%Z)).
  { intros i Hi. destruct i; [vm_compute; reflexivity | lia]. }
  assert (H3 : exists c, api_code <$> reply flaky_server py"doc" py"doc" empty_world cs 1
                         = Some (Some c) /\ c <> 0%Z).
  { exists 1%Z. split; [vm_compute; reflexivity | discriminate]. }
  split; [repeat split; assumption|].
  destruct (append_blocks_chunked flaky_server py"doc" py"doc" blocks empty_world)
    as (_ & _ & _ & _ & Hfail).
  exact (Hfail 1 H1 H2 H3).
Defined.

Lemma fill_table_row_major_witness :
  (status_ok (strict_server (requests empty_world) (GetChildren py"doc" py"tbl")) = true /\
   json (strict_server (requests empty_world) (GetChildren py"doc" py"tbl"))
   = Some (0%Z, five_cells)) /\
  fill_table strict_server py"doc" py"tbl" sample_grid empty_world
  = (Returned true,
     sent empty_world
       (GetChildren py"doc" py"tbl"
        :: map (fill_request py"doc")
             [(Some py"c0", py"a"); (Some py"c2", py"c");
              (Some py"c3", py"d"); (Some py"c4", py"e")])).
Proof.
  split; [split; reflexivity|].
  exact (fill_table_row_major strict_server py"doc" py"tbl" sample_grid empty_world
           five_cells eq_refl eq_refl).
Defined.

End ClientFacts.

(** ** The download cache *)

Module CacheFacts.
Import Http Uploader EffFacts Samples.

Lemma infer_ext_cases (splitext_ext : str -> str) (url p : str) :
  (infer_ext splitext_ext url p = splitext_ext p /\
   lower (splitext_ext p) ∈ image_exts) \/
  infer_ext splitext_ext url p ∈ [py".jpg"; py".png"; py".gif"; py".webp"; py".bmp"].
Proof.
  unfold infer_ext.
  destruct (truthy (splitext_ext p)); cbn [negb orb].
  - destruct (existsb _ _) eqn:E; cbn [negb].
    + left. split; [reflexivity|].
      apply existsb_exists in E as (x & Hin & Hx). unfold str_eqb in Hx.
      apply bool_decide_eq_true in Hx. subst x. by apply list_elem_of_In.
    + right. destruct (contains _ _); [|set_solver].
      generalize (default [] (head (split_chr "&"
                   (default [] (last (split_str py"wx_fmt=" 0 url)))))).
      intros fmt. unfold ext_map, dict_get.
      repeat (destruct (str_eqb _ fmt); [set_solver|]). set_solver.
  - right. destruct (contains _ _); [|set_solver].
    generalize (default [] (head (split_chr "&"
                 (default [] (last (split_str py"wx_fmt=" 0 url)))))).
    intros fmt. unfold ext_map, dict_get.
    repeat (destruct (str_eqb _ fmt); [set_solver|]). set_solver.
Qed.

Section Cache.
Variable urlparse_path : str -> option str.
Variable splitext_ext : str -> str.
Variable md5_hexdigest : str -> str.
Variable TEMP_IMAGE_DIR : str.
Variable server : Server.

Local Abbreviation download := (download_from_url urlparse_path splitext_ext md5_hexdigest
                                  TEMP_IMAGE_DIR server).
Local Abbreviation local_path url p :=
  (cache_path TEMP_IMAGE_DIR (cache_filename splitext_ext md5_hexdigest url p)).

Lemma download_cached url p w :
  urlparse_path url = Some p ->
  is_Some (files w !! local_path url p) ->
  download url w = (Returned (Some (local_path url p)), w).
Proof.
  intros Hp Hf. unfold download_from_url, try_except. rewrite Hp, mret_bind.
  erewrite bind_run; [|unfold exists_file; reflexivity].
  by rewrite bool_decide_eq_true_2.
Qed.

Lemma download_cold url p w :
  urlparse_path url = Some p ->
  files w !! local_path url p = None ->
  status_ok (server (requests w) (GetUrl url)) = true ->
  download url w
  = (Returned (Some (local_path url p)),
     {| requests := requests w ++ [GetUrl url];
        files := <[local_path url p := resp_content (server (requests w) (GetUrl url))]>
                   (files w) |}).
Proof.
  intros Hp Hf Hok. unfold download_from_url, try_except. rewrite Hp, mret_bind.
  erewrite bind_run; [|unfold exists_file; reflexivity].
  rewrite bool_decide_eq_false_2 by (rewrite Hf; by intros [? ?]).
  erewrite bind_run; [|unfold send; reflexivity].
  rewrite Hok. reflexivity.
Qed.

End Cache.

(** C8.  The cache file of a URL is [img_], the first 12 characters of
    the hash of the URL, and an extension: the one of the URL path when it
    is an image extension, else one taken from the format hint or the
    default.  When that file exists, [download_from_url] returns its path
    and sends nothing.  When it does not exist and the download succeeds,
    one request is sent and the file is written, and a second resolution
    of the same URL returns the same path without a request: one fetch for
    the two resolutions. *)
Theorem download_cache_idempotent
    (urlparse_path : str -> option str) (splitext_ext md5_hexdigest : str -> str)
    (TEMP_IMAGE_DIR : str) (server : Server) (url p : str) (w : World) :
  let download := download_from_url urlparse_path splitext_ext md5_hexdigest
                    TEMP_IMAGE_DIR server in
  let ext := infer_ext splitext_ext url p in
  let path := TEMP_IMAGE_DIR ++ py"/" ++ py"img_" ++ take 12 (md5_hexdigest url) ++ ext in
  urlparse_path url = Some p ->
  ((ext = splitext_ext p /\ lower ext ∈ image_exts) \/
   ext ∈ [py".jpg"; py".png"; py".gif"; py".webp"; py".bmp"]) /\
  (is_Some (files w !! path) -> download url w = (Returned (Some path), w)) /\
  (files w !! path = None ->
   status_ok (server (requests w) (GetUrl url)) = true ->
   exists w1,
     download url w = (Returned (Some path), w1) /\
     requests w1 = requests w ++ [GetUrl url] /\
     files w1 !! path = Some (resp_content (server (requests w) (GetUrl url))) /\
     download url w1 = (Returned (Some path), w1)).
Proof.
  intros download ext path Hp.
  split; [|split].
  - destruct (infer_ext_cases splitext_ext url p) as [[H1 H2]|H]; [left|right]; try done.
    subst ext. by rewrite H1.
  - intros Hf. by apply download_cached.
  - intros Hf Hok. eexists. split; [by apply download_cold|].
    split; [reflexivity|]. split; [cbn; apply lookup_insert_eq|].
    apply download_cached; [done|]. cbn. rewrite lookup_insert_eq. by eexists.
Qed.

(** *** A concrete cache *)

Lemma download_cache_witness :
  let download := download_from_url sample_urlparse_path sample_splitext_ext sample_md5
                    py"/tmp/feishu_images" image_server in
  let path := py"/tmp/feishu_images/img_0123456789ab.PNG" in
  sample_urlparse_path sample_url = Some py"/pics/cat.PNG" /\
  exists w1,
    download sample_url {| requests := []; files := ∅ |} = (Returned (Some path), w1) /\
    requests w1 = [GetUrl sample_url] /\
    files w1 !! path = Some py"PNG" /\
    download sample_url w1 = (Returned (Some path), w1).
Proof.
  intros download path. split; [reflexivity|].
  destruct (download_cache_idempotent sample_urlparse_path sample_splitext_ext sample_md5
              py"/tmp/feishu_images" image_server sample_url py"/pics/cat.PNG"
              {| requests := []; files := ∅ |} eq_refl) as (_ & _ & Hcold).
  exact (Hcold eq_refl eq_refl).
Defined.

End CacheFacts.

(** ** The orchestrator *)

Module WriterFacts.
Import Parser Writer EffFacts ParserFacts Samples.

(** *** The loop, piece by piece *)

Section Order.
Variable client : Client.
Variable doc_id : str.
Variable image_map : gmap nat (str * bool).
Variable table_map : gmap nat (list (list str)).

Lemma write_loop_unflagged items batch count log :
  Forall (fun ib => flagged image_map table_map ib.1 = false) items ->
  write_loop client doc_id image_map table_map items batch count log
  = (Returned (batch ++ map snd items, count), log).
Proof.
  intros H. revert batch. induction H as [|[i b] items Hi _ IH]; intros batch.
  - cbn. by rewrite app_nil_r.
  - cbn [write_loop]. unfold flagged in Hi. cbn in Hi.
    destruct (image_map !! i); [discriminate|]. destruct (table_map !! i); [discriminate|].
    rewrite IH. cbn. by rewrite <- app_assoc.
Qed.

Lemma write_loop_flagged pre i b post batch count log :
  flagged image_map table_map i = true ->
  write_loop client doc_id image_map table_map (pre ++ (i, b) :: post) batch count log
  = ('(b1, c1) ← write_loop client doc_id image_map table_map pre batch count;
     flush client doc_id b1 ;;
     c2 ← special client doc_id image_map table_map i c1;
     write_loop client doc_id image_map table_map post [] c2) log.
Proof.
  intros Hi. revert batch count log. induction pre as [|[j x] pre IH]; intros batch count log.
  - cbn [app write_loop]. rewrite mret_bind. unfold special, flagged in *.
    destruct (image_map !! i) as [[path url]|]; [reflexivity|].
    destruct (table_map !! i); [|discriminate].
    apply bind_ext. intros _ s'. by rewrite bind_assoc.
  - cbn [app write_loop].
    destruct (image_map !! j) as [[path url]|].
    + rewrite !bind_assoc. apply bind_ext. intros _ s1.
      rewrite !bind_assoc. apply bind_ext. intros c s2. apply IH.
    + destruct (table_map !! j).
      * rewrite !bind_assoc. apply bind_ext. intros _ s1.
        rewrite !bind_assoc. apply bind_ext. intros _ s2. apply IH.
      * apply IH.
Qed.

Lemma write_items_unflagged items count log :
  Forall (fun ib => flagged image_map table_map ib.1 = false) items ->
  write_items client doc_id image_map table_map items count log
  = (flush client doc_id (map snd items) ;; mret count) log.
Proof.
  intros H. unfold write_items.
  erewrite bind_run; [|by apply write_loop_unflagged]. reflexivity.
Qed.

Lemma write_items_flagged pre i b post count log :
  flagged image_map table_map i = true ->
  write_items client doc_id image_map table_map (pre ++ (i, b) :: post) count log
  = (c1 ← write_items client doc_id image_map table_map pre count;
     c2 ← special client doc_id image_map table_map i c1;
     write_items client doc_id image_map table_map post c2) log.
Proof.
  intros Hi. unfold write_items.
  rewrite (bind_cong _ _ _ _ (write_loop_flagged _ _ _ _ _ _ _ Hi)).
  rewrite !bind_assoc. apply bind_ext. intros [b1 c1] s1.
  rewrite !bind_assoc. apply bind_ext. intros _ s2.
  rewrite mret_bind. rewrite !bind_assoc. apply bind_ext. intros c2 s3. reflexivity.
Qed.

End Order.

(** *** The calls in the order of the blocks *)

Lemma runs_mret {A} (a : A) log : runs (mret a) log (Returned a) [].
Proof. unfold runs, mret, M_ret. by rewrite app_nil_r. Qed.

Lemma runs_bind {A B} (c : M (list Call) A) (k : A -> M (list Call) B) log a n1 r n2 :
  runs c log (Returned a) n1 -> runs (k a) (log ++ n1) r n2 ->
  runs (c ≫= k) log r (n1 ++ n2).
Proof.
  unfold runs. intros H1 H2. unfold mbind, M_bind. rewrite H1, H2. by rewrite app_assoc.
Qed.

Lemma runs_bind_raised {A B} (c : M (list Call) A) (k : A -> M (list Call) B) log n1 :
  runs c log Raised n1 -> runs (c ≫= k) log Raised n1.
Proof. unfold runs. intros H1. unfold mbind, M_bind. by rewrite H1. Qed.

Lemma runs_call {A} (c : Call) (answer : list Call -> Result A) log :
  runs (call c answer) log (answer log) [c].
Proof. reflexivity. Qed.

Lemma rendered_app a b : rendered (a ++ b) = rendered a ++ rendered b.
Proof. unfold rendered. apply bind_app. Qed.

Section Rendered.
Variable client : Client.
Variable doc_id : str.
Variable image_map : gmap nat (str * bool).
Variable table_map : gmap nat (list (list str)).

Local Abbreviation expected' := (expected image_map table_map).

Lemma flush_ok batch : step_ok doc_id (flush client doc_id batch) (map piece_block batch).
Proof.
  intros log. destruct batch as [|b batch].
  - exists (Returned tt), []. split; [apply runs_mret|]. by split.
  - cbn [flush]. unfold do_append_blocks.
    destruct (on_append_blocks client log doc_id doc_id (b :: batch)) as [|ok] eqn:E.
    + eexists Raised, _. split; [apply runs_bind_raised; unfold runs, call; by rewrite E|].
      split; [by repeat constructor|]. cbn. by rewrite app_nil_r.
    + eexists (Returned tt), _.
      split; [eapply runs_bind; [unfold runs, call; by rewrite E | apply runs_mret]|].
      split; [by repeat constructor|]. cbn. by rewrite app_nil_r.
Qed.

Lemma handle_image_ok path count :
  step_ok doc_id (handle_image client doc_id path count) [piece_image].
Proof.
  intros log. unfold handle_image, do_create_image_block, do_upload, do_replace_image_token.
  destruct (on_create_image_block client log doc_id doc_id) as [|id] eqn:E1.
  { eexists Raised, _. split; [apply runs_bind_raised; unfold runs, call; by rewrite E1|].
    split; [by repeat constructor | done]. }
  destruct (negb (opt_truthy id)) eqn:T1.
  { eexists _, _. split.
    - eapply runs_bind; [unfold runs, call; by rewrite E1|]. rewrite T1. apply runs_mret.
    - split; [by repeat constructor | done]. }
  destruct (on_upload client (log ++ [create_image_block doc_id doc_id]) path (group_str id))
    as [|tok] eqn:E2.
  { eexists Raised, _. split.
    - eapply runs_bind; [unfold runs, call; by rewrite E1|]. rewrite T1.
      apply runs_bind_raised. unfold runs, call. by rewrite E2.
    - split; [by repeat constructor | done]. }
  destruct (negb (opt_truthy tok)) eqn:T2.
  { eexists _, _. split.
    - eapply runs_bind; [unfold runs, call; by rewrite E1|]. rewrite T1.
      eapply runs_bind; [unfold runs, call; by rewrite E2|]. rewrite T2. apply runs_mret.
    - split; [by repeat constructor | done]. }
  destruct (on_replace_image_token client
              ((log ++ [create_image_block doc_id doc_id]) ++ [upload path (group_str id)])
              doc_id (group_str id) (group_str tok)) as [|ok] eqn:E3.
  { eexists Raised, _. split.
    - eapply runs_bind; [unfold runs, call; by rewrite E1|]. rewrite T1.
      eapply runs_bind; [unfold runs, call; by rewrite E2|]. rewrite T2.
      apply runs_bind_raised. unfold runs, call. by rewrite E3.
    - split; [by repeat constructor | done]. }
  destruct ok; (eexists _, _; split;
    [ eapply runs_bind; [unfold runs, call; by rewrite E1|]; rewrite T1;
      eapply runs_bind; [unfold runs, call; by rewrite E2|]; rewrite T2;
      eapply runs_bind; [unfold runs, call; by rewrite E3|]; apply runs_mret
    | split; [by repeat constructor | done] ]).
Qed.

Lemma handle_table_ok data :
  step_ok doc_id (handle_table client doc_id data)
    (if (0 <? length data) && (0 <? max_row_len data)
     then [piece_table (length data) (max_row_len data)] else []).
Proof.
  intros log. unfold handle_table, do_create_table, do_fill_table.
  destruct ((0 <? length data) && (0 <? max_row_len data)).
  2:{ exists (Returned tt), []. split; [apply runs_mret | by split]. }
  destruct (on_create_table client log doc_id doc_id (length data) (max_row_len data))
    as [|id] eqn:E1.
  { eexists Raised, _. split; [apply runs_bind_raised; unfold runs, call; by rewrite E1|].
    split; [by repeat constructor | done]. }
  destruct (opt_truthy id) eqn:T1.
  2:{ eexists _, _. split.
      - eapply runs_bind; [unfold runs, call; by rewrite E1|]. rewrite T1. apply runs_mret.
      - split; [by repeat constructor | done]. }
  destruct (on_fill_table client
              (log ++ [create_table doc_id doc_id (length data) (max_row_len data)])
              doc_id (group_str id) data) as [|ok] eqn:E2.
  { eexists Raised, _. split.
    - eapply runs_bind; [unfold runs, call; by rewrite E1|]. rewrite T1.
      apply runs_bind_raised. unfold runs, call. by rewrite E2.
    - split; [by repeat constructor | done]. }
  eexists _, _. split.
  - eapply runs_bind; [unfold runs, call; by rewrite E1|]. rewrite T1.
    eapply runs_bind; [unfold runs, call; by rewrite E2 | apply runs_mret].
  - split; [by repeat constructor | done].
Qed.

(** Sequencing a step that renders as [its] with a continuation. *)
Lemma step_then {A B} (c : M (list Call) A) (k : A -> M (list Call) B) its
    (target : list Piece) (Q : B -> list Piece -> Prop) log :
  step_ok doc_id c its ->
  (exists rest, target = its ++ rest /\
     forall a log', exists res new,
       runs (k a) log' res new /\ Forall (append_ok doc_id) new /\
       match res with
       | Returned b => Q b (rendered new) /\ True
       | Raised => rendered new `prefix_of` rest
       end) ->
  exists res new,
    runs (c ≫= k) log res new /\ Forall (append_ok doc_id) new /\
    match res with
    | Returned b => exists r1, rendered new = its ++ r1 /\ Q b r1
    | Raised => rendered new `prefix_of` target
    end.
Proof.
  intros Hc (rest & -> & Hk). destruct (Hc log) as (r1 & n1 & H1 & F1 & R1).
  destruct r1 as [|a].
  - exists Raised, n1. split; [by apply runs_bind_raised|]. split; [done|].
    rewrite R1. by apply prefix_app_r.
  - destruct (Hk a (log ++ n1)) as (r2 & n2 & H2 & F2 & R2).
    exists r2, (n1 ++ n2). split; [by eapply runs_bind|].
    split; [by apply Forall_app|]. rewrite rendered_app, R1. destruct r2 as [|b].
    + by apply prefix_app.
    + exists (rendered n2). split; [done | apply R2].
Qed.

Lemma write_loop_rendered items batch count log :
  exists res new,
    runs (write_loop client doc_id image_map table_map items batch count) log res new /\
    Forall (append_ok doc_id) new /\
    match res with
    | Returned (batch', _) =>
        rendered new ++ map piece_block batch' = map piece_block batch ++ expected' items
    | Raised => rendered new `prefix_of` (map piece_block batch ++ expected' items)
    end.
Proof.
  revert batch count log. induction items as [|[i b] items IH]; intros batch count log.
  - exists (Returned (batch, count)), []. split; [apply runs_mret|]. split; [done|].
    cbn. by rewrite app_nil_r.
  - cbn [write_loop]. unfold expected. cbn [mbind list_bind]. fold (expected' items).
    unfold expected_item. cbn [fst snd].
    destruct (image_map !! i) as [[path url]|].
    + destruct (step_then (flush client doc_id batch)
                 (fun _ => c ← handle_image client doc_id path count;
                           write_loop client doc_id image_map table_map items [] c)
                 (map piece_block batch) (map piece_block batch ++ [piece_image] ++ expected' items)
                 (fun r its => exists b', r.1 = b' /\
                    its ++ map piece_block b' = [piece_image] ++ expected' items)
                 log (flush_ok batch)) as (res & new & Hrun & Hok & Hres).
      { eexists. split; [reflexivity|]. intros _ log'.
        destruct (step_then (handle_image client doc_id path count)
                   (fun c => write_loop client doc_id image_map table_map items [] c)
                   [piece_image] ([piece_image] ++ expected' items)
                   (fun r its => its ++ map piece_block r.1 = expected' items)
                   log' (handle_image_ok path count)) as (res & new & Hrun & Hok & Hres).
        { eexists. split; [reflexivity|]. intros c log''.
          destruct (IH [] c log'') as (res & new & Hrun & Hok & Hres).
          exists res, new. split; [done|]. split; [done|].
          destruct res as [|[b' c']]; [done|]. split; [|done]. exact Hres. }
        exists res, new. split; [done|]. split; [done|].
        destruct res as [|[b' c']]; [done|]. split; [|done].
        destruct Hres as (r1 & -> & Hr1). exists b'. split; [done|].
        cbn in Hr1. by rewrite <- app_assoc, Hr1. }
      exists res, new. split; [done|]. split; [done|].
      destruct res as [|[b' c']]; [done|].
      destruct Hres as (r1 & -> & b'' & <- & Hr1). cbn [fst] in Hr1.
      by rewrite <- app_assoc, Hr1.
    + destruct (table_map !! i) as [data|].
      * set (tbl := if (0 <? length data) && (0 <? max_row_len data)
                    then [piece_table (length data) (max_row_len data)] else []).
        destruct (step_then (flush client doc_id batch)
                   (fun _ => handle_table client doc_id data ;;
                             write_loop client doc_id image_map table_map items [] count)
                   (map piece_block batch) (map piece_block batch ++ tbl ++ expected' items)
                   (fun r its => its ++ map piece_block r.1 = tbl ++ expected' items)
                   log (flush_ok batch)) as (res & new & Hrun & Hok & Hres).
        { eexists. split; [reflexivity|]. intros _ log'.
          destruct (step_then (handle_table client doc_id data)
                     (fun _ => write_loop client doc_id image_map table_map items [] count)
                     tbl (tbl ++ expected' items)
                     (fun r its => its ++ map piece_block r.1 = expected' items)
                     log' (handle_table_ok data)) as (res & new & Hrun & Hok & Hres).
          { eexists. split; [reflexivity|]. intros _ log''.
            destruct (IH [] count log'') as (res & new & Hrun & Hok & Hres).
            exists res, new. split; [done|]. split; [done|].
            destruct res as [|[b' c']]; [done|]. split; [|done]. exact Hres. }
          exists res, new. split; [done|]. split; [done|].
          destruct res as [|[b' c']]; [done|]. split; [|done].
          destruct Hres as (r1 & -> & Hr1). cbn [fst] in Hr1 |- *.
          by rewrite <- app_assoc, Hr1. }
        exists res, new. split; [done|]. split; [done|].
        destruct res as [|[b' c']]; [done|].
        destruct Hres as (r1 & -> & Hr1). cbn [fst] in Hr1.
        by rewrite <- app_assoc, Hr1.
      * destruct (IH (batch ++ [b]) count log) as (res & new & Hrun & Hok & Hres).
        exists res, new. split; [done|]. split; [done|].
        rewrite map_app, <- app_assoc in Hres. exact Hres.
Qed.

Lemma write_items_rendered items count log :
  exists res new,
    runs (write_items client doc_id image_map table_map items count) log res new /\
    Forall (append_ok doc_id) new /\
    match res with
    | Returned _ => rendered new = expected' items
    | Raised => rendered new `prefix_of` expected' items
    end.
Proof.
  unfold write_items.
  destruct (write_loop_rendered items [] count log) as (r1 & n1 & H1 & F1 & R1).
  destruct r1 as [|[b' c']].
  - exists Raised, n1. split; [by apply runs_bind_raised|]. by split.
  - destruct (flush_ok b' (log ++ n1)) as (r2 & n2 & H2 & F2 & R2).
    cbn in R1. destruct r2 as [|[]].
    + exists Raised, (n1 ++ n2). split.
      { eapply runs_bind; [exact H1|]. by apply runs_bind_raised. }
      split; [by apply Forall_app|]. by rewrite rendered_app, R2, R1.
    + exists (Returned c'), (n1 ++ n2). split.
      { eapply runs_bind; [exact H1|]. rewrite <- (app_nil_r n2).
        eapply runs_bind; [exact H2 | apply runs_mret]. }
      split; [by apply Forall_app|]. by rewrite rendered_app, R2, R1.
Qed.

End Rendered.

(** *** The three properties *)

Lemma enumerate_lookup {A} (l : list A) (i : nat) (x : A) :
  (i, x) ∈ enumerate l -> l !! i = Some x.
Proof.
  unfold enumerate. intros H. apply list_elem_of_lookup in H as [k Hk].
  apply lookup_zip_with_Some in Hk as (a & b & [= <- <-] & Ha & Hb).
  apply lookup_seq in Ha as [-> _]. done.
Qed.

Lemma enumerate_snd {A} (l : list A) : map snd (enumerate l) = l.
Proof. unfold enumerate. apply snd_zip. rewrite length_seq. lia. Qed.

Lemma enumerate_split {A} (l : list A) (i : nat) (x : A) :
  l !! i = Some x ->
  enumerate l = enumerate (take i l) ++
                (i, x) :: zip (seq (S i) (length l - S i)) (drop (S i) l).
Proof.
  intros Hi. pose proof (lookup_lt_Some _ _ _ Hi) as Hlt. unfold enumerate.
  rewrite <- (take_drop_middle l i x Hi) at 2.
  replace (length l) with (i + S (length l - S i)) at 1 by lia.
  rewrite seq_app. cbn [seq plus].
  rewrite length_take, Nat.min_l by lia.
  rewrite zip_with_app by (rewrite length_seq, length_take; lia). reflexivity.
Qed.

Lemma build_image_map_lookup l i p u :
  (i, p, u) ∈ l -> is_Some (build_image_map l !! i).
Proof.
  unfold build_image_map. generalize (∅ : gmap nat (str * bool)).
  intros m H. assert (Hor : is_Some (m !! i) \/ (i, p, u) ∈ l) by by right. clear H.
  revert m Hor. induction l as [|[[j q] v] l IH]; intros m [Hm|Hl]; cbn [foldl].
  - done.
  - by apply elem_of_nil in Hl.
  - apply IH. left. destruct (decide (j = i)) as [->|Hne].
    + rewrite lookup_insert_eq. by eexists.
    + by rewrite lookup_insert_ne.
  - apply elem_of_cons in Hl as [[= <- <- <-]|Hl].
    + apply IH. left. rewrite lookup_insert_eq. by eexists.
    + apply IH. by right.
Qed.

Lemma build_table_map_lookup l i d :
  (i, d) ∈ l -> is_Some (build_table_map l !! i).
Proof.
  unfold build_table_map. generalize (∅ : gmap nat (list (list str))).
  intros m H. assert (Hor : is_Some (m !! i) \/ (i, d) ∈ l) by by right. clear H.
  revert m Hor. induction l as [|[j q] l IH]; intros m [Hm|Hl]; cbn [foldl].
  - done.
  - by apply elem_of_nil in Hl.
  - apply IH. left. destruct (decide (j = i)) as [->|Hne].
    + rewrite lookup_insert_eq. by eexists.
    + by rewrite lookup_insert_ne.
  - apply elem_of_cons in Hl as [[= <- <-]|Hl].
    + apply IH. left. rewrite lookup_insert_eq. by eexists.
    + apply IH. by right.
Qed.

Lemma build_image_map_lookup_inv l i :
  is_Some (build_image_map l !! i) -> exists p u, (i, p, u) ∈ l.
Proof.
  unfold build_image_map.
  assert (Hgen : forall m : gmap nat (str * bool),
            is_Some (foldl (fun m '(idx, path, is_url) => <[idx := (path, is_url)]> m) m l
                     !! i) ->
            is_Some (m !! i) \/ exists p u, (i, p, u) ∈ l).
  { induction l as [|[[j q] v] l IH]; intros m Hm; cbn [foldl] in Hm; [by left|].
    destruct (IH _ Hm) as [Hin|(p & u & Hin)].
    - destruct (decide (j = i)) as [->|Hne].
      + right. exists q, v. by left.
      + left. by rewrite lookup_insert_ne in Hin.
    - right. exists p, u. by right. }
  intros H. destruct (Hgen ∅ H) as [[? Hm]|Hin]; [|done].
  by rewrite lookup_empty in Hm.
Qed.

Lemma build_table_map_lookup_inv l i :
  is_Some (build_table_map l !! i) -> exists d, (i, d) ∈ l.
Proof.
  unfold build_table_map.
  assert (Hgen : forall m : gmap nat (list (list str)),
            is_Some (foldl (fun m '(idx, data) => <[idx := data]> m) m l !! i) ->
            is_Some (m !! i) \/ exists d, (i, d) ∈ l).
  { induction l as [|[j q] l IH]; intros m Hm; cbn [foldl] in Hm; [by left|].
    destruct (IH _ Hm) as [Hin|(d & Hin)].
    - destruct (decide (j = i)) as [->|Hne].
      + right. exists q. by left.
      + left. by rewrite lookup_insert_ne in Hin.
    - right. exists d. by right. }
  intros H. destruct (Hgen ∅ H) as [[? Hm]|Hin]; [|done].
  by rewrite lookup_empty in Hm.
Qed.

Lemma is_some_true {A} (o : option A) : is_some o = true <-> is_Some o.
Proof. destruct o; cbn; split; intros H; first [done | by eexists | by destruct H]. Qed.

Lemma rendered_append log d b bs x :
  append_blocks d b bs ∈ log -> x ∈ bs -> piece_block x ∈ rendered log.
Proof.
  intros Hc Hx. unfold rendered. apply list_elem_of_bind.
  exists (append_blocks d b bs). split; [|done]. cbn. by apply list_elem_of_fmap_2.
Qed.

Lemma expected_block image_map table_map items x :
  piece_block x ∈ expected image_map table_map items ->
  exists i, (i, x) ∈ items /\ image_map !! i = None /\ table_map !! i = None.
Proof.
  unfold expected. intros H. apply list_elem_of_bind in H as ([i b] & Hin & Hib).
  unfold expected_item in Hin. cbn [fst snd] in Hin.
  destruct (image_map !! i) eqn:E1.
  { apply list_elem_of_singleton in Hin. discriminate. }
  destruct (table_map !! i) eqn:E2.
  { destruct (_ && _); [apply list_elem_of_singleton in Hin; discriminate|].
    by apply elem_of_nil in Hin. }
  apply list_elem_of_singleton in Hin. injection Hin as ->. by exists i.
Qed.

(** C1.  The calls of the interleaved write follow the order of the blocks.
    Read in order, the appended batches, the image placeholders created
    and the tables created are the blocks in their order, each flagged
    position replaced by its special call (all of them when the write
    returns, a prefix when a call raised), and no append is empty or goes
    elsewhere than to the root.  Blocks without a flagged position go out
    in one flush.  At a flagged position [i] the write is the write of the
    blocks before [i] with its last flush, then the special handling of
    [i], then the write of the blocks after [i] with its last flush. *)
Theorem interleaved_write_order (client : Client) (md_path doc_id : str)
    (blocks : list Block) (pimgs : list (nat * str * bool))
    (ptabs : list (nat * list (list str))) :
  let image_map := build_image_map pimgs in
  let table_map := build_table_map ptabs in
  let run := _write_content_with_images client md_path doc_id blocks pimgs ptabs in
  let write := write_items client doc_id image_map table_map in
  (forall log, exists res new,
     run log = (res, log ++ new) /\
     Forall (append_ok doc_id) new /\
     match res with
     | Returned _ => rendered new = expected image_map table_map (enumerate blocks)
     | Raised => rendered new `prefix_of` expected image_map table_map (enumerate blocks)
     end) /\
  (forall log,
     (forall i, i < length blocks -> flagged image_map table_map i = false) ->
     run log = (flush client doc_id blocks ;; mret 0) log) /\
  (forall log i b,
     blocks !! i = Some b -> flagged image_map table_map i = true ->
     run log = (c1 ← write (enumerate (take i blocks)) 0;
                c2 ← special client doc_id image_map table_map i c1;
                write (zip (seq (S i) (length blocks - S i)) (drop (S i) blocks)) c2) log).
Proof.
  intros image_map table_map run write. split; [|split].
  - intros log.
    destruct (write_items_rendered client doc_id image_map table_map (enumerate blocks) 0 log)
      as (res & new & Hrun & Hok & Hres).
    exists res, new. split; [exact Hrun|]. by split.
  - intros log Hun.
    change (run log) with (write (enumerate blocks) 0 log).
    unfold write. rewrite write_items_unflagged; [by rewrite enumerate_snd|].
    apply Forall_forall. intros [i b] Hin. apply enumerate_lookup in Hin.
    apply Hun. by eapply lookup_lt_Some.
  - intros log i b Hi Hf.
    change (run log) with (write (enumerate blocks) 0 log).
    rewrite (enumerate_split blocks i b Hi). by apply write_items_flagged.
Qed.

(** C10.  After [parse] on a new parser, every entry of the pending images
    names the position of an image placeholder with its path, and every
    entry of the pending tables names the position of a table placeholder
    with its grid.  The positions that the interleaved write handles
    specially are then exactly the positions of the placeholders, and no
    batch that it gives to [append_blocks] holds a placeholder. *)
Theorem placeholders_never_appended (content : str) :
  exists blocks self,
    parse content init = Some (blocks, self) /\
    (forall i p u, (i, p, u) ∈ pending_images self ->
       blocks !! i = Some (ImagePlaceholder p u)) /\
    (forall i d, (i, d) ∈ pending_tables self ->
       exists r c, blocks !! i = Some (TablePlaceholder d r c)) /\
    (forall i, flagged (build_image_map (pending_images self))
                 (build_table_map (pending_tables self)) i = true <->
               exists b, blocks !! i = Some b /\ is_placeholder b = true) /\
    (forall client md_path doc_id log, exists res new,
       _write_content_with_images client md_path doc_id blocks
         (pending_images self) (pending_tables self) log = (res, log ++ new) /\
       forall d b bs x, append_blocks d b bs ∈ new -> x ∈ bs -> is_placeholder x = false).
Proof.
  destruct (parse_pending_ok content) as (blocks & self & E & Ha & Hb & Hc & Hd).
  exists blocks, self. split; [exact E|]. split; [exact Ha|].
  split; [intros i d Hin; eauto|].
  split.
  { intros i. unfold flagged. rewrite orb_true_iff, !is_some_true. split.
    - intros [Hi|Hi].
      + apply build_image_map_lookup_inv in Hi as (p & u & Hin). eexists. split; [eauto|done].
      + apply build_table_map_lookup_inv in Hi as (d & Hin). eexists. split; [eauto|done].
    - intros (b & Hi & Hp). destruct b; try discriminate.
      + left. eapply build_image_map_lookup. eauto.
      + right. eapply build_table_map_lookup. eauto. }
  intros client md_path doc_id log.
  destruct (write_items_rendered client doc_id (build_image_map (pending_images self))
              (build_table_map (pending_tables self)) (enumerate blocks) 0 log)
    as (res & new & Hrun & _ & Hres).
  exists res, new. split; [exact Hrun|].
  intros d b bs x Hcall Hx.
  pose proof (rendered_append new d b bs x Hcall Hx) as Hr.
  assert (Hexp : piece_block x ∈ expected (build_image_map (pending_images self))
                   (build_table_map (pending_tables self)) (enumerate blocks)).
  { destruct res; [|by rewrite <- Hres].
    destruct Hres as [k ->]. apply elem_of_app. by left. }
  apply expected_block in Hexp as (i & Hin & Hi1 & Hi2).
  apply enumerate_lookup in Hin.
  destruct x; try reflexivity; exfalso.
  - apply Hc in Hin. apply build_image_map_lookup in Hin as [? Hin]. congruence.
  - apply Hd in Hin. apply build_table_map_lookup in Hin as [? Hin]. congruence.
Qed.

Lemma find_by_name_some title (docs : list Doc) doc :
  doc ∈ docs -> doc !! "name" = Some title ->
  exists existing, find_by_name title docs = Some existing /\
    existing ∈ docs /\ existing !! "name" = Some title.
Proof.
  induction docs as [|d docs IH]; [by intros ?%elem_of_nil|].
  intros Hin Hname. cbn [find_by_name].
  destruct (bool_decide (d !! "name" = Some title)) eqn:Hd.
  - apply bool_decide_eq_true in Hd. exists d. split; [done|]. split; [by left | done].
  - apply bool_decide_eq_false in Hd.
    apply elem_of_cons in Hin as [->|Hin]; [contradiction|].
    destruct (IH Hin Hname) as (e & He & Hein & Hen). exists e.
    split; [done|]. split; [by right | done].
Qed.

(** C9.  With duplicate checking on, a folder token that is not empty and
    a listing that holds an item whose name is the title of the file,
    [write_file] returns the duplicate outcome, which carries the first
    such item of the listing, and the listing is the only call it makes:
    no document is created. *)
Theorem duplicate_short_circuits (client : Client) (host : Host)
    (md_path target folder_token : str) (wiki_token : option str)
    (content : str) (docs : list Doc) (doc : Doc) (log : list Call) :
  let title := path_stem host md_path in
  read_text host md_path = Some content ->
  folder_token <> [] ->
  on_list_documents_in_folder client log folder_token = Returned docs ->
  doc ∈ docs -> doc !! "name" = Some title ->
  exists existing,
    find_by_name title docs = Some existing /\
    existing ∈ docs /\ existing !! "name" = Some title /\
    write_file client host md_path target (Some folder_token) wiki_token true log
    = (Returned {| success := false; document_id := None;
                  message := duplicate (existing !! "token") title;
                  existing_doc := Some existing; node_token := None;
                  uploaded_images := None |},
       log ++ [list_documents_in_folder folder_token]).
Proof.
  intros title Hread Hft Hlist Hin Hname.
  destruct (find_by_name_some title docs doc Hin Hname) as (existing & Hfind & Hein & Hen).
  exists existing. split; [done|]. split; [done|]. split; [done|].
  unfold write_file. rewrite Hread.
  destruct (parse_total content init) as (blocks & self & -> & _).
  fold title. cbn [andb opt_truthy group_str].
  destruct folder_token as [|c ft]; [done|]. cbn [truthy].
  erewrite bind_run.
  2:{ erewrite bind_run; [|unfold do_list_documents_in_folder, call; by rewrite Hlist].
      unfold mret, M_ret. by rewrite Hfind. }
  assert (Ht : doc_truthy existing = true).
  { unfold doc_truthy. apply negb_true_iff, bool_decide_eq_false. intros ->.
    by rewrite lookup_empty in Hen. }
  cbn beta iota. by rewrite Ht.
Qed.

(** *** Concrete runs *)

Lemma duplicate_short_circuits_witness :
  (read_text notes_host py"notes.md" = Some mixed_text /\
   py"fld" <> [] /\
   on_list_documents_in_folder quiet_client [] py"fld" = Returned listing /\
   notes_doc ∈ listing /\
   notes_doc !! "name" = Some (path_stem notes_host py"notes.md")) /\
  write_file quiet_client notes_host py"notes.md" py"folder" (Some py"fld") None true []
  = (Returned {| success := false; document_id := None;
                message := duplicate (Some py"tok2") py"notes";
                existing_doc := Some notes_doc; node_token := None;
                uploaded_images := None |},
     [list_documents_in_folder py"fld"]).
Proof.
  assert (H1 : read_text notes_host py"notes.md" = Some mixed_text) by reflexivity.
  assert (H2 : py"fld" <> []) by discriminate.
  assert (H3 : on_list_documents_in_folder quiet_client [] py"fld" = Returned listing)
    by reflexivity.
  assert (H4 : notes_doc ∈ listing) by apply list_elem_of_further, list_elem_of_here.
  assert (H5 : notes_doc !! "name" = Some (path_stem notes_host py"notes.md"))
    by (vm_compute; reflexivity).
  split; [repeat split; assumption|].
  destruct (duplicate_short_circuits quiet_client notes_host py"notes.md" py"folder" py"fld"
              None mixed_text listing notes_doc [] H1 H2 H3 H4 H5)
    as (existing & Hfind & _ & _ & Hrun).
  assert (He : existing = notes_doc).
  { vm_compute in Hfind. injection Hfind as <-. vm_compute. reflexivity. }
  rewrite He in Hrun. exact Hrun.
Defined.

(** The calls for [mixed_text] written into a new document: a batch, the
    image, a batch, the table, a batch. *)
Example mixed_document_calls :
  write_file quiet_client notes_host py"notes.md" py"space" None None true []
  = (Returned {| success := true; document_id := Some py"doc1";
                message := created py"notes"; existing_doc := None;
                node_token := None; uploaded_images := Some 1 |},
     [create_document py"notes" None;
      append_blocks py"doc1" py"doc1" [Text [plain_run py"first"]];
      create_image_block py"doc1" py"doc1";
      upload py"a.png" py"img1";
      replace_image_token py"doc1" py"img1" py"file1";
      append_blocks py"doc1" py"doc1" [Text [plain_run py"second"]];
      create_table py"doc1" py"doc1" 2 2;
      fill_table py"doc1" py"tbl1" [[py"h"; py"k"]; [py"1"; py"2"]];
      append_blocks py"doc1" py"doc1" [Text [plain_run py"third"]]]).
Proof. vm_compute. reflexivity. Qed.

End WriterFacts.

(** ** Lines of the text, one kind at a time *)

Module LineFacts.
Import Re Parser ParserTerms EffFacts ParserFacts.

(** *** Blank lines *)

Lemma strip_nil_first c l : strip (c :: l) = [] -> isspace c = true.
Proof.
  intros H. destruct (isspace c) eqn:E; [done|].
  destruct (strip_cons_nonspace c l E) as [y Hy]. congruence.
Qed.

Lemma space_not (a c : ascii) : isspace a = false -> isspace c = true -> Ascii.eqb a c = false.
Proof. intros Ha Hc. destruct (Ascii.eqb_spec a c); [congruence | done]. Qed.

(** A blank line is stepped over without a block. *)
Lemma parse_line_blank lines i line blocks self :
  strip line = [] -> parse_line lines i line blocks self = (i + 1, blocks, self).
Proof.
  intros Hs. destruct line as [|c l]; [reflexivity|].
  pose proof (strip_nil_first c l Hs) as Hc.
  unfold parse_line. rewrite Hs.
  change py"#" with ["#"%char]. change py"```" with ("`"%char :: py"``").
  cbn [startswith]. rewrite (space_not "#" c), (space_not "`" c) by done. cbn [andb].
  unfold parse_line_tail, match_image, lit.
  change py"![" with ("!"%char :: py"["). cbn [startswith].
  rewrite (space_not "!" c) by done. cbn [andb].
  change py">" with [">"%char]. cbn [startswith]. rewrite (space_not ">" c) by done.
  cbn [andb].
  assert (Hb : match_bullet (c :: l) = None).
  { unfold match_bullet. destruct l; [done|]. unfold bullet_chr, is_chr.
    by rewrite (space_not "-" c), (space_not "*" c), (space_not "+" c). }
  assert (Ho : match_ordered (c :: l) = None).
  { unfold match_ordered. cbn [span].
    assert (Hd : isdecimal c = false).
    { destruct (isdecimal c) eqn:E; [|done]. exfalso.
      destruct c as [[] [] [] [] [] [] [] []]; vm_compute in E, Hc; discriminate. }
    by rewrite Hd. }
  rewrite Hb, Ho. cbn [is_some]. rewrite Hs. reflexivity.
Qed.

Lemma parse_loop_blank fuel lines i blocks self :
  Forall (fun l => strip l = []) lines -> length lines <= fuel + i ->
  parse_loop fuel lines i blocks self = Some (blocks, self).
Proof.
  intros Hall. revert i. induction fuel as [|fuel IH]; intros i Hf; cbn [parse_loop].
  - by rewrite (lookup_ge_None_2 lines i) by lia.
  - destruct (lines !! i) as [line|] eqn:Hi; [|done].
    rewrite parse_line_blank by exact (Forall_lookup_1 _ _ _ _ Hall Hi).
    apply IH. lia.
Qed.

(** X1.  A text whose lines are all empty or made of whitespace yields no
    block at all, and leaves the pending lists of the parser as they
    were. *)
Theorem blank_text_no_blocks content self :
  Forall (fun l => strip l = []) (split_chr newline content) ->
  parse content self = Some ([], self).
Proof. intros H. unfold parse. apply parse_loop_blank; [done | lia]. Qed.

(** *** Quotes and bullet lists *)

Lemma while_lines_all cond f rest :
  Forall (fun l => cond l = true) rest ->
  while_lines cond f rest = (map f rest, length rest).
Proof.
  induction 1 as [|l rest Hl _ IH]; [done|]. cbn. by rewrite Hl, IH.
Qed.

(** The loop ends when one turn has taken all the lines. *)
Lemma parse_loop_one_turn lines blocks' self' :
  lines <> [] ->
  (forall line, lines !! 0 = Some line ->
     parse_line lines 0 line [] init = (length lines, blocks', self')) ->
  parse_loop (length lines) lines 0 [] init = Some (blocks', self').
Proof.
  intros Hne H. destruct lines as [|line rest]; [done|].
  cbn [length parse_loop]. change ((line :: rest) !! 0) with (Some line).
  cbv beta iota. rewrite (H line eq_refl).
  destruct (length rest) eqn:E; cbn [parse_loop];
    by rewrite (lookup_ge_None_2 (line :: rest)) by (cbn; lia).
Qed.

Lemma head_all {A} (P : A -> Prop) (l : list A) (x : A) :
  Forall P l -> l !! 0 = Some x -> P x.
Proof. intros H Hx. eapply Forall_lookup_1; eauto. Qed.

(** X2.  When every line of the text starts with the quote marker, the
    parser emits a single quote block: the marker is cut off each line, the
    rest is stripped, and the lines are joined by newlines. *)
Theorem quote_lines_merge content :
  let lines := split_chr newline content in
  Forall (fun l => startswith l py">" = true) lines ->
  parse content init
  = Some ([_create_quote_block
             (join [newline] (map (fun l => strip (drop 1 l)) lines))], init).
Proof.
  intros lines Hall. unfold parse. fold lines.
  apply parse_loop_one_turn; [apply split_chr_nonempty|].
  intros line H0. pose proof (head_all _ _ _ Hall H0) as Hq. cbv beta in Hq.
  destruct line as [|c l]; [discriminate|].
  change py">" with [">"%char] in Hq. rewrite startswith_cons in Hq.
  apply Ascii.eqb_eq in Hq. subst c.
  unfold parse_line.
  destruct (strip_cons_nonspace ">" l eq_refl) as [y Hy]. rewrite Hy.
  cbn [startswith Ascii.eqb andb]. cbn -[lines parse_line_tail].
  unfold parse_line_tail. cbn -[lines while_lines].
  rewrite drop_0, while_lines_all by done. reflexivity.
Qed.

Lemma bullet_first (c d : ascii) (l : str) :
  is_some (match_bullet (c :: d :: l)) = true -> bullet_chr c = true /\ isspace d = true.
Proof.
  unfold match_bullet. destruct (bullet_chr c), (isspace d); cbn; try done.
Qed.

(** X3.  When every line of the text is a bullet item (one of [-], [*],
    [+], then a whitespace character), the parser emits one bullet block
    per line, in order, each holding its line without the two leading
    characters; consecutive items are never merged. *)
Theorem bullet_lines_one_block_each content :
  let lines := split_chr newline content in
  Forall (fun l => is_some (match_bullet l) = true) lines ->
  parse content init = Some (map (fun l => _create_bullet_block (drop 2 l)) lines, init).
Proof.
  intros lines Hall. unfold parse. fold lines.
  apply parse_loop_one_turn; [apply split_chr_nonempty|].
  intros line H0. pose proof (head_all _ _ _ Hall H0) as Hq. cbv beta in Hq.
  pose proof (plain_of_bullet line Hq) as Hp.
  unfold plain_line, is_heading_line, is_fence_line in Hp.
  apply andb_true_iff in Hp as [Hh Hf]. apply negb_true_iff in Hh, Hf.
  unfold parse_line. rewrite Hh, Hf.
  destruct line as [|c [|d l]]; try discriminate.
  destruct (bullet_first c d l Hq) as [Hc Hd].
  assert (Hsp : isspace c = false).
  { unfold bullet_chr, is_chr in Hc.
    destruct (Ascii.eqb_spec "-" c) as [<-|]; [done|].
    destruct (Ascii.eqb_spec "*" c) as [<-|]; [done|].
    destruct (Ascii.eqb_spec "+" c) as [<-|]; [done|]. discriminate. }
  assert (Hbar : startswith (strip (c :: d :: l)) py"|" = false).
  { destruct (strip_cons_nonspace c (d :: l) Hsp) as [y ->].
    change py"|" with ["|"%char]. rewrite startswith_cons.
    destruct (Ascii.eqb_spec "|" c) as [<-|]; [discriminate | done]. }
  rewrite Hbar. cbn [andb].
  unfold parse_line_tail.
  assert (Himg : match_image (c :: d :: l) = None).
  { unfold match_image, lit. change py"![" with ("!"%char :: py"["). cbn [startswith].
    destruct (Ascii.eqb_spec "!" c) as [<-|]; [discriminate | done]. }
  assert (Hq' : startswith (c :: d :: l) py">" = false).
  { change py">" with [">"%char]. rewrite startswith_cons.
    destruct (Ascii.eqb_spec ">" c) as [<-|]; [discriminate | done]. }
  rewrite Himg, Hq', Hq. rewrite drop_0, while_lines_all by done.
  cbn [plus]. f_equal. f_equal. cbn [app]. rewrite map_map.
  apply map_ext_in. intros x Hx. f_equal.
  rewrite Forall_forall in Hall. apply list_elem_of_In in Hx. specialize (Hall x Hx).
  cbn in Hall. unfold sub_prefix. destruct x as [|a [|b x]]; try discriminate.
  unfold match_bullet in *. by destruct (bullet_chr a && isspace b).
Qed.

(** *** Ordered lists *)

Lemma span_stop cls (d rest : str) (c : ascii) :
  forallb cls d = true -> cls c = false -> span cls (d ++ c :: rest) = (d, c :: rest).
Proof.
  intros Hd Hc. induction d as [|a d IH]; cbn.
  - by rewrite Hc.
  - cbn in Hd. apply andb_true_iff in Hd as [Ha Hd]. by rewrite Ha, IH.
Qed.

Lemma match_ordered_line d sp t :
  d <> [] -> forallb isdecimal d = true -> isspace sp = true ->
  match_ordered (ordered_line d sp t) = Some t.
Proof.
  intros Hne Hd Hsp. unfold match_ordered, ordered_line.
  rewrite span_stop by done. destruct d; [done|]. cbn. by rewrite Hsp.
Qed.

(** X4.  When every line of the text is an item of an ordered list
    (digits, a dot, a whitespace character, the text), the parser emits one
    ordered block per line, in order, holding the text only: the number
    written in the source is dropped. *)
Theorem ordered_lines_drop_numbers content items :
  split_chr newline content = map item_line items ->
  Forall (fun it => item_ok it = true) items ->
  parse content init = Some (map (fun it => _create_ordered_block it.2) items, init).
Proof.
  intros Hlines Hall. unfold parse. rewrite Hlines.
  assert (Hm : Forall (fun l => is_some (match_ordered l) = true) (map item_line items)).
  { rewrite Forall_map. eapply Forall_impl; [exact Hall|].
    intros [[d sp] t] H. unfold item_ok in H. cbn in H.
    apply andb_true_iff in H as [[H1 H2]%andb_true_iff H3].
    unfold item_line. cbn [fst snd]. rewrite match_ordered_line; try done. by destruct d. }
  apply parse_loop_one_turn.
  { rewrite <- Hlines. apply split_chr_nonempty. }
  intros line H0. pose proof (head_all _ _ _ Hm H0) as Hq. cbv beta in Hq.
  pose proof (plain_of_ordered line Hq) as Hp.
  unfold plain_line, is_heading_line, is_fence_line in Hp.
  apply andb_true_iff in Hp as [Hh Hf]. apply negb_true_iff in Hh, Hf.
  unfold parse_line. rewrite Hh, Hf.
  destruct line as [|c l]; [discriminate|].
  assert (Hc : isdecimal c = true).
  { unfold match_ordered in Hq. cbn [span] in Hq. by destruct (isdecimal c). }
  assert (Hsp : isspace c = false).
  { destruct c as [[] [] [] [] [] [] [] []]; vm_compute in Hc; try discriminate; reflexivity. }
  assert (Hbar : startswith (strip (c :: l)) py"|" = false).
  { destruct (strip_cons_nonspace c l Hsp) as [y ->].
    change py"|" with ["|"%char]. rewrite startswith_cons.
    destruct (Ascii.eqb_spec "|" c) as [<-|]; [discriminate | done]. }
  rewrite Hbar. cbn [andb].
  unfold parse_line_tail.
  assert (Himg : match_image (c :: l) = None).
  { unfold match_image, lit. change py"![" with ("!"%char :: py"["). cbn [startswith].
    destruct (Ascii.eqb_spec "!" c) as [<-|]; [discriminate | done]. }
  assert (Hq' : startswith (c :: l) py">" = false).
  { change py">" with [">"%char]. rewrite startswith_cons.
    destruct (Ascii.eqb_spec ">" c) as [<-|]; [discriminate | done]. }
  assert (Hb : match_bullet (c :: l) = None).
  { unfold match_bullet. destruct l; [done|].
    assert (bullet_chr c = false) as ->; [|done].
    destruct c as [[] [] [] [] [] [] [] []]; vm_compute in Hc; try discriminate; reflexivity. }
  rewrite Himg, Hq', Hb, Hq. cbn [is_some]. rewrite drop_0, while_lines_all by done.
  cbn [plus]. rewrite length_map. f_equal. f_equal. cbn [app]. rewrite !map_map.
  apply map_ext_in. intros [[d sp] t] Hx. f_equal.
  rewrite Forall_forall in Hall. apply list_elem_of_In in Hx. specialize (Hall _ Hx).
  unfold item_ok in Hall. cbn in Hall.
  apply andb_true_iff in Hall as [[H1 H2]%andb_true_iff H3].
  unfold sub_prefix, item_line. cbn [fst snd]. rewrite match_ordered_line; try done.
  by destruct d.
Qed.

(** *** Paragraphs and dividers *)

Lemma letter_facts c :
  letter c = true ->
  isspace c = false /\ isdecimal c = false /\ divider_chr c = false /\
  bullet_chr c = false /\ Ascii.eqb "#" c = false /\ Ascii.eqb "`" c = false /\
  Ascii.eqb "|" c = false /\ Ascii.eqb "!" c = false /\ Ascii.eqb ">" c = false.
Proof.
  intros H.
  destruct c as [[] [] [] [] [] [] [] []]; vm_compute in H; try discriminate;
    repeat split; reflexivity.
Qed.

Lemma parse_line_letter lines i c l blocks self :
  letter c = true ->
  parse_line lines i (c :: l) blocks self
  = (i + 1, blocks ++ [_create_text_block (c :: l)], self).
Proof.
  intros H. destruct (letter_facts c H) as (Hsp & Hd & Hdiv & Hb & E1 & E2 & E3 & E4 & E5).
  unfold parse_line. destruct (strip_cons_nonspace c l Hsp) as [y Hy]. rewrite Hy.
  change py"#" with ["#"%char]. change py"```" with ("`"%char :: py"``").
  change py"|" with ["|"%char].
  cbn [startswith]. rewrite E1, E2, E3. cbn [andb].
  unfold parse_line_tail, match_image, lit.
  change py"![" with ("!"%char :: py"["). change py">" with [">"%char].
  cbn [startswith]. rewrite E4, E5. cbn [andb].
  assert (match_bullet (c :: l) = None) as ->.
  { unfold match_bullet. destruct l; [done|]. by rewrite Hb. }
  assert (match_ordered (c :: l) = None) as ->.
  { unfold match_ordered. cbn [span]. by rewrite Hd. }
  cbn [is_some]. rewrite Hy.
  assert (match_divider (c :: y) = false) as ->.
  { unfold match_divider. cbn [span]. by rewrite Hdiv. }
  reflexivity.
Qed.

Lemma parse_loop_each (f : str -> Block) lines :
  (forall i line blocks, lines !! i = Some line ->
     parse_line lines i line blocks init = (i + 1, blocks ++ [f line], init)) ->
  forall fuel i blocks, length lines <= fuel + i ->
    parse_loop fuel lines i blocks init = Some (blocks ++ map f (drop i lines), init).
Proof.
  intros H. induction fuel as [|fuel IH]; intros i blocks Hf; cbn [parse_loop].
  - rewrite (lookup_ge_None_2 lines i) by lia. rewrite drop_ge by lia.
    by rewrite app_nil_r.
  - destruct (lines !! i) as [line|] eqn:Hi.
    + rewrite (H i line blocks Hi), IH by lia.
      rewrite (drop_S lines line i Hi). cbn [map].
      replace (i + 1) with (S i) by lia. by rewrite <- app_assoc.
    + apply lookup_ge_None_1 in Hi. rewrite drop_ge by lia. by rewrite app_nil_r.
Qed.

(** X5.  When every line of the text begins with a letter, the parser
    emits one text block per line, in order, built from the whole line:
    consecutive lines are not merged into a paragraph. *)
Theorem paragraph_lines_not_merged content :
  let lines := split_chr newline content in
  Forall (fun l => starts_with_letter l = true) lines ->
  parse content init = Some (map _create_text_block lines, init).
Proof.
  intros lines Hall. unfold parse. fold lines.
  rewrite (parse_loop_each _create_text_block); [by rewrite drop_0 | | lia].
  intros i line blocks Hi.
  pose proof (Forall_lookup_1 _ _ _ _ Hall Hi) as Hl. cbv beta in Hl.
  destruct line as [|c l]; [discriminate|]. by apply parse_line_letter.
Qed.

Lemma lstrip_fixed c s : isspace c = false -> lstrip (c :: s) = c :: s.
Proof. intros H. cbn. by rewrite H. Qed.

(** A text that neither begins nor ends with whitespace is its own strip. *)
Lemma strip_fixed a m b :
  isspace a = false -> isspace b = false -> strip (a :: m ++ [b]) = a :: m ++ [b].
Proof.
  intros Ha Hb. unfold strip, rstrip. rewrite lstrip_fixed by done.
  change (a :: m ++ [b]) with ((a :: m) ++ [b]).
  rewrite rev_app_distr. cbn [rev app]. rewrite lstrip_fixed by done.
  change (b :: rev m ++ [a]) with (rev [b] ++ rev (a :: m)).
  by rewrite <- rev_app_distr, rev_involutive.
Qed.

Lemma split_chr_no_sep (sep : ascii) (s : str) : sep ∉ s -> split_chr sep s = [s].
Proof.
  induction s as [|c s IH]; [done|]. intros Hs. cbn.
  destruct (Ascii.eqb_spec c sep) as [->|Hc]; [exfalso; apply Hs; left|].
  rewrite IH; [done|]. intros H. apply Hs. by right.
Qed.

Lemma divider_chr_facts c :
  divider_chr c = true ->
  isspace c = false /\ isdecimal c = false /\ c <> newline /\
  Ascii.eqb "#" c = false /\ Ascii.eqb "`" c = false /\
  Ascii.eqb "|" c = false /\ Ascii.eqb "!" c = false /\ Ascii.eqb ">" c = false.
Proof.
  intros H.
  destruct c as [[] [] [] [] [] [] [] []]; vm_compute in H; try discriminate;
    repeat split; try reflexivity; discriminate.
Qed.

Lemma strip_no_space s : Forall (fun c => isspace c = false) s -> strip s = s.
Proof.
  intros H. destruct s as [|a s]; [done|].
  destruct (rev s) as [|b m] eqn:E.
  - apply (f_equal (@rev _)) in E. rewrite rev_involutive in E. subst s.
    apply Forall_inv in H. unfold strip, rstrip. cbn. rewrite H. cbn. by rewrite H.
  - apply (f_equal (@rev _)) in E. rewrite rev_involutive in E. cbn in E. subst s.
    apply strip_fixed.
    + by apply Forall_inv in H.
    + apply Forall_inv_tail, Forall_app in H as [_ H]. by apply Forall_inv in H.
Qed.

(** X6.  A text of three or more characters taken from [-], [*] and [_],
    in any mixture, yields exactly one divider block. *)
Theorem divider_line line :
  forallb divider_chr line = true -> 3 <= length line ->
  parse line init = Some ([_create_divider_block], init).
Proof.
  intros Hall Hlen.
  assert (HF : Forall (fun c => divider_chr c = true) line).
  { apply Forall_forall. intros c Hc. rewrite forallb_forall in Hall.
    apply Hall. by apply list_elem_of_In. }
  assert (Hnl : newline ∉ line).
  { intros Hin. rewrite Forall_forall in HF. specialize (HF _ Hin).
    by destruct (divider_chr_facts _ HF) as (_ & _ & Hne & _). }
  unfold parse. rewrite split_chr_no_sep by done.
  apply parse_loop_one_turn; [done|]. intros l [= <-].
  assert (Hstrip : strip line = line).
  { apply strip_no_space. eapply Forall_impl; [exact HF|].
    intros c Hc. by destruct (divider_chr_facts c Hc) as (? & _). }
  destruct line as [|c [|d l]]; [cbn in Hlen; lia | cbn in Hlen; lia |].
  pose proof (Forall_inv HF) as Hc. pose proof (Forall_inv (Forall_inv_tail HF)) as Hd.
  cbv beta in Hc, Hd.
  destruct (divider_chr_facts c Hc) as (Hsp & Hdec & _ & E1 & E2 & E3 & E4 & E5).
  destruct (divider_chr_facts d Hd) as (Hspd & _).
  unfold parse_line. rewrite Hstrip.
  change py"#" with ["#"%char]. change py"```" with ("`"%char :: py"``").
  change py"|" with ["|"%char].
  cbn [startswith]. rewrite E1, E2, E3. cbn [andb].
  unfold parse_line_tail, match_image, lit.
  change py"![" with ("!"%char :: py"["). change py">" with [">"%char].
  cbn [startswith]. rewrite E4, E5. cbn [andb].
  assert (match_bullet (c :: d :: l) = None) as ->.
  { unfold match_bullet. rewrite Hspd. by rewrite andb_false_r. }
  assert (match_ordered (c :: d :: l) = None) as ->.
  { unfold match_ordered. cbn [span]. by rewrite Hdec. }
  cbn [is_some]. rewrite Hstrip.
  assert (match_divider (c :: d :: l) = true) as ->.
  { unfold match_divider. rewrite span_all by done. cbn [at_end].
    rewrite andb_true_r. apply Nat.leb_le. lia. }
  reflexivity.
Qed.

(** *** Inline formats *)

Lemma startswith_head (a c : ascii) (p s : str) :
  Ascii.eqb a c = false -> startswith (c :: s) (a :: p) = false.
Proof. intros H. cbn. by rewrite H. Qed.

Lemma match_inline_plain pos c s : markup_chr c = false -> match_inline_at pos (c :: s) = None.
Proof.
  unfold markup_chr, is_chr. intros H.
  apply orb_false_iff in H as [H H4]. apply orb_false_iff in H as [H H3].
  apply orb_false_iff in H as [H1 H2].
  unfold match_inline_at, delimited, link, lit.
  change py"**" with ("*"%char :: py"*"). change py"__" with ("_"%char :: py"_").
  change py"`" with ["`"%char]. change py"*" with ["*"%char].
  change py"_" with ["_"%char]. change py"[" with ["["%char].
  by rewrite !startswith_head.
Qed.

Lemma finditer_plain pos s :
  Forall (fun c => markup_chr c = false) s -> finditer_from 0 pos s = [].
Proof.
  intros H. revert pos. induction H as [|c s Hc _ IH]; intros pos; [done|].
  cbn [finditer_from]. by rewrite match_inline_plain, IH.
Qed.

(** X7.  A text without any of the characters that open an inline
    construct ([*], [_], the backquote and the opening bracket) becomes a
    single run without style that holds the whole text. *)
Theorem plain_text_single_run text :
  Forall (fun c => markup_chr c = false) text ->
  _create_text_elements text = [plain_run text].
Proof.
  intros H. unfold _create_text_elements, _parse_inline_formats, finditer_inline.
  rewrite finditer_plain by done. cbn [foldl]. by destruct text.
Qed.

Lemma opt_truthy_str o : opt_truthy o = true -> group_str o <> [].
Proof. destruct o as [[|c s]|]; cbn; done. Qed.

Lemma inline_step_nonempty text acc m :
  Forall (fun r => content r <> []) acc.1 ->
  Forall (fun r => content r <> []) (inline_step text acc m).1.
Proof.
  destruct acc as [elements last_end]. cbn [fst]. intros H. unfold inline_step.
  set (e1 := if last_end <? m_start m then _ else _).
  assert (H1 : Forall (fun r => content r <> []) e1).
  { subst e1. destruct (last_end <? m_start m); [|done].
    destruct (slice text last_end (m_start m)) eqn:E; cbn [truthy]; [done|].
    apply Forall_app. split; [done|]. by repeat constructor. }
  clearbody e1. cbn [fst].
  destruct (opt_truthy (group2 m)) eqn:G2.
  { cbn [orb]. apply Forall_app. split; [done|]. repeat constructor. cbn.
    unfold group_or. rewrite G2. by apply opt_truthy_str. }
  destruct (opt_truthy (group3 m)) eqn:G3.
  { cbn [orb]. apply Forall_app. split; [done|]. repeat constructor. cbn.
    unfold group_or. rewrite G2. by apply opt_truthy_str. }
  cbn [orb].
  destruct (opt_truthy (group4 m)) eqn:G4.
  { apply Forall_app. split; [done|]. repeat constructor. cbn. by apply opt_truthy_str. }
  destruct (opt_truthy (group5 m)) eqn:G5.
  { cbn [orb]. apply Forall_app. split; [done|]. repeat constructor. cbn.
    unfold group_or. rewrite G5. by apply opt_truthy_str. }
  destruct (opt_truthy (group6 m)) eqn:G6.
  { cbn [orb]. apply Forall_app. split; [done|]. repeat constructor. cbn.
    unfold group_or. rewrite G5. by apply opt_truthy_str. }
  cbn [orb].
  destruct (opt_truthy (group7 m)) eqn:G7; [|done].
  destruct (opt_truthy (group8 m)) eqn:G8; [|done].
  cbn [andb]. apply Forall_app. split; [done|]. repeat constructor. cbn.
  by apply opt_truthy_str.
Qed.

Lemma foldl_inline_step_nonempty text ms acc :
  Forall (fun r => content r <> []) acc.1 ->
  Forall (fun r => content r <> []) (foldl (inline_step text) acc ms).1.
Proof.
  revert acc. induction ms as [|m ms IH]; intros acc H; cbn [foldl]; [done|].
  apply IH. by apply inline_step_nonempty.
Qed.

(** X8.  For a text that is not empty, no run of the elements built from
    it has an empty content, whatever inline constructs the text holds. *)
Theorem runs_never_empty text :
  text <> [] -> Forall (fun r => content r <> []) (_create_text_elements text).
Proof.
  intros Hne.
  assert (H : Forall (fun r => content r <> []) (_parse_inline_formats text)).
  { unfold _parse_inline_formats.
    pose proof (foldl_inline_step_nonempty text (finditer_inline text) ([], 0)
                  (Forall_nil_2 _)) as H.
    destruct (foldl _ _ _) as [elements last_end]. cbn [fst] in H.
    set (e := if last_end <? length text then _ else _).
    assert (He : Forall (fun r => content r <> []) e).
    { subst e. destruct (last_end <? length text); [|done].
      destruct (drop last_end text) eqn:E; cbn [truthy]; [done|].
      apply Forall_app. split; [done|]. by repeat constructor. }
    clearbody e. destruct e; [by repeat constructor | done]. }
  unfold _create_text_elements. cbn [app].
  destruct (_parse_inline_formats text); [by repeat constructor | done].
Qed.

(** *** Table rows *)

Lemma split_chr_app (sep : ascii) (x rest : str) :
  sep ∉ x ->
  split_chr sep (x ++ sep :: rest) = x :: split_chr sep rest.
Proof.
  induction x as [|c x IH]; intros Hx; cbn [app split_chr].
  - by rewrite Ascii.eqb_refl.
  - destruct (Ascii.eqb_spec c sep) as [->|Hc]; [exfalso; apply Hx; left|].
    rewrite IH; [done|]. intros H. apply Hx. by right.
Qed.

Lemma split_chr_join (sep : ascii) (cells : list str) :
  cells <> [] -> Forall (fun c => sep ∉ c) cells ->
  split_chr sep (join [sep] cells) = cells.
Proof.
  intros Hne H. induction H as [|x cells Hx Hall IH]; [done|].
  destruct cells as [|y cells].
  - cbn [join]. by apply split_chr_no_sep.
  - change (join [sep] (x :: y :: cells)) with (x ++ sep :: join [sep] (y :: cells)).
    rewrite split_chr_app by done. by rewrite IH.
Qed.

(** X9.  Writing cells between column delimiters and parsing the line
    gives the cells back, each stripped, provided no cell contains the
    delimiter. *)
Theorem table_row_round_trip cells :
  cells <> [] -> Forall (fun c => "|"%char ∉ c) cells ->
  _parse_table_row (py"|" ++ join py"|" cells ++ py"|") = map strip cells.
Proof.
  intros Hne Hall. unfold _parse_table_row.
  change (py"|" ++ join py"|" cells ++ py"|") with ("|"%char :: join ["|"%char] cells ++ ["|"%char]).
  rewrite strip_fixed by done.
  change py"|" with ["|"%char]. rewrite startswith_cons. cbn [Ascii.eqb Bool.eqb].
  cbn [drop]. rewrite drop_0. unfold endswith. rewrite rev_app_distr. cbn [rev app].
  rewrite startswith_cons. cbn [Ascii.eqb Bool.eqb].
  rewrite length_app. cbn [length].
  replace (length (join ["|"%char] cells) + 1 - 1) with (length (join ["|"%char] cells)) by lia.
  rewrite take_app_length. by rewrite split_chr_join.
Qed.

(** *** Image lines *)

Lemma lazy_star_exact {R} (k : str -> option R) (g rest : str) (r : R) :
  (forall c s, c ∈ g -> k (c :: s) = None) -> newline ∉ g ->
  k rest = Some r -> lazy_star k (g ++ rest) = Some (g, r).
Proof.
  intros Hk Hnl Hr. induction g as [|c g IH]; cbn [app].
  - destruct rest; cbn [lazy_star]; by rewrite Hr.
  - cbn [lazy_star]. rewrite Hk by left.
    destruct (Ascii.eqb_spec c newline) as [->|Hc]; [exfalso; apply Hnl; left|].
    rewrite IH; [done| |].
    + intros c' s Hc'. apply Hk. by right.
    + intros H. apply Hnl. by right.
Qed.

Lemma match_image_line alt target tail :
  newline ∉ alt -> "]"%char ∉ alt -> newline ∉ target -> ")"%char ∉ target ->
  match_image (image_line alt target tail) = Some (alt, target).
Proof.
  intros Ha1 Ha2 Ht1 Ht2. unfold match_image, image_line.
  unfold lit at 1. rewrite startswith_app. rewrite drop_app_length.
  rewrite (lazy_star_exact _ alt _ (target, tail)); [done| |done|].
  - intros c s Hc. unfold lit. change py"](" with ("]"%char :: py"(").
    rewrite startswith_head; [done|].
    destruct (Ascii.eqb_spec "]" c) as [<-|]; done.
  - unfold lit at 1. rewrite startswith_app, drop_app_length.
    rewrite (lazy_star_exact _ target _ tail); [done| |done|].
    + intros c s Hc. unfold lit. change py")" with [")"%char].
      rewrite startswith_head; [done|].
      destruct (Ascii.eqb_spec ")" c) as [<-|]; done.
    + unfold lit. by rewrite startswith_app, drop_app_length.
Qed.

(** X10.  A line made of an image reference, whose alternative text has
    no closing bracket and whose target has no closing parenthesis, and of
    anything after it, yields exactly one image placeholder: it holds the
    target, flagged as remote exactly when the target starts with
    [http://] or [https://], and it is recorded at position 0 of the
    pending images.  The alternative text and the rest of the line are
    dropped. *)
Theorem image_line_placeholder alt target tail :
  newline ∉ alt -> "]"%char ∉ alt -> newline ∉ target -> ")"%char ∉ target ->
  newline ∉ tail ->
  parse (image_line alt target tail) init
  = Some ([ImagePlaceholder target (is_remote target)],
          {| pending_images := [(0, target, is_remote target)]; pending_tables := [] |}).
Proof.
  intros Ha1 Ha2 Ht1 Ht2 Htl.
  pose proof (match_image_line alt target tail Ha1 Ha2 Ht1 Ht2) as Hm.
  assert (Hnl : newline ∉ image_line alt target tail).
  { unfold image_line. rewrite !elem_of_app. intros [H|[H|[H|[H|[H|H]]]]]; try done.
    - apply list_elem_of_In in H. cbn in H. intuition discriminate.
    - apply list_elem_of_In in H. cbn in H. intuition discriminate.
    - apply list_elem_of_In in H. cbn in H. intuition discriminate. }
  unfold parse. rewrite split_chr_no_sep by done.
  apply parse_loop_one_turn; [done|]. intros l [= <-].
  unfold parse_line.
  assert (E : exists s, image_line alt target tail = "!"%char :: s) by by eexists.
  destruct E as [s E]. rewrite E in *.
  destruct (strip_cons_nonspace "!" s eq_refl) as [y ->].
  cbn [startswith Ascii.eqb Bool.eqb andb str_of list_ascii_of_string].
  unfold parse_line_tail. rewrite Hm. reflexivity.
Qed.

(** *** One turn of the loop, block by block *)

Lemma while_lines_first cond f rest l :
  rest !! 0 = Some l -> cond l = true ->
  exists n, while_lines cond f rest = (map f (take n rest), n) /\ 1 <= n <= length rest.
Proof.
  intros Hl Hc. destruct (while_lines_spec cond f rest) as (n & E & Hn & _ & Hstop).
  exists n. split; [done|]. split; [|done].
  destruct n; [|lia]. specialize (Hstop l Hl). congruence.
Qed.

(** What one turn appends: at most as many blocks as it steps over lines,
    and image placeholders only with the flag of their path; a turn that
    steps over several lines stays within the text unless it appends a
    single block. *)
Lemma parse_line_shape lines i line blocks self :
  lines !! i = Some line ->
  exists k new self',
    parse_line lines i line blocks self = (i + k, blocks ++ new, self') /\
    1 <= k /\ length new <= k /\ (length new <= 1 \/ i + k <= length lines) /\
    Forall flag_ok new.
Proof.
  intros Hi. pose proof (lookup_lt_Some _ _ _ Hi) as Hlt.
  assert (H0 : drop i lines !! 0 = Some line) by by rewrite lookup_drop, Nat.add_0_r.
  assert (Htail : exists k new self',
            parse_line_tail lines i line blocks self = (i + k, blocks ++ new, self') /\
            1 <= k /\ length new <= k /\ (length new <= 1 \/ i + k <= length lines) /\
            Forall flag_ok new).
  { unfold parse_line_tail.
    destruct (match_image line) as [[alt target]|].
    { eexists 1, _, _. cbn. split; [reflexivity|].
      repeat split; try lia; [left; cbn; lia|]. by repeat constructor. }
    destruct (startswith line py">") eqn:Hq.
    { destruct (while_lines_first (fun l => startswith l py">")
                  (fun l => strip (drop 1 l)) _ _ H0 Hq) as (n & -> & Hn1 & Hn2).
      eexists n, _, _. split; [reflexivity|]. rewrite length_drop in Hn2.
      repeat split; cbn; try lia. by repeat constructor. }
    destruct (is_some (match_bullet line)) eqn:Hb.
    { destruct (while_lines_first (fun l => is_some (match_bullet l))
                  (sub_prefix match_bullet) _ _ H0 Hb) as (n & -> & Hn1 & Hn2).
      eexists n, _, _. split; [reflexivity|]. rewrite length_drop in Hn2.
      rewrite !length_map, length_take, length_drop.
      repeat split; try lia. rewrite Forall_map. by apply Forall_true. }
    destruct (is_some (match_ordered line)) eqn:Ho.
    { destruct (while_lines_first (fun l => is_some (match_ordered l))
                  (sub_prefix match_ordered) _ _ H0 Ho) as (n & -> & Hn1 & Hn2).
      eexists n, _, _. split; [reflexivity|]. rewrite length_drop in Hn2.
      rewrite !length_map, length_take, length_drop.
      repeat split; try lia. rewrite Forall_map. by apply Forall_true. }
    destruct (match_divider (strip line)).
    { eexists 1, _, _. split; [reflexivity|].
      repeat split; cbn; try lia. by repeat constructor. }
    destruct (truthy (strip line)).
    - eexists 1, _, _. split; [reflexivity|].
      repeat split; cbn; try lia. by repeat constructor.
    - eexists 1, [], _. rewrite app_nil_r. split; [reflexivity|].
      repeat split; cbn; try lia. constructor. }
  unfold parse_line.
  destruct (startswith line py"#").
  { eexists 1, _, _. split; [reflexivity|].
    repeat split; cbn; try lia. by repeat constructor. }
  destruct (startswith line py"```").
  { destruct (while_lines (fun l => negb (startswith l py"```")) id (drop (i + 1) lines))
      as [code_lines n].
    eexists (1 + n + 1), _, _. rewrite !Nat.add_assoc. split; [reflexivity|].
    repeat split; cbn; try lia. by repeat constructor. }
  destruct (startswith (strip line) py"|" && contains (drop 1 line) py"|"); [|exact Htail].
  unfold _parse_table.
  destruct (parse_table_rows_spec (drop i lines)) as (n & Hn & Hle & _).
  pose proof (parse_table_rows_progress (drop i lines)) as Hp.
  destruct (parse_table_rows (drop i lines)) as [table_data consumed].
  cbn [fst snd] in *. subst n.
  destruct table_data as [|row table_data]; [exact Htail|].
  rewrite length_drop in Hle.
  assert (Hc : 1 <= consumed) by by apply Hp.
  eexists consumed, _, _. split; [reflexivity|].
  repeat split; cbn; try lia. by repeat constructor.
Qed.

Lemma loop_run_count lines i blocks self r :
  loop_run lines i blocks self r ->
  length blocks <= i -> length blocks <= length lines ->
  length r.1 <= length lines.
Proof.
  induction 1 as [i blocks self Hi | i line blocks self i' blocks' self' r Hi E _ IH];
    intros H1 H2; [done|].
  destruct (parse_line_shape lines i line blocks self Hi)
    as (k & new & self'' & E' & Hk & Hnew & Hor & _).
  rewrite E in E'. injection E' as -> -> ->.
  pose proof (lookup_lt_Some _ _ _ Hi) as Hlt.
  apply IH; rewrite length_app; lia.
Qed.

(** X11.  The parser never emits more blocks than the text has lines. *)
Theorem blocks_at_most_lines content :
  exists blocks self, parse content init = Some (blocks, self) /\
    length blocks <= length (split_chr newline content).
Proof.
  destruct (parse_total content init) as (blocks & self & E & Hrun).
  exists blocks, self. split; [exact E|].
  apply (loop_run_count _ _ _ _ _ Hrun); cbn; lia.
Qed.

Lemma loop_run_flag_ok lines i blocks self r :
  loop_run lines i blocks self r -> Forall flag_ok blocks -> Forall flag_ok r.1.
Proof.
  induction 1 as [i blocks self Hi | i line blocks self i' blocks' self' r Hi E _ IH];
    intros H; [done|].
  destruct (parse_line_shape lines i line blocks self Hi)
    as (k & new & self'' & E' & _ & _ & _ & Hnew).
  rewrite E in E'. injection E' as -> -> ->.
  apply IH. apply Forall_app. by split.
Qed.

(** *** The positions in the pending lists *)

Lemma increasing_snoc l n :
  increasing (l ++ [n]) = true <-> increasing l = true /\ Forall (fun a => a < n) l.
Proof.
  induction l as [|a l IH]; [cbn; split; [by split | done]|].
  destruct l as [|b l].
  - cbn [app increasing]. rewrite andb_true_r, Nat.ltb_lt. split.
    + intros H. split; [done|]. by repeat constructor.
    + intros [_ H]. by apply Forall_inv in H.
  - change (increasing ((a :: b :: l) ++ [n]))
      with ((a <? b) && increasing ((b :: l) ++ [n])).
    change (increasing (a :: b :: l)) with ((a <? b) && increasing (b :: l)).
    rewrite !andb_true_iff, IH, Nat.ltb_lt. split.
    + intros (Hab & Hinc & Hall). split; [done|]. constructor; [|done].
      apply Forall_inv in Hall. lia.
    + intros ((Hab & Hinc) & Hall). split; [done|]. split; [done|].
      by apply Forall_inv_tail in Hall.
Qed.

Lemma Forall_lt_mono (l : list nat) (n m : nat) :
  n <= m -> Forall (fun a => a < n) l -> Forall (fun a => a < m) l.
Proof. intros H Hl. eapply Forall_impl; [exact Hl|]. intros a Ha. cbn in Ha. lia. Qed.

Lemma indices_ok_app blocks self new : indices_ok blocks self -> indices_ok (blocks ++ new) self.
Proof.
  intros (H1 & H2 & H3 & H4). repeat split; try done;
    eapply Forall_lt_mono; try eassumption; rewrite length_app; lia.
Qed.

Lemma turn_indices_ok lines i line blocks self i' blocks' self' :
  turn lines i line blocks self (i', blocks', self') ->
  indices_ok blocks self -> indices_ok blocks' self'.
Proof.
  intros Ht Hok.
  inversion Ht as [Hh | n Hh Hf Hlen Hall Hstop | d c Hp Htab Hd Hc Hlen Hall
                  | p u Hp | c new Hp Hc Hlen Hall Hord]; subst; clear Ht;
    try by apply indices_ok_app.
  - destruct Hok as (O1 & O2 & O3 & O4).
    unfold indices_ok, image_indices, table_indices in *. cbn [pending_images pending_tables].
    rewrite map_app, length_app. cbn [map fst length].
    repeat split; try done.
    + by apply increasing_snoc.
    + eapply Forall_lt_mono; [|exact O3]. lia.
    + apply Forall_app. split; [eapply Forall_lt_mono; [|exact O4]; lia|].
      repeat constructor. lia.
  - destruct Hok as (O1 & O2 & O3 & O4).
    unfold indices_ok, image_indices, table_indices in *. cbn [pending_images pending_tables].
    rewrite map_app, length_app. cbn [map fst length].
    repeat split; try done.
    + by apply increasing_snoc.
    + apply Forall_app. split; [eapply Forall_lt_mono; [|exact O3]; lia|].
      repeat constructor. lia.
    + eapply Forall_lt_mono; [|exact O4]. lia.
Qed.

Lemma loop_run_indices_ok lines i blocks self r :
  loop_run lines i blocks self r -> indices_ok blocks self -> indices_ok r.1 r.2.
Proof.
  induction 1 as [i blocks self Hi | i line blocks self i' blocks' self' r Hi E _ IH];
    intros Hok; [done|].
  apply IH. eapply turn_indices_ok; [|exact Hok].
  rewrite <- E. by apply parse_line_turn.
Qed.

(** X12.  After a parse on a new parser, the positions recorded in the
    pending images go up strictly, so do those of the pending tables, all
    of them are positions of the block list, and no position is recorded
    in both lists. *)
Theorem pending_indices_increasing content :
  exists blocks self, parse content init = Some (blocks, self) /\
    increasing (image_indices self) = true /\
    increasing (table_indices self) = true /\
    Forall (fun a => a < length blocks) (image_indices self ++ table_indices self) /\
    (forall a, a ∈ image_indices self -> a ∉ table_indices self).
Proof.
  destruct (parse_total content init) as (blocks & self & E & Hrun).
  exists blocks, self. split; [exact E|].
  destruct (loop_run_indices_ok _ _ _ _ _ Hrun) as (H1 & H2 & H3 & H4); [by repeat split|].
  pose proof (loop_run_pending_ok _ _ _ _ _ Hrun pending_ok_init) as (Oa & Ob & _ & _).
  cbn [fst snd] in *.
  repeat split; try done; [by apply Forall_app|].
  intros a Ha Hb. unfold image_indices, table_indices in *.
  apply list_elem_of_fmap in Ha as ([[a' p] u] & -> & Hin).
  apply list_elem_of_fmap in Hb as ([b d] & Hab & Hin'). cbn in Hab. subst b.
  cbn in Hin'. specialize (Oa _ _ _ Hin). specialize (Ob _ _ Hin'). congruence.
Qed.

(** *** A closed fence *)

Lemma while_lines_stop cond f a x rest :
  Forall (fun l => cond l = true) a -> cond x = false ->
  while_lines cond f (a ++ x :: rest) = (map f a, length a).
Proof.
  intros Ha Hx. induction Ha as [|l a Hl _ IH]; cbn.
  - by rewrite Hx.
  - by rewrite Hl, IH.
Qed.

(** X13.  A text made of an opening fence with its tag, lines that do not
    start with the fence, and a line that starts with the fence yields
    exactly one code block: its content is the lines in between joined by
    newlines, whatever they look like, and its language is looked up from
    the stripped tag, plain text when the tag is empty.  What follows the
    fence on the closing line is dropped. *)
Theorem closed_fence_verbatim content tag body closing :
  split_chr newline content = (py"```" ++ tag) :: body ++ [closing] ->
  Forall (fun l => startswith l py"```" = false) body ->
  startswith closing py"```" = true ->
  parse content init
  = Some ([_create_code_block (join [newline] body) (py_or (strip tag) py"plain_text")],
          init).
Proof.
  intros Hlines Hbody Hclose. unfold parse. rewrite Hlines.
  apply parse_loop_one_turn; [done|]. intros l [= <-].
  unfold parse_line.
  change (startswith ("`"%char :: "`"%char :: "`"%char :: tag) py"#") with false.
  change (startswith ("`"%char :: "`"%char :: "`"%char :: tag) py"```")
    with (startswith (py"```" ++ tag) py"```").
  rewrite (startswith_app py"```" tag).
  change (drop 3 ("`"%char :: "`"%char :: "`"%char :: tag)) with tag.
  change (drop (0 + 1) ((py"```" ++ tag) :: body ++ [closing])) with (body ++ [closing]).
  rewrite (while_lines_stop _ _ body closing []).
  - rewrite map_id. cbn [length]. rewrite length_app. cbn [length].
    do 2 f_equal; try lia.
  - eapply Forall_impl; [exact Hbody|]. intros x Hx. cbv beta in *. by rewrite Hx.
  - by rewrite Hclose.
Qed.

(** *** Concrete texts *)

Lemma blank_text_witness :
  parse (py"  " ++ [newline; newline] ++ py" ") init = Some ([], init).
Proof. apply blank_text_no_blocks. vm_compute. by repeat constructor. Defined.

Lemma quote_lines_witness :
  parse (py"> a" ++ [newline] ++ py">b") init
  = Some ([Quote [plain_run (py"a" ++ [newline] ++ py"b")]], init).
Proof.
  exact (quote_lines_merge (py"> a" ++ [newline] ++ py">b")
           ltac:(vm_compute; by repeat constructor)).
Defined.

Lemma bullet_lines_witness :
  parse (py"- a" ++ [newline] ++ py"* b") init
  = Some ([Bullet [plain_run py"a"]; Bullet [plain_run py"b"]], init).
Proof.
  exact (bullet_lines_one_block_each (py"- a" ++ [newline] ++ py"* b")
           ltac:(vm_compute; by repeat constructor)).
Defined.

Lemma ordered_lines_witness :
  parse (py"1. one" ++ [newline] ++ py"7. two") init
  = Some ([Ordered [plain_run py"one"]; Ordered [plain_run py"two"]], init).
Proof.
  exact (ordered_lines_drop_numbers (py"1. one" ++ [newline] ++ py"7. two")
           [(py"1", " "%char, py"one"); (py"7", " "%char, py"two")]
           eq_refl ltac:(by repeat constructor)).
Defined.

Lemma paragraph_lines_witness :
  parse (py"Hello" ++ [newline] ++ py"World") init
  = Some ([Text [plain_run py"Hello"]; Text [plain_run py"World"]], init).
Proof.
  exact (paragraph_lines_not_merged (py"Hello" ++ [newline] ++ py"World")
           ltac:(vm_compute; by repeat constructor)).
Defined.

Lemma divider_line_witness : parse py"-*_" init = Some ([Divider], init).
Proof. exact (divider_line py"-*_" eq_refl ltac:(vm_compute; lia)). Defined.

Lemma plain_text_witness : _create_text_elements py"plain words" = [plain_run py"plain words"].
Proof. apply plain_text_single_run. vm_compute. by repeat constructor. Defined.

Lemma runs_never_empty_witness :
  Forall (fun r => content r <> []) (_create_text_elements py"a **b**").
Proof. apply runs_never_empty. discriminate. Defined.

Lemma table_row_witness : _parse_table_row py"| a |b|" = [py"a"; py"b"].
Proof.
  apply (table_row_round_trip [py" a "; py"b"]); [discriminate|].
  repeat (apply Forall_cons_2; [apply (bool_decide_unpack _); vm_compute; exact I|]).
  apply Forall_nil_2.
Defined.

Lemma image_line_witness :
  parse py"![alt](https://x/y.png) trailing" init
  = Some ([ImagePlaceholder py"https://x/y.png" true],
          {| pending_images := [(0, py"https://x/y.png", true)]; pending_tables := [] |}).
Proof.
  apply (image_line_placeholder py"alt" py"https://x/y.png" py" trailing");
    apply (bool_decide_unpack _); vm_compute; exact I.
Defined.

Lemma closed_fence_witness :
  parse (py"```Python" ++ [newline] ++ py"# note" ++ [newline] ++ py"- x" ++ [newline]
         ++ py"```") init
  = Some ([Code (py"# note" ++ [newline] ++ py"- x") 49%Z], init).
Proof.
  exact (closed_fence_verbatim
           (py"```Python" ++ [newline] ++ py"# note" ++ [newline] ++ py"- x" ++ [newline]
            ++ py"```")
           py"Python" [py"# note"; py"- x"] py"```" eq_refl
           ltac:(by repeat constructor) eq_refl).
Defined.

End LineFacts.

(** ** Table regions *)

Module TableFacts.
Import Re Parser ParserTerms EffFacts ParserFacts LineFacts.

(** *** A table line written from its cells *)

Lemma no_bar_spec (cell : str) :
  negb (existsb (is_chr "|") cell) = true -> "|"%char ∉ cell.
Proof.
  intros H Hin. apply negb_true_iff in H.
  assert (existsb (is_chr "|") cell = true); [|congruence].
  apply existsb_exists. exists "|"%char. split; [by apply list_elem_of_In | done].
Qed.

Lemma row_ok_spec (cells : list str) :
  row_ok cells = true -> cells <> [] /\ Forall (fun c => "|"%char ∉ c) cells.
Proof.
  unfold row_ok. destruct cells as [|c cells]; [discriminate|]. intros H.
  split; [done|]. apply Forall_forall. intros x Hx.
  rewrite forallb_forall in H. apply no_bar_spec, H. by apply list_elem_of_In.
Qed.

Lemma strip_row_line (cells : list str) : strip (row_line cells) = row_line cells.
Proof.
  unfold row_line.
  change (py"|" ++ join py"|" cells ++ py"|")
    with ("|"%char :: join ["|"%char] cells ++ ["|"%char]).
  by apply strip_fixed.
Qed.

Lemma parse_row_line (cells : list str) :
  row_ok cells = true -> _parse_table_row (row_line cells) = map strip cells.
Proof.
  intros [Hne Hall]%row_ok_spec. unfold _parse_table_row.
  rewrite strip_row_line. unfold row_line.
  change (py"|" ++ join py"|" cells ++ py"|")
    with ("|"%char :: join ["|"%char] cells ++ ["|"%char]).
  change py"|" with ["|"%char]. rewrite startswith_cons. cbn [Ascii.eqb Bool.eqb].
  cbn [drop]. rewrite drop_0. unfold endswith. rewrite rev_app_distr. cbn [rev app].
  rewrite startswith_cons. cbn [Ascii.eqb Bool.eqb].
  rewrite length_app. cbn [length].
  replace (length (join ["|"%char] cells) + 1 - 1) with (length (join ["|"%char] cells)) by lia.
  rewrite take_app_length. by rewrite split_chr_join.
Qed.

Lemma contains_app (a sub tail : str) : contains (a ++ sub ++ tail) sub = true.
Proof.
  induction a as [|c a IH]; cbn [app].
  - destruct (sub ++ tail) eqn:E; cbn [contains]; rewrite <- E, startswith_app; done.
  - cbn [contains]. rewrite IH. by rewrite orb_true_r.
Qed.

Lemma row_line_guard (cells : list str) :
  startswith (strip (row_line cells)) py"|" && contains (drop 1 (row_line cells)) py"|"
  = true.
Proof.
  rewrite strip_row_line. unfold row_line.
  rewrite (startswith_app py"|"). cbn [andb].
  change (drop 1 (py"|" ++ join py"|" cells ++ py"|")) with (join py"|" cells ++ py"|" ++ []).
  apply contains_app.
Qed.

(** The loop of [_parse_table] on a region written from [rows], followed
    by nothing or by a line that is not a table line. *)
Lemma parse_table_rows_region (rows : list (list str)) (rest : list str) :
  forallb row_ok rows = true ->
  (forall l, head rest = Some l -> startswith (strip l) py"|" = false) ->
  parse_table_rows (map row_line rows ++ rest) = (data_rows rows, length rows).
Proof.
  intros Hok Hrest. induction rows as [|cells rows IH].
  - cbn [map app length]. unfold data_rows. cbn [map]. rewrite filter_nil.
    destruct rest as [|l rest]; [done|]. cbn [parse_table_rows].
    by rewrite (Hrest l eq_refl).
  - cbn [forallb] in Hok. apply andb_true_iff in Hok as [Hc Hok].
    cbn [map app parse_table_rows length].
    rewrite strip_row_line. unfold row_line at 1. rewrite (startswith_app py"|").
    cbn [negb]. rewrite parse_row_line by done.
    destruct (row_ok_spec cells Hc) as [Hne _].
    destruct (map strip cells) as [|x xs] eqn:E.
    { by destruct cells. }
    rewrite (IH Hok). rewrite <- E, separator_row_stripped.
    unfold data_rows. cbn [map]. rewrite filter_cons.
    destruct (alignment_row (map strip cells)) eqn:Ha.
    + by rewrite decide_False by discriminate.
    + by rewrite decide_True by done.
Qed.

(** One turn of the loop at the first line of such a region. *)
Lemma region_turn (lines : list str) (i : nat) (line : str) (rows : list (list str))
    (rest : list str) (blocks : list Block) (self : MarkdownParser) :
  lines !! i = Some line ->
  drop i lines = map row_line rows ++ rest ->
  forallb row_ok rows = true ->
  (forall l, head rest = Some l -> startswith (strip l) py"|" = false) ->
  data_rows rows <> [] ->
  parse_line lines i line blocks self
  = (i + length rows,
     blocks ++ [TablePlaceholder (data_rows rows) (length (data_rows rows))
                  (max_row_len (data_rows rows))],
     {| pending_images := pending_images self;
        pending_tables := pending_tables self ++ [(length blocks, data_rows rows)] |}).
Proof.
  intros Hi Hdrop Hok Hrest Hdata.
  destruct rows as [|cells rows]; [done|].
  assert (Hline : line = row_line cells).
  { pose proof (lookup_drop lines i 0) as H0. rewrite Nat.add_0_r, Hi, Hdrop in H0.
    change (Some (row_line cells) = Some line) in H0. by injection H0. }
  subst line. unfold parse_line.
  assert (H1 : startswith (row_line cells) py"#" = false) by reflexivity.
  assert (H2 : startswith (row_line cells) py"```" = false) by reflexivity.
  rewrite H1, H2, row_line_guard. unfold _parse_table. rewrite Hdrop.
  rewrite (parse_table_rows_region (cells :: rows) rest Hok Hrest).
  destruct (data_rows (cells :: rows)) as [|d ds] eqn:E; [done|].
  reflexivity.
Qed.

(** *** Runs of the loop *)

Lemma loop_run_det lines i blocks self r r' :
  loop_run lines i blocks self r -> loop_run lines i blocks self r' -> r = r'.
Proof.
  intros H. revert r'.
  induction H as [i blocks self Hi | i line blocks self i' blocks' self' r Hi E _ IH];
    intros r' H'.
  - inversion H' as [? ? ? Hi' | ? line' ? ? ? ? ? ? Hi' E' H'']; subst; [done|congruence].
  - inversion H' as [? ? ? Hi' | ? line' ? ? j' b' s' ? Hi' E' H'']; subst; [congruence|].
    assert (line' = line) by congruence. subst line'.
    rewrite E in E'. injection E' as <- <- <-. by apply IH.
Qed.

(** Lines that begin with a letter are stepped over one by one. *)
Lemma loop_run_letters lines seg rest i blocks self r :
  drop i lines = seg ++ rest ->
  Forall (fun l => starts_with_letter l = true) seg ->
  loop_run lines (i + length seg) (blocks ++ map _create_text_block seg) self r ->
  loop_run lines i blocks self r.
Proof.
  revert i blocks. induction seg as [|l seg IH]; intros i blocks Hdrop Hall Hrun.
  - cbn in Hrun. by rewrite Nat.add_0_r, app_nil_r in Hrun.
  - pose proof (Forall_inv Hall) as Hl. pose proof (Forall_inv_tail Hall) as Hall'.
    cbv beta in Hl. destruct l as [|c l]; [discriminate|].
    assert (Hi : lines !! i = Some (c :: l)).
    { pose proof (lookup_drop lines i 0) as H0. rewrite Nat.add_0_r, Hdrop in H0.
      symmetry. exact H0. }
    eapply loop_turn; [exact Hi | by apply parse_line_letter |].
    apply (IH (i + 1)); [|done|].
    + rewrite <- drop_drop, Hdrop. reflexivity.
    + cbn [length map] in Hrun. rewrite <- app_assoc. cbn [app].
      replace (i + 1 + length seg) with (i + S (length seg)) by lia. exact Hrun.
Qed.

(** C4.  A table region yields the grid of its data rows, and nothing
    else can be in a grid.

    (1) For every text and every table placeholder that [parse] emits: no
    row of its grid is an alignment row (all cells made of dashes and
    colons only), its row count is the length of the grid, and its column
    count is the greatest number of cells of a row of the grid, attained
    by some row.

    (2) Whenever the loop of [parse] stands at the first line of a region
    written from the cell lists [rows], followed by the end of the text or
    by a line that is not a table line, and some row is not an alignment
    row, that turn steps over the whole region and appends one table
    placeholder whose grid is [data_rows rows]: the stripped cells of the
    rows in their order, the alignment rows left out, every other row
    kept; it records the grid at the position of the placeholder.

    (3) A text made of paragraph lines, such a region and paragraph lines
    yields the paragraphs and, between them, that one placeholder, with
    the grid recorded in the pending tables at its position. *)
Theorem table_grid_drops_alignment_row :
  (forall content, exists blocks self,
     parse content init = Some (blocks, self) /\
     forall d r c, TablePlaceholder d r c ∈ blocks ->
       Forall (fun row => alignment_row row = false) d /\
       r = length d /\
       (forall row, row ∈ d -> length row <= c) /\
       (exists row, row ∈ d /\ length row = c)) /\
  (forall lines i line rows rest blocks self,
     lines !! i = Some line ->
     drop i lines = map row_line rows ++ rest ->
     forallb row_ok rows = true ->
     (forall l, head rest = Some l -> startswith (strip l) py"|" = false) ->
     data_rows rows <> [] ->
     parse_line lines i line blocks self
     = (i + length rows,
        blocks ++ [TablePlaceholder (data_rows rows) (length (data_rows rows))
                     (max_row_len (data_rows rows))],
        {| pending_images := pending_images self;
           pending_tables := pending_tables self ++ [(length blocks, data_rows rows)] |})) /\
  (forall content before rows after,
     split_chr newline content = before ++ map row_line rows ++ after ->
     Forall (fun l => starts_with_letter l = true) before ->
     Forall (fun l => starts_with_letter l = true) after ->
     forallb row_ok rows = true ->
     data_rows rows <> [] ->
     parse content init
     = Some (map _create_text_block before
             ++ [TablePlaceholder (data_rows rows) (length (data_rows rows))
                   (max_row_len (data_rows rows))]
             ++ map _create_text_block after,
             {| pending_images := [];
                pending_tables := [(length before, data_rows rows)] |}) /\
     Forall (fun row => alignment_row row = false) (data_rows rows) /\
     (forall cells, cells ∈ rows -> alignment_row (map strip cells) = false ->
        map strip cells ∈ data_rows rows) /\
     (forall cells, cells ∈ rows -> length cells <= max_row_len (data_rows rows) \/
                                    alignment_row (map strip cells) = true) /\
     (exists row, row ∈ data_rows rows /\ length row = max_row_len (data_rows rows))).
Proof.
  split; [|split].
  - intros content.
    destruct (emitted_grids content) as (blocks & self & E & H).
    exists blocks, self. split; [exact E|]. intros d r c Hin.
    destruct (H d r c Hin) as (H1 & _ & H3 & H4 & H5). by repeat split.
  - intros. by eapply region_turn.
  - intros content before rows after Hlines Hbefore Hafter Hok Hdata.
    destruct (max_row_len_spec (data_rows rows)) as [Hmax1 Hmax2].
    split; [|split; [|split; [|split]]].
    + destruct (parse_total content init) as (blocks & self & E & Hrun).
      rewrite E. f_equal. rewrite Hlines in Hrun.
      set (lines := before ++ map row_line rows ++ after) in *.
      set (table := TablePlaceholder (data_rows rows) (length (data_rows rows))
                      (max_row_len (data_rows rows))).
      apply (loop_run_det _ _ _ _ _ _ Hrun).
      apply (loop_run_letters lines before (map row_line rows ++ after) 0 [] init);
        [by rewrite drop_0 | done |].
      cbn [plus app].
      assert (Hdrop : drop (length before) lines = map row_line rows ++ after).
      { subst lines. by rewrite drop_app_length. }
      assert (Hrows : rows <> []) by (intros ->; by apply Hdata).
      assert (Hline : exists line, lines !! length before = Some line).
      { apply lookup_lt_is_Some_2. subst lines. rewrite !length_app, length_map.
        destruct rows; [done|]. cbn [length]. lia. }
      destruct Hline as [line Hline].
      eapply loop_turn; [exact Hline | |].
      { apply (region_turn lines _ line rows after); try done.
        intros l Hl. destruct after as [|a after]; [discriminate|].
        injection Hl as <-. pose proof (Forall_inv Hafter) as Ha. cbv beta in Ha.
        destruct a as [|c a]; [discriminate|]. cbn in Ha.
        destruct (letter_facts c Ha) as (Hsp & _ & _ & _ & _ & _ & Hbar & _).
        destruct (strip_cons_nonspace c a Hsp) as [y ->].
        change py"|" with ["|"%char]. by rewrite startswith_cons. }
      cbn [pending_images pending_tables init app]. rewrite length_map.
      apply (loop_run_letters lines after [] (length before + length rows)).
      * rewrite <- drop_drop, Hdrop, app_nil_r.
        rewrite <- (length_map row_line rows). by rewrite drop_app_length.
      * done.
      * rewrite <- !app_assoc. cbn [app]. apply loop_exit.
        apply lookup_ge_None_2. subst lines. rewrite !length_app, length_map. lia.
    + unfold data_rows. apply Forall_forall. by intros row [? _]%list_elem_of_filter.
    + intros cells Hin Ha. unfold data_rows. apply list_elem_of_filter. split; [done|].
      by apply list_elem_of_fmap_2.
    + intros cells Hin. destruct (alignment_row (map strip cells)) eqn:Ha; [by right|].
      left. rewrite <- (length_map strip cells). apply Hmax1.
      unfold data_rows. apply list_elem_of_filter. split; [done|].
      by apply list_elem_of_fmap_2.
    + by apply Hmax2.
Qed.

Import Samples MoreSamples.

(** *** A concrete table *)

Lemma table_region_witness :
  parse table_text init
  = Some ([Text [plain_run py"intro"];
           TablePlaceholder [[py"a"; py"b"; py"c"]; [py"1"; py"2"]] 2 3;
           Text [plain_run py"end"]],
          {| pending_images := [];
             pending_tables := [(1, [[py"a"; py"b"; py"c"]; [py"1"; py"2"]])] |}).
Proof.
  destruct table_grid_drops_alignment_row as (_ & _ & H).
  destruct (H table_text [py"intro"] table_rows [py"end"] eq_refl
              ltac:(by repeat constructor) ltac:(by repeat constructor) eq_refl
              ltac:(vm_compute; discriminate)) as [E _].
  exact E.
Defined.

End TableFacts.

(** ** Requests that fail, and the cells of a table *)

Module ServiceFacts.
Import Parser Http DocWriter TableCells EffFacts ClientFacts.

(** *** Requests that are not accepted *)

Lemma send_json_rejected server w r :
  api_code (server (requests w) r) = None -> send_json server r w = (Raised, sent w [r]).
Proof.
  unfold api_code, send_json, send, mbind, M_bind, mret, M_ret, raise, sent.
  destruct (status_ok _); [|done]. by destruct (json _).
Qed.

Lemma reply_shift server document_id block_id w c0 cs i :
  reply server document_id block_id (sent w [PostChildren document_id block_id c0]) cs i
  = reply server document_id block_id w (c0 :: cs) (S i).
Proof.
  unfold reply. cbn. destruct (cs !! i); [|done]. cbn. by rewrite <- app_assoc.
Qed.

Lemma append_batches_raise server document_id block_id blocks starts w :
  let post := PostChildren document_id block_id in
  let cs := map (fun i => slice blocks i (i + batch_size)) starts in
  forall j, j < length cs ->
    (forall i, i < j ->
       api_code <$> reply server document_id block_id w cs i = Some (Some 0%Z)) ->
    api_code <$> reply server document_id block_id w cs j = Some None ->
    append_batches server document_id block_id blocks starts w
    = (Raised, sent w (map post (take (S j) cs))).
Proof.
  intros post. subst post. cbv zeta. revert w.
  induction starts as [|s starts IH]; intros w j Hj Hbefore Hfail.
  - cbn in Hj. lia.
  - cbn [map] in *.
    set (c0 := slice blocks s (s + batch_size)) in *.
    set (cs := map (fun i => slice blocks i (i + batch_size)) starts) in *.
    destruct j as [|j].
    + cbn in Hfail. injection Hfail as Hfail. rewrite app_nil_r in Hfail.
      cbn [append_batches]. fold c0. unfold mbind, M_bind.
      by rewrite send_json_rejected.
    + pose proof (Hbefore 0 ltac:(lia)) as H0. cbn in H0.
      injection H0 as H0. rewrite app_nil_r in H0.
      destruct (send_json_code server w _ 0%Z H0) as (items & E).
      cbn [append_batches]. fold c0. unfold mbind, M_bind.
      rewrite E. cbn [Z.eqb negb].
      rewrite (IH _ j).
      * by rewrite sent_sent.
      * cbn in Hj. fold cs. lia.
      * intros i Hi. fold cs. rewrite reply_shift. apply Hbefore. lia.
      * fold cs. by rewrite reply_shift.
Qed.

(** X14.  When batch [j] of [append_blocks] is the first one that gets an
    error status or a body that is not JSON, the batches before it having
    been answered with code 0, the call raises (it does not return
    [False]); the batches 0 to [j] have been sent and no later one. *)
Theorem append_blocks_raises_on_rejected_batch (server : Server)
    (document_id block_id : str) (blocks : list Block) (w : World) (j : nat) :
  let post := PostChildren document_id block_id in
  let cs := chunks blocks in
  j < length cs ->
  (forall i, i < j ->
     api_code <$> reply server document_id block_id w cs i = Some (Some 0%Z)) ->
  api_code <$> reply server document_id block_id w cs j = Some None ->
  append_blocks server document_id block_id blocks w
  = (Raised, sent w (map post (take (S j) cs))).
Proof.
  intros post cs Hj Hbefore Hfail. destruct blocks as [|b blocks].
  - cbn in Hj. lia.
  - unfold append_blocks. by apply append_batches_raise.
Qed.

(** X15.  When the request for the cells of the table is not answered
    with code 0 (an error status, a body that is not JSON, or another
    code), [fill_table] returns [False] without raising, and that request
    is the only one it sends: no cell is written. *)
Theorem fill_table_fetch_failure (server : Server) (document_id table_block_id : str)
    (table_data : list (list str)) (w : World) :
  api_code (server (requests w) (GetChildren document_id table_block_id)) <> Some 0%Z ->
  fill_table server document_id table_block_id table_data w
  = (Returned false, sent w [GetChildren document_id table_block_id]).
Proof.
  intros H. unfold fill_table, try_except.
  destruct (api_code (server (requests w) (GetChildren document_id table_block_id)))
    as [code|] eqn:E.
  - destruct (send_json_code server w _ code E) as (items & Es).
    erewrite bind_run; [|exact Es].
    cbv beta iota. destruct (Z.eqb_spec code 0) as [->|Hne]; [congruence|]. reflexivity.
  - unfold mbind, M_bind. by rewrite send_json_rejected.
Qed.

(** *** [get_table_cells] *)

Lemma send_json_accepted server w r a :
  accepted (server (requests w) r) = Some a ->
  send_json server r w = (Returned a, sent w [r]).
Proof.
  unfold accepted, send_json, send, mbind, M_bind, mret, M_ret, sent.
  destruct (status_ok _); [|discriminate]. cbn. by intros ->.
Qed.

Lemma send_json_not_accepted server w r :
  accepted (server (requests w) r) = None ->
  send_json server r w = (Raised, sent w [r]).
Proof.
  unfold accepted, send_json, send, mbind, M_bind, mret, M_ret, raise, sent.
  destruct (status_ok _); [|done]. cbn. by intros ->.
Qed.

Lemma row_reply_shift server document_id w row rows i :
  row_reply server document_id (sent w [row_request document_id row]) rows i
  = row_reply server document_id w (row :: rows) (S i).
Proof.
  unfold row_reply. cbn. destruct (rows !! i); [|done]. cbn. by rewrite <- app_assoc.
Qed.

Lemma row_cells_spec server document_id rows answers cells w :
  length answers = length rows ->
  (forall i a, answers !! i = Some a ->
     accepted <$> row_reply server document_id w rows i = Some (Some a)) ->
  row_cells server document_id rows cells w
  = (Returned (cells ++ concat (map kept answers)),
     sent w (map (row_request document_id) rows)).
Proof.
  revert answers cells w.
  induction rows as [|row rows IH]; intros answers cells w Hlen Hall.
  - destruct answers; [|discriminate]. cbn. by rewrite app_nil_r, sent_nil.
  - destruct answers as [|a answers]; [discriminate|].
    pose proof (Hall 0 a eq_refl) as H0. cbn in H0. injection H0 as H0.
    rewrite app_nil_r in H0.
    cbn [row_cells]. erewrite bind_run; [|by apply send_json_accepted].
    destruct a as [code items].
    rewrite (IH answers).
    + rewrite sent_sent. cbn [map concat]. unfold kept at 2. cbn [fst snd].
      destruct (code =? 0)%Z; [by rewrite <- app_assoc | done].
    + cbn in Hlen. lia.
    + intros i a' Ha.
      change (GetChildren document_id (fmt_id (block_id row)))
        with (row_request document_id row).
      rewrite row_reply_shift. by apply Hall.
Qed.

Lemma row_cells_raise server document_id rows cells w j :
  j < length rows ->
  (forall i, i < j ->
     exists a, accepted <$> row_reply server document_id w rows i = Some (Some a)) ->
  accepted <$> row_reply server document_id w rows j = Some None ->
  row_cells server document_id rows cells w
  = (Raised, sent w (map (row_request document_id) (take (S j) rows))).
Proof.
  revert cells w j.
  induction rows as [|row rows IH]; intros cells w j Hj Hbefore Hfail.
  - cbn in Hj. lia.
  - destruct j as [|j].
    + cbn in Hfail. injection Hfail as Hfail. rewrite app_nil_r in Hfail.
      cbn [row_cells]. unfold mbind, M_bind.
      by rewrite send_json_not_accepted.
    + destruct (Hbefore 0 ltac:(lia)) as [a H0]. cbn in H0. injection H0 as H0.
      rewrite app_nil_r in H0.
      cbn [row_cells]. erewrite bind_run; [|by apply send_json_accepted].
      destruct a as [code items].
      rewrite (IH _ _ j).
      * by rewrite sent_sent.
      * cbn in Hj. lia.
      * intros i Hi.
        change (GetChildren document_id (fmt_id (block_id row)))
          with (row_request document_id row).
        rewrite row_reply_shift. apply Hbefore. lia.
      * change (GetChildren document_id (fmt_id (block_id row)))
          with (row_request document_id row).
        by rewrite row_reply_shift.
Qed.

(** X16.  When the table lists its rows with code 0 and every request for
    the children of a row is accepted, [get_table_cells] asks for the rows
    one after the other, in their order, and returns the cells of the rows
    answered with code 0, in the order of the rows; the cells of a row
    answered with another code are left out. *)
Theorem get_table_cells_in_row_order (server : Server) (document_id table_block_id : str)
    (w : World) (rows : list Item) (answers : list (Z * list Item)) :
  let fetch := GetChildren document_id table_block_id in
  accepted (server (requests w) fetch) = Some (0%Z, rows) ->
  length answers = length rows ->
  (forall i a, answers !! i = Some a ->
     accepted <$> row_reply server document_id (sent w [fetch]) rows i = Some (Some a)) ->
  get_table_cells server document_id table_block_id w
  = (Returned (concat (map kept answers)),
     sent w (fetch :: map (row_request document_id) rows)).
Proof.
  intros fetch Hf Hlen Hall. unfold get_table_cells, try_except.
  erewrite bind_run; [|by apply send_json_accepted]. cbn [Z.eqb negb].
  rewrite (row_cells_spec _ _ _ answers) by done.
  by rewrite sent_sent.
Qed.

(** X17.  When the request for row [j] is the first one that gets an error
    status or a body that is not JSON, [get_table_cells] returns the empty
    list, not the cells gathered from the rows before, and asks for no
    later row. *)
Theorem get_table_cells_all_or_nothing (server : Server)
    (document_id table_block_id : str) (w : World) (rows : list Item) (j : nat) :
  let fetch := GetChildren document_id table_block_id in
  accepted (server (requests w) fetch) = Some (0%Z, rows) ->
  j < length rows ->
  (forall i, i < j ->
     exists a, accepted <$> row_reply server document_id (sent w [fetch]) rows i
               = Some (Some a)) ->
  accepted <$> row_reply server document_id (sent w [fetch]) rows j = Some None ->
  get_table_cells server document_id table_block_id w
  = (Returned [],
     sent w (fetch :: map (row_request document_id) (take (S j) rows))).
Proof.
  intros fetch Hf Hj Hbefore Hfail. unfold get_table_cells, try_except.
  erewrite bind_run; [|by apply send_json_accepted]. cbn [Z.eqb negb].
  rewrite (row_cells_raise _ _ _ _ _ j) by done.
  by rewrite sent_sent.
Qed.

Import Samples MoreSamples.

(** *** Concrete services *)

Lemma append_blocks_raises_witness :
  append_blocks dropping_server py"doc" py"doc" (replicate 120 Divider) empty_world
  = (Raised,
     sent empty_world
       [PostChildren py"doc" py"doc" (replicate 50 Divider);
        PostChildren py"doc" py"doc" (replicate 50 Divider)]).
Proof.
  refine (append_blocks_raises_on_rejected_batch dropping_server py"doc" py"doc"
            (replicate 120 Divider) empty_world 1 _ _ _).
  - vm_compute. lia.
  - intros i Hi. destruct i; [vm_compute; reflexivity | lia].
  - vm_compute. reflexivity.
Defined.

Lemma fill_table_fetch_failure_witness :
  fill_table down_server py"doc" py"tbl" sample_grid empty_world
  = (Returned false, sent empty_world [GetChildren py"doc" py"tbl"]).
Proof.
  apply fill_table_fetch_failure. vm_compute. discriminate.
Defined.

Lemma get_table_cells_witness :
  get_table_cells rows_server py"doc" py"tbl" empty_world
  = (Returned [cell "c0"; cell "c1"],
     sent empty_world
       [GetChildren py"doc" py"tbl"; GetChildren py"doc" py"r0"; GetChildren py"doc" py"r1"]).
Proof.
  refine (get_table_cells_in_row_order rows_server py"doc" py"tbl" empty_world
            [cell "r0"; cell "r1"]
            [(0%Z, [cell "c0"; cell "c1"]); (1%Z, [cell "c2"])] eq_refl eq_refl _).
  intros i a Ha. destruct i as [|[|i]]; cbn in Ha; try discriminate;
    injection Ha as <-; vm_compute; reflexivity.
Defined.

Lemma get_table_cells_nothing_witness :
  get_table_cells broken_row_server py"doc" py"tbl" empty_world
  = (Returned [],
     sent empty_world
       [GetChildren py"doc" py"tbl"; GetChildren py"doc" py"r0"; GetChildren py"doc" py"r1"]).
Proof.
  refine (get_table_cells_all_or_nothing broken_row_server py"doc" py"tbl" empty_world
            [cell "r0"; cell "r1"] 1 eq_refl _ _ eq_refl).
  - vm_compute. lia.
  - intros i Hi. destruct i; [|lia]. eexists. vm_compute. reflexivity.
Defined.

End ServiceFacts.

(** ** Clearing a document *)

Module CleanupFacts.
Import Cleanup EffFacts.

Section Deleting.
Variable server : Server.
Variable document_id : str.

Lemma doomed_cons block blocks :
  doomed document_id (block :: blocks)
  = match Http.block_id block with
    | Some id =>
        if truthy id && negb (str_eqb id document_id)
        then id :: doomed document_id blocks else doomed document_id blocks
    | None => doomed document_id blocks
    end.
Proof.
  unfold doomed. cbn [omap list_omap]. destruct (Http.block_id block) as [id|]; [|done].
  by destruct (truthy id && negb (str_eqb id document_id)).
Qed.

Lemma doomed_not_root blocks :
  Forall (fun id => id <> document_id /\ id <> []) (doomed document_id blocks).
Proof.
  induction blocks as [|block blocks IH]; [constructor|].
  rewrite doomed_cons. destruct (Http.block_id block) as [id|]; [|done].
  destruct (truthy id && negb (str_eqb id document_id)) eqn:E; [|done].
  constructor; [|done]. apply andb_true_iff in E as [E1 E2].
  apply negb_true_iff in E2. unfold str_eqb in E2. apply bool_decide_eq_false in E2.
  split; [done|]. by destruct id.
Qed.

(** Whatever the service does, the loop sends deletions for a prefix of
    the doomed identifiers, in their order. *)
Lemma delete_blocks_prefix blocks log :
  exists res ids,
    delete_blocks server document_id blocks log
    = (res, log ++ map (DeleteBlock document_id) ids) /\
    ids `prefix_of` doomed document_id blocks.
Proof.
  revert log. induction blocks as [|block blocks IH]; intros log.
  - exists (Returned tt), []. cbn. rewrite app_nil_r. split; [done|]. by exists [].
  - cbn [delete_blocks]. rewrite doomed_cons.
    destruct (Http.block_id block) as [id|].
    2:{ rewrite mret_bind. apply IH. }
    destruct (truthy id && negb (str_eqb id document_id)).
    2:{ rewrite mret_bind. apply IH. }
    unfold mbind at 1 2, M_bind, request.
    destruct (server log (DeleteBlock document_id id)) as [|ok body].
    + exists Raised, [id]. split; [done|]. by apply prefix_cons, prefix_nil.
    + destruct (IH (log ++ [DeleteBlock document_id id])) as (res & ids & E & Hp).
      exists res, (id :: ids). unfold mret, M_ret. rewrite E.
      split; [by rewrite <- app_assoc | by apply prefix_cons].
Qed.

Lemma delete_reply_shift log id ids j :
  delete_reply server document_id (log ++ [DeleteBlock document_id id]) ids j
  = delete_reply server document_id log (id :: ids) (S j).
Proof.
  unfold delete_reply. cbn. destruct (ids !! j); [|done]. cbn. by rewrite <- app_assoc.
Qed.

Lemma delete_blocks_all blocks log :
  (forall j, delete_reply server document_id log (doomed document_id blocks) j
             <> Some no_response) ->
  delete_blocks server document_id blocks log
  = (Returned tt, log ++ map (DeleteBlock document_id) (doomed document_id blocks)).
Proof.
  revert log. induction blocks as [|block blocks IH]; intros log Hall.
  - cbn. by rewrite app_nil_r.
  - cbn [delete_blocks]. rewrite doomed_cons in *.
    destruct (Http.block_id block) as [id|].
    2:{ rewrite mret_bind. by apply IH. }
    destruct (truthy id && negb (str_eqb id document_id)).
    2:{ rewrite mret_bind. by apply IH. }
    pose proof (Hall 0) as H0. cbn in H0. rewrite app_nil_r in H0.
    unfold mbind at 1 2, M_bind, request.
    destruct (server log (DeleteBlock document_id id)) as [|ok body]; [done|].
    unfold mret at 1, M_ret. rewrite IH.
    + cbn [map]. by rewrite <- app_assoc.
    + intros j. rewrite delete_reply_shift. apply Hall.
Qed.

End Deleting.

(** X18.  Whatever the service answers, [delete_document_content] sends
    the listing of the blocks and then only deletions of blocks of that
    document whose identifier is not empty and is not the identifier of
    the document: the root block is never deleted. *)
Theorem delete_never_touches_root (server : Server) (document_id : str)
    (log : list Request) :
  exists res ids,
    delete_document_content server document_id log
    = (res, log ++ ListBlocks document_id :: map (DeleteBlock document_id) ids) /\
    Forall (fun id => id <> document_id /\ id <> []) ids.
Proof.
  unfold delete_document_content, mbind, M_bind, request.
  destruct (server log (ListBlocks document_id)) as [|ok body].
  { exists Raised, []. split; [done | constructor]. }
  destruct ok; cbn [negb].
  2:{ exists Raised, []. split; [done | constructor]. }
  destruct body as [[code blocks]|].
  2:{ exists Raised, []. split; [done | constructor]. }
  destruct (negb (code =? 0)%Z).
  { exists (Returned false), []. split; [done | constructor]. }
  destruct (delete_blocks_prefix server document_id blocks (log ++ [ListBlocks document_id]))
    as (res & ids & E & [rest Hp]).
  rewrite E, <- app_assoc. cbn [app].
  pose proof (doomed_not_root document_id blocks) as Hd. rewrite Hp in Hd.
  apply Forall_app in Hd as [Hd _].
  destruct res as [|[]]; eexists _, ids; split; done.
Qed.

(** X19.  When the listing is answered with code 0 and every deletion
    gets some response, [delete_document_content] returns [True] and has
    sent, after the listing, one deletion for each block that has an
    identifier other than the one of the document, in the order of the
    listing; the status of the deletions does not matter. *)
Theorem delete_ignores_delete_status (server : Server) (document_id : str)
    (log : list Request) (blocks : list Http.Item) :
  server log (ListBlocks document_id) = response true (Some (0%Z, blocks)) ->
  (forall j, delete_reply server document_id (log ++ [ListBlocks document_id])
               (doomed document_id blocks) j <> Some no_response) ->
  delete_document_content server document_id log
  = (Returned true,
     log ++ ListBlocks document_id
         :: map (DeleteBlock document_id) (doomed document_id blocks)).
Proof.
  intros Hl Hall. unfold delete_document_content, mbind, M_bind, request.
  rewrite Hl. cbn [negb Z.eqb].
  rewrite delete_blocks_all by done. unfold mret, M_ret.
  by rewrite <- app_assoc.
Qed.

Import Samples MoreSamples.

Lemma delete_ignores_status_witness :
  delete_document_content listing_server py"doc" []
  = (Returned true,
     [ListBlocks py"doc"; DeleteBlock py"doc" py"b1"; DeleteBlock py"doc" py"b2"]).
Proof.
  refine (delete_ignores_delete_status listing_server py"doc" []
            [cell "doc"; cell "b1"; {| Http.block_id := None |}; cell ""; cell "b2"]
            eq_refl _).
  intros j. destruct j as [|[|j]]; vm_compute; discriminate.
Defined.

End CleanupFacts.

(** ** Downloads that fail, and local paths *)

Module ResolveFacts.
Import Parser ParserTerms Http Uploader Resolve EffFacts ParserFacts LineFacts.

(** X20.  [download_from_url] returns [None] without a request when the
    URL cannot be parsed.  When the cache has no file for the URL and the
    download gets an error status, it returns [None] after that one
    request and writes no file; the failure is not remembered, so that the
    next resolution of the same URL sends the request again and, if it
    then succeeds, returns the cache path. *)
Theorem download_failure_not_cached
    (urlparse_path : str -> option str) (splitext_ext md5_hexdigest : str -> str)
    (TEMP_IMAGE_DIR : str) (server : Server) (url : str) (w : World) :
  let download := download_from_url urlparse_path splitext_ext md5_hexdigest
                    TEMP_IMAGE_DIR server in
  (urlparse_path url = None -> download url w = (Returned None, w)) /\
  (forall p,
     let path := cache_path TEMP_IMAGE_DIR (cache_filename splitext_ext md5_hexdigest url p) in
     urlparse_path url = Some p ->
     files w !! path = None ->
     status_ok (server (requests w) (GetUrl url)) = false ->
     download url w = (Returned None, sent w [GetUrl url]) /\
     (status_ok (server (requests w ++ [GetUrl url]) (GetUrl url)) = true ->
      exists w2, download url (sent w [GetUrl url]) = (Returned (Some path), w2) /\
                 requests w2 = requests w ++ [GetUrl url; GetUrl url])).
Proof.
  intros download. split.
  - intros Hp. unfold download, download_from_url, try_except. by rewrite Hp.
  - intros p path Hp Hf Hbad.
    assert (E1 : download url w = (Returned None, sent w [GetUrl url])).
    { unfold download, download_from_url, try_except. rewrite Hp, mret_bind.
      erewrite bind_run; [|unfold exists_file; reflexivity].
      fold path. rewrite bool_decide_eq_false_2 by (rewrite Hf; by intros [? ?]).
      erewrite bind_run; [|unfold send; reflexivity].
      by rewrite Hbad. }
    split; [exact E1|]. intros Hok.
    eexists. split.
    + unfold download, download_from_url, try_except. rewrite Hp, mret_bind.
      erewrite bind_run; [|unfold exists_file; reflexivity].
      fold path. cbn [files sent].
      rewrite bool_decide_eq_false_2 by (rewrite Hf; by intros [? ?]).
      erewrite bind_run; [|unfold send; reflexivity].
      cbn [requests sent]. rewrite Hok. reflexivity.
    + cbn. by rewrite <- app_assoc.
Qed.

Section Resolving.
Variable urlparse_path : str -> option str.
Variable splitext_ext : str -> str.
Variable md5_hexdigest : str -> str.
Variable TEMP_IMAGE_DIR : str.
Variable server : Server.
Variable is_absolute : str -> bool.
Variable as_path : str -> str.
Variable under : str -> str -> str.

Local Abbreviation resolve :=
  (resolve_image_path urlparse_path splitext_ext md5_hexdigest TEMP_IMAGE_DIR server
     is_absolute as_path under).

Lemma resolve_local md_dir img_path w :
  is_remote img_path = false ->
  exists r, resolve md_dir img_path w = (Returned r, w) /\
            forall path, r = Some path -> is_Some (files w !! path).
Proof.
  unfold is_remote, resolve_image_path. intros ->.
  set (path := if negb (is_absolute img_path) then _ else _).
  unfold mbind, M_bind, exists_file.
  destruct (bool_decide (is_Some (files w !! path))) eqn:E.
  - exists (Some path). split; [done|]. intros ? [= <-]. by apply bool_decide_eq_true in E.
  - exists None. split; [done|]. by intros.
Qed.

Lemma resolve_remote md_dir img_path w :
  is_remote img_path = true ->
  resolve md_dir img_path w
  = download_from_url urlparse_path splitext_ext md5_hexdigest TEMP_IMAGE_DIR server
      img_path w.
Proof. unfold is_remote, resolve_image_path. by intros ->. Qed.

End Resolving.

(** X21.  The flag that the parser records with a pending image tells what
    [resolve_image_path] does with its path: for a flagged path it is the
    download of the URL, and for a path that is not flagged it looks at
    the local file only, sends no request, writes no file, and returns a
    path only if that file exists. *)
Theorem flag_predicts_download (content : str)
    (urlparse_path : str -> option str) (splitext_ext md5_hexdigest : str -> str)
    (TEMP_IMAGE_DIR : str) (server : Server) (is_absolute : str -> bool)
    (as_path : str -> str) (under : str -> str -> str) (md_dir : str) (w : World) :
  let resolve := resolve_image_path urlparse_path splitext_ext md5_hexdigest
                   TEMP_IMAGE_DIR server is_absolute as_path under in
  exists blocks self, parse content init = Some (blocks, self) /\
    forall idx p u, (idx, p, u) ∈ pending_images self ->
      blocks !! idx = Some (ImagePlaceholder p u) /\
      if u then
        resolve md_dir p w
        = download_from_url urlparse_path splitext_ext md5_hexdigest TEMP_IMAGE_DIR
            server p w
      else
        exists r, resolve md_dir p w = (Returned r, w) /\
                  forall path, r = Some path -> is_Some (files w !! path).
Proof.
  intros resolve.
  destruct (parse_total content init) as (blocks & self & E & Hrun).
  exists blocks, self. split; [exact E|]. intros idx p u Hin.
  pose proof (loop_run_pending_ok _ _ _ _ _ Hrun pending_ok_init) as (Oa & _).
  pose proof (loop_run_flag_ok _ _ _ _ _ Hrun (Forall_nil_2 _)) as Hflag.
  cbn [fst snd] in *. specialize (Oa _ _ _ Hin). split; [exact Oa|].
  rewrite Forall_forall in Hflag.
  pose proof (Hflag _ (list_elem_of_lookup_2 _ _ _ Oa)) as Hu. cbn in Hu. subst u.
  destruct (is_remote p) eqn:Hr.
  - by apply resolve_remote.
  - by apply resolve_local.
Qed.

Import Samples MoreSamples.

Lemma download_failure_witness :
  let download := download_from_url sample_urlparse_path sample_splitext_ext sample_md5
                    py"/tmp/feishu_images" recovering_server in
  download sample_url empty_world = (Returned None, sent empty_world [GetUrl sample_url]) /\
  exists w2,
    download sample_url (sent empty_world [GetUrl sample_url])
    = (Returned (Some py"/tmp/feishu_images/img_0123456789ab.PNG"), w2) /\
    requests w2 = [GetUrl sample_url; GetUrl sample_url].
Proof.
  intros download.
  destruct (download_failure_not_cached sample_urlparse_path sample_splitext_ext sample_md5
              py"/tmp/feishu_images" recovering_server sample_url empty_world)
    as [_ H].
  destruct (H py"/pics/cat.PNG" eq_refl eq_refl eq_refl) as [H1 H2].
  split; [exact H1 | exact (H2 eq_refl)].
Defined.

End ResolveFacts.

(** ** The calls of the orchestrator *)

Module CallFacts.
Import Parser ParserTerms Writer WriterTerms EffFacts ParserFacts WriterFacts LineFacts.

(** *** Counting calls *)

Lemma count_app kind a b : count kind (a ++ b) = count kind a + count kind b.
Proof. unfold count. by rewrite List.filter_app, length_app. Qed.

Lemma staged_app a b : staged a -> staged b -> staged (a ++ b).
Proof. unfold staged. rewrite !count_app. lia. Qed.

Lemma trace_ok_app doc_id k1 k2 a b :
  trace_ok doc_id k1 a -> trace_ok doc_id k2 b -> trace_ok doc_id (k1 + k2) (a ++ b).
Proof.
  intros (F1 & S1 & C1) (F2 & S2 & C2). split; [by apply Forall_app|].
  split; [by apply staged_app|]. rewrite !count_app. lia.
Qed.

Lemma trace_ok_nil doc_id k : trace_ok doc_id k [].
Proof. repeat split; cbn; try lia. constructor. Qed.

Ltac trace_done :=
  unfold trace_ok, staged, count; cbn; repeat split; try lia; repeat constructor; done.

Section Trace.
Variable client : Client.
Variable doc_id : str.
Variable image_map : gmap nat (str * bool).
Variable table_map : gmap nat (list (list str)).

Lemma flush_trace batch log :
  exists res new, runs (flush client doc_id batch) log res new /\
    trace_ok doc_id 0 new /\ count is_replace new = 0.
Proof.
  destruct batch as [|b batch].
  - exists (Returned tt), []. split; [apply runs_mret|]. split; [apply trace_ok_nil | done].
  - cbn [flush]. unfold do_append_blocks.
    destruct (on_append_blocks client log doc_id doc_id (b :: batch)) as [|ok] eqn:E.
    + eexists Raised, _. split; [apply runs_bind_raised; unfold runs, call; by rewrite E|].
      split; [trace_done | done].
    + eexists (Returned tt), _.
      split; [eapply runs_bind; [unfold runs, call; by rewrite E | apply runs_mret]|].
      split; [trace_done | done].
Qed.

Lemma handle_image_trace path n log :
  exists res new, runs (handle_image client doc_id path n) log res new /\
    trace_ok doc_id 1 new /\
    match res with
    | Returned n' => n' <= n + count is_replace new
    | Raised => True
    end.
Proof.
  unfold handle_image, do_create_image_block, do_upload, do_replace_image_token.
  destruct (on_create_image_block client log doc_id doc_id) as [|id] eqn:E1.
  { eexists Raised, _. split; [apply runs_bind_raised; unfold runs, call; by rewrite E1|].
    split; [trace_done | done]. }
  destruct (negb (opt_truthy id)) eqn:T1.
  { eexists _, _. split.
    - eapply runs_bind; [unfold runs, call; by rewrite E1|]. rewrite T1. apply runs_mret.
    - split; [trace_done | cbn; lia]. }
  destruct (on_upload client (log ++ [create_image_block doc_id doc_id]) path (group_str id))
    as [|tok] eqn:E2.
  { eexists Raised, _. split.
    - eapply runs_bind; [unfold runs, call; by rewrite E1|]. rewrite T1.
      apply runs_bind_raised. unfold runs, call. by rewrite E2.
    - split; [trace_done | done]. }
  destruct (negb (opt_truthy tok)) eqn:T2.
  { eexists _, _. split.
    - eapply runs_bind; [unfold runs, call; by rewrite E1|]. rewrite T1.
      eapply runs_bind; [unfold runs, call; by rewrite E2|]. rewrite T2. apply runs_mret.
    - split; [trace_done | cbn; lia]. }
  destruct (on_replace_image_token client
              ((log ++ [create_image_block doc_id doc_id]) ++ [upload path (group_str id)])
              doc_id (group_str id) (group_str tok)) as [|ok] eqn:E3.
  { eexists Raised, _. split.
    - eapply runs_bind; [unfold runs, call; by rewrite E1|]. rewrite T1.
      eapply runs_bind; [unfold runs, call; by rewrite E2|]. rewrite T2.
      apply runs_bind_raised. unfold runs, call. by rewrite E3.
    - split; [trace_done | done]. }
  destruct ok; (eexists _, _; split;
    [ eapply runs_bind; [unfold runs, call; by rewrite E1|]; rewrite T1;
      eapply runs_bind; [unfold runs, call; by rewrite E2|]; rewrite T2;
      eapply runs_bind; [unfold runs, call; by rewrite E3|]; apply runs_mret
    | split; [trace_done | unfold count; cbn; lia] ]).
Qed.

Lemma handle_table_trace data log :
  exists res new, runs (handle_table client doc_id data) log res new /\
    trace_ok doc_id 1 new /\ count is_replace new = 0.
Proof.
  unfold handle_table, do_create_table, do_fill_table.
  destruct ((0 <? length data) && (0 <? max_row_len data)).
  2:{ exists (Returned tt), []. split; [apply runs_mret|]. split; [apply trace_ok_nil | done]. }
  destruct (on_create_table client log doc_id doc_id (length data) (max_row_len data))
    as [|id] eqn:E1.
  { eexists Raised, _. split; [apply runs_bind_raised; unfold runs, call; by rewrite E1|].
    split; [trace_done | done]. }
  destruct (opt_truthy id) eqn:T1.
  2:{ eexists _, _. split.
      - eapply runs_bind; [unfold runs, call; by rewrite E1|]. rewrite T1. apply runs_mret.
      - split; [trace_done | done]. }
  destruct (on_fill_table client
              (log ++ [create_table doc_id doc_id (length data) (max_row_len data)])
              doc_id (group_str id) data) as [|ok] eqn:E2.
  { eexists Raised, _. split.
    - eapply runs_bind; [unfold runs, call; by rewrite E1|]. rewrite T1.
      apply runs_bind_raised. unfold runs, call. by rewrite E2.
    - split; [trace_done | done]. }
  eexists _, _. split.
  - eapply runs_bind; [unfold runs, call; by rewrite E1|]. rewrite T1.
    eapply runs_bind; [unfold runs, call; by rewrite E2 | apply runs_mret].
  - split; [trace_done | done].
Qed.

Lemma write_loop_trace items batch n log :
  exists res new,
    runs (write_loop client doc_id image_map table_map items batch n) log res new /\
    trace_ok doc_id (length items) new /\
    match res with
    | Returned (_, n') => n' <= n + count is_replace new
    | Raised => True
    end.
Proof.
  revert batch n log. induction items as [|[i b] items IH]; intros batch n log.
  - eexists _, []. split; [apply runs_mret|]. split; [apply trace_ok_nil | cbn; lia].
  - cbn [write_loop length].
    destruct (image_map !! i) as [[path is_url]|].
    { destruct (flush_trace batch log) as (r1 & n1 & R1 & T1 & C1).
      destruct r1 as [|[]].
      { eexists Raised, n1. split; [by apply runs_bind_raised|].
        split; [|done]. apply (trace_ok_app _ 0 (S (length items)) n1 []) in T1;
          [by rewrite app_nil_r in T1 | apply trace_ok_nil]. }
      destruct (handle_image_trace path n (log ++ n1)) as (r2 & n2 & R2 & T2 & C2).
      destruct r2 as [|n'].
      { eexists Raised, (n1 ++ n2). split.
        - eapply runs_bind; [exact R1|]. by apply runs_bind_raised.
        - split; [|done].
          pose proof (trace_ok_app _ _ _ _ _ T1 T2) as T.
          apply (trace_ok_app _ _ (length items) _ []) in T; [|apply trace_ok_nil].
          by rewrite app_nil_r in T. }
      destruct (IH [] n' ((log ++ n1) ++ n2)) as (r3 & n3 & R3 & T3 & C3).
      exists r3, (n1 ++ n2 ++ n3). split.
      - eapply runs_bind; [exact R1|]. eapply runs_bind; [exact R2 | exact R3].
      - split.
        + pose proof (trace_ok_app _ _ _ _ _ T1 (trace_ok_app _ _ _ _ _ T2 T3)) as T.
          exact T.
        + destruct r3 as [|[b3 n3']]; [done|]. rewrite !count_app. lia. }
    destruct (table_map !! i) as [data|].
    { destruct (flush_trace batch log) as (r1 & n1 & R1 & T1 & C1).
      destruct r1 as [|[]].
      { eexists Raised, n1. split; [by apply runs_bind_raised|].
        split; [|done]. apply (trace_ok_app _ 0 (S (length items)) n1 []) in T1;
          [by rewrite app_nil_r in T1 | apply trace_ok_nil]. }
      destruct (handle_table_trace data (log ++ n1)) as (r2 & n2 & R2 & T2 & C2).
      destruct r2 as [|[]].
      { eexists Raised, (n1 ++ n2). split.
        - eapply runs_bind; [exact R1|]. by apply runs_bind_raised.
        - split; [|done].
          pose proof (trace_ok_app _ _ _ _ _ T1 T2) as T.
          apply (trace_ok_app _ _ (length items) _ []) in T; [|apply trace_ok_nil].
          by rewrite app_nil_r in T. }
      destruct (IH [] n ((log ++ n1) ++ n2)) as (r3 & n3 & R3 & T3 & C3).
      exists r3, (n1 ++ n2 ++ n3). split.
      - eapply runs_bind; [exact R1|]. eapply runs_bind; [exact R2 | exact R3].
      - split.
        + pose proof (trace_ok_app _ _ _ _ _ T1 (trace_ok_app _ _ _ _ _ T2 T3)) as T.
          exact T.
        + destruct r3 as [|[b3 n3']]; [done|]. rewrite !count_app. lia. }
    destruct (IH (batch ++ [b]) n log) as (r3 & n3 & R3 & T3 & C3).
    exists r3, n3. split; [exact R3|]. split; [|exact C3].
    apply (trace_ok_app _ 1 _ [] n3); [apply trace_ok_nil | exact T3].
Qed.

End Trace.

(** The calls of a whole write, with the count it returns. *)
Lemma write_content_trace client md_path doc_id blocks pimgs ptabs log :
  exists res new,
    runs (_write_content_with_images client md_path doc_id blocks pimgs ptabs) log res new /\
    trace_ok doc_id (length blocks) new /\
    match res with
    | Returned n => n <= count is_replace new
    | Raised => True
    end.
Proof.
  unfold _write_content_with_images.
  destruct (write_loop_trace client doc_id (build_image_map pimgs) (build_table_map ptabs)
              (enumerate blocks) [] 0 log) as (r1 & n1 & R1 & T1 & C1).
  assert (Hlen : length (enumerate blocks) = length blocks).
  { unfold enumerate. rewrite length_zip_with, length_seq. lia. }
  rewrite Hlen in T1.
  destruct r1 as [|[batch n]].
  { exists Raised, n1. split; [by apply runs_bind_raised|]. by split. }
  destruct (flush_trace client doc_id batch (log ++ n1)) as (r2 & n2 & R2 & T2 & C2).
  destruct r2 as [|[]].
  - exists Raised, (n1 ++ n2). split.
    + eapply runs_bind; [exact R1|]. cbv beta iota. by apply runs_bind_raised.
    + split; [|done]. pose proof (trace_ok_app _ _ _ _ _ T1 T2) as T.
      by rewrite Nat.add_0_r in T.
  - exists (Returned n), (n1 ++ n2). split.
    + eapply runs_bind; [exact R1|]. cbv beta iota. rewrite <- (app_nil_r n2).
      eapply runs_bind; [exact R2 | apply runs_mret].
    + split.
      * pose proof (trace_ok_app _ _ _ _ _ T1 T2) as T. by rewrite Nat.add_0_r in T.
      * rewrite count_app. lia.
Qed.

(** X22.  Whatever the client answers, the interleaved write makes content
    calls only (appends, image and table creation, upload, token
    replacement, table fill); every call that names a document names the
    one the write was given and, where a parent block is named, its root.
    The write never lists a folder, creates a document, looks up a space
    or clears a document. *)
Theorem write_phase_calls (client : Client) (md_path doc_id : str) (blocks : list Block)
    (pimgs : list (nat * str * bool)) (ptabs : list (nat * list (list str)))
    (log : list Call) :
  exists res new,
    _write_content_with_images client md_path doc_id blocks pimgs ptabs log
    = (res, log ++ new) /\
    Forall (targets doc_id) new /\
    Forall (fun c => content_call c = true) new.
Proof.
  destruct (write_content_trace client md_path doc_id blocks pimgs ptabs log)
    as (res & new & R & (F & _ & _) & _).
  exists res, new. split; [exact R|]. split; [exact F|].
  eapply Forall_impl; [exact F|]. by intros [].
Qed.

(** X23.  In the calls of an interleaved write there are at most as many
    token replacements as uploads, at most as many uploads as image
    placeholders created, and at most as many table fills as tables
    created; the images and tables created are together at most as many
    as the blocks; and the count of uploaded images that is returned is at
    most the number of token replacements. *)
Theorem image_stages_counted (client : Client) (md_path doc_id : str) (blocks : list Block)
    (pimgs : list (nat * str * bool)) (ptabs : list (nat * list (list str)))
    (log : list Call) :
  exists res new,
    _write_content_with_images client md_path doc_id blocks pimgs ptabs log
    = (res, log ++ new) /\
    count is_replace new <= count is_upload new /\
    count is_upload new <= count is_create_image new /\
    count is_fill_table new <= count is_create_table new /\
    count is_create_image new + count is_create_table new <= length blocks /\
    forall n, res = Returned n -> n <= count is_replace new.
Proof.
  destruct (write_content_trace client md_path doc_id blocks pimgs ptabs log)
    as (res & new & R & (_ & (S1 & S2 & S3) & K) & C).
  exists res, new. split; [exact R|]. repeat split; try done.
  intros n ->. exact C.
Qed.

(** *** [update_document] *)

(** X24.  When the file can be read, the first call of [update_document]
    clears the document.  If that call raises, so does the update, and
    nothing is written.  If it returns, whether [True] or [False], the
    write follows: the calls after it are exactly the calls of the
    interleaved write of the parsed blocks into the same document, every
    one of them a content call on that document.  When that write returns,
    its calls render the whole text, block by block in order, and the
    update reports success with the identifier it was given and the count
    of uploaded images; when it raises, they render a prefix of the text
    and the update raises. *)
Theorem update_deletes_first (client : Client) (host : Host) (doc md_path content : str)
    (log : list Call) :
  read_text host md_path = Some content ->
  exists blocks self,
    parse content init = Some (blocks, self) /\
    let clear := delete_document_content doc in
    let write := _write_content_with_images client md_path doc blocks
                   (pending_images self) (pending_tables self) in
    let want := expected (build_image_map (pending_images self))
                  (build_table_map (pending_tables self)) (enumerate blocks) in
    match on_delete_document_content client log doc with
    | Raised => update_document client host doc md_path log = (Raised, log ++ [clear])
    | Returned _ =>
        exists r new,
          write (log ++ [clear]) = (r, (log ++ [clear]) ++ new) /\
          Forall (targets doc) new /\
          match r with
          | Returned n =>
              rendered new = want /\
              update_document client host doc md_path log
              = (Returned {| success := true; document_id := Some doc;
                             message := updated; existing_doc := None;
                             node_token := None; uploaded_images := Some n |},
                 log ++ clear :: new)
          | Raised =>
              rendered new `prefix_of` want /\
              update_document client host doc md_path log = (Raised, log ++ clear :: new)
          end
    end.
Proof.
  intros Hread.
  destruct (parse_total content init) as (blocks & self & E & _).
  exists blocks, self. split; [exact E|]. intros clear write want.
  unfold update_document. rewrite Hread, E. unfold do_delete_document_content.
  fold clear.
  destruct (on_delete_document_content client log doc) as [|ok] eqn:Ed.
  { unfold mbind, M_bind, call. by rewrite Ed. }
  destruct (write_items_rendered client doc (build_image_map (pending_images self))
              (build_table_map (pending_tables self)) (enumerate blocks) 0
              (log ++ [clear])) as (r & new & R & _ & Hres).
  change (write_items client doc (build_image_map (pending_images self))
            (build_table_map (pending_tables self)) (enumerate blocks) 0)
    with write in R.
  destruct (write_content_trace client md_path doc blocks (pending_images self)
              (pending_tables self) (log ++ [clear])) as (r' & new' & R' & (F & _) & _).
  fold write in R'. unfold runs in R, R'. rewrite R in R'.
  injection R' as <- Hnew. apply app_inv_head in Hnew. subst new'.
  exists r, new. split; [exact R|]. split; [exact F|].
  fold write. unfold mbind, M_bind, call. rewrite Ed, R, <- app_assoc. cbn [app].
  destruct r as [|n]; by split.
Qed.

(** *** The calls of [write_file] *)

Lemma runs_then_mret {A B} (c : M (list Call) A) (f : A -> B) log a new :
  runs c log (Returned a) new -> runs (x ← c; mret (f x)) log (Returned (f a)) new.
Proof.
  intros R. rewrite <- (app_nil_r new). eapply runs_bind; [exact R | apply runs_mret].
Qed.

Lemma runs_attempt_call {A} (c : Call) (answer : list Call -> Result A) log :
  runs (attempt (call c answer)) log
    (Returned (match answer log with Returned a => Some a | Raised => None end)) [c].
Proof. unfold runs, attempt, call. by destruct (answer log). Qed.

Lemma content_of_targets d post :
  Forall (targets d) post -> Forall (fun x => content_call x = true) post.
Proof. intros F. eapply Forall_impl; [exact F|]. by intros []. Qed.

Lemma write_new_shape client host md_path target folder_token wiki_token title blocks
    parser log :
  exists res new,
    runs (write_new client host md_path target folder_token wiki_token title blocks parser)
      log res new /\
    new_shape host target res new.
Proof.
  unfold write_new.
  destruct (str_eqb target py"wiki") eqn:Ht.
  - set (space := getenv host "FEISHU_DEFAULT_WIKI_SPACE_ID").
    set (node := opt_or wiki_token (getenv host "FEISHU_DEFAULT_WIKI_NODE_TOKEN")).
    assert (Htail : forall sid log', exists res new,
              runs (if negb (opt_truthy sid) then mret (failure wiki_space_missing)
                    else
                      made ← attempt (do_create_wiki_document client title
                                        (group_str sid) node);
                      match made with
                      | None => mret (failure wiki_creation_failed)
                      | Some (doc_id, node') =>
                          uploaded ← _write_content_with_images client md_path doc_id blocks
                                       (pending_images parser) (pending_tables parser);
                          mret {| success := true; document_id := Some doc_id;
                                  message := created title; existing_doc := None;
                                  node_token := Some node';
                                  uploaded_images := Some uploaded |}
                      end) log' res new /\
              exists c post, new = c ++ post /\
                length c <= 1 /\ Forall (fun x => creation_call x = true) c /\
                Forall (fun x => content_call x = true) post /\
                (c = [] -> post = []) /\
                (forall o, res = Returned o -> success o = true ->
                   exists d, document_id o = Some d /\ Forall (targets d) post)).
    { intros sid log'. destruct (negb (opt_truthy sid)).
      { eexists _, []. split; [apply runs_mret|]. exists [], [].
        repeat split; try done; cbn; try lia. intros o [= <-]. done. }
      unfold do_create_wiki_document.
      destruct (on_create_wiki_document client log' title (group_str sid) node)
        as [|[doc_id node']] eqn:E.
      { eexists _, _. split.
        - eapply runs_bind; [apply runs_attempt_call|]. rewrite E. apply runs_mret.
        - eexists [_], []. repeat split; try done; cbn; try lia.
          + by repeat constructor.
          + intros o [= <-]. done. }
      destruct (write_content_trace client md_path doc_id blocks (pending_images parser)
                  (pending_tables parser)
                  (log' ++ [create_wiki_document title (group_str sid) node]))
        as (r & post & R & (F & _) & _).
      destruct r as [|n].
      - eexists Raised, _. split.
        + eapply runs_bind; [apply runs_attempt_call|]. rewrite E.
          by apply runs_bind_raised.
        + eexists [_], post. repeat split; try done; cbn; try lia.
          * by repeat constructor.
          * by eapply content_of_targets.
      - eexists (Returned _), _. split.
        + eapply runs_bind; [apply runs_attempt_call|]. rewrite E.
          by apply (runs_then_mret _ (fun uploaded => Build_Outcome _ _ _ _ _ (Some uploaded))).
        + eexists [_], post. repeat split; try done; cbn; try lia.
          * by repeat constructor.
          * by eapply content_of_targets.
          * intros o [= <-] _. by exists doc_id. }
    destruct (opt_truthy node && negb (opt_truthy space)) eqn:Hc.
    + unfold do_get_wiki_space_id.
      apply andb_true_iff in Hc as [_ Hs]. apply negb_true_iff in Hs.
      destruct (on_get_wiki_space_id client log (group_str node)) as [|sid] eqn:E.
      * eexists Raised, _. split.
        -- apply runs_bind_raised. unfold runs, call. by rewrite E.
        -- eexists [_], [], []. repeat split; try done; cbn; try lia.
           ++ by repeat constructor.
           ++ fold space. congruence.
           ++ intros Hne. unfold str_eqb in Ht. apply bool_decide_eq_true in Ht. done.
      * destruct (Htail sid (log ++ [get_wiki_space_id (group_str node)]))
          as (res & new & R & c & post & -> & Hc1 & Hc2 & Hp & Hcp & Ho).
        eexists res, _. split.
        -- eapply runs_bind; [unfold runs, call; by rewrite E | exact R].
        -- eexists [_], c, post. repeat split; try done; cbn; try lia.
           ++ by repeat constructor.
           ++ fold space. congruence.
           ++ intros Hne. unfold str_eqb in Ht. apply bool_decide_eq_true in Ht. done.
    + destruct (Htail space log) as (res & new & R & c & post & -> & Hc1 & Hc2 & Hp & Hcp & Ho).
      eexists res, _. split.
      * unfold runs. rewrite mret_bind. exact R.
      * exists [], c, post. repeat split; try done; cbn; lia.
  - unfold do_create_document.
    set (ft := if str_eqb target py"folder" then folder_token else None).
    destruct (on_create_document client log title ft) as [|[doc_id block_id]] eqn:E.
    { eexists _, _. split.
      - eapply runs_bind; [apply runs_attempt_call|]. rewrite E. apply runs_mret.
      - eexists [], [_], []. repeat split; try done; cbn; try lia.
        + by repeat constructor.
        + intros o [= <-]. done. }
    destruct (write_content_trace client md_path doc_id blocks (pending_images parser)
                (pending_tables parser) (log ++ [create_document title ft]))
      as (r & post & R & (F & _) & _).
    destruct r as [|n].
    + eexists Raised, _. split.
      * eapply runs_bind; [apply runs_attempt_call|]. rewrite E.
        by apply runs_bind_raised.
      * eexists [], [_], post. repeat split; try done; cbn; try lia.
        -- by repeat constructor.
        -- by eapply content_of_targets.
    + eexists (Returned _), _. split.
      * eapply runs_bind; [apply runs_attempt_call|]. rewrite E.
        by apply (runs_then_mret _ (fun uploaded => Build_Outcome _ _ _ _ _ (Some uploaded))).
      * eexists [], [_], post. repeat split; try done; cbn; try lia.
        -- by repeat constructor.
        -- by eapply content_of_targets.
        -- intros o [= <-] _. by exists doc_id.
Qed.

(** X25.  The calls of [write_file] come in this order, whatever the
    client answers: at most one folder listing (none unless duplicates are
    to be checked and a folder is given), at most one lookup of a space
    (none when a space is configured or the target is not the library), at
    most one creation of a document, then content calls only.  There is no
    content call without a creation before it, and an outcome that reports
    success names the document that all the content calls went to. *)
Theorem write_file_call_order (client : Client) (host : Host) (md_path target : str)
    (folder_token wiki_token : option str) (check_duplicate : bool) (log : list Call) :
  exists res l new,
    write_file client host md_path target folder_token wiki_token check_duplicate log
    = (res, log ++ l ++ new) /\
    length l <= 1 /\ Forall (fun x => is_listing x = true) l /\
    (check_duplicate && opt_truthy folder_token = false -> l = []) /\
    new_shape host target res new.
Proof.
  assert (Hnone : forall (o : Outcome), success o = false ->
            new_shape host target (Returned o) []).
  { intros o Ho. exists [], [], []. repeat split; try done; cbn; try lia.
    intros o' [= <-]. congruence. }
  unfold write_file.
  destruct (read_text host md_path) as [content|].
  2:{ eexists _, [], []. rewrite !app_nil_r. split; [reflexivity|].
      repeat split; try done; cbn; try lia. by apply Hnone. }
  destruct (parse_total content init) as (blocks & parser & -> & _).
  set (title := path_stem host md_path).
  destruct (check_duplicate && opt_truthy folder_token) eqn:Hc.
  - unfold do_list_documents_in_folder.
    destruct (on_list_documents_in_folder client log (group_str folder_token))
      as [|docs] eqn:E.
    { eexists Raised, [_], []. split.
      - unfold mbind, M_bind, call. rewrite E. by rewrite app_nil_r.
      - repeat split; try done; cbn; try lia; [by repeat constructor|].
        exists [], [], []. repeat split; try done; cbn; lia. }
    assert (Hnew : forall log', exists res new,
              runs (write_new client host md_path target folder_token wiki_token title
                      blocks parser) log' res new /\ new_shape host target res new)
      by (intros; apply write_new_shape).
    destruct (find_by_name title docs) as [doc|] eqn:Hfind.
    + destruct (doc_truthy doc) eqn:Hd.
      * eexists _, [_], []. split.
        -- unfold mbind, M_bind, call, mret, M_ret. rewrite E, Hfind, Hd.
           by rewrite app_nil_r.
        -- repeat split; try done; cbn; try lia; [by repeat constructor|].
           by apply Hnone.
      * destruct (Hnew (log ++ [list_documents_in_folder (group_str folder_token)]))
          as (res & new & R & Hs).
        exists res, [list_documents_in_folder (group_str folder_token)], new. split.
        -- unfold mbind, M_bind, call, mret, M_ret. rewrite E, Hfind, Hd.
           unfold runs in R. rewrite R. by rewrite <- app_assoc.
        -- repeat split; try done; cbn; try lia. by repeat constructor.
    + destruct (Hnew (log ++ [list_documents_in_folder (group_str folder_token)]))
        as (res & new & R & Hs).
      exists res, [list_documents_in_folder (group_str folder_token)], new. split.
      * unfold mbind, M_bind, call, mret, M_ret. rewrite E, Hfind.
        unfold runs in R. rewrite R. by rewrite <- app_assoc.
      * repeat split; try done; cbn; try lia. by repeat constructor.
  - destruct (write_new_shape client host md_path target folder_token wiki_token title
                blocks parser log) as (res & new & R & Hs).
    exists res, [], new. split.
    + rewrite mret_bind. exact R.
    + repeat split; try done; cbn; lia.
Qed.

(** X26.  When duplicates are not checked, the target is not the library
    and the creation of the document raises, [write_file] does not raise:
    it returns the failure outcome of a failed creation, and the creation
    is the only call made, so nothing is written. *)
Theorem creation_failure_writes_nothing (client : Client) (host : Host)
    (md_path target content : str) (folder_token wiki_token : option str)
    (log : list Call) :
  let title := path_stem host md_path in
  let folder := if str_eqb target py"folder" then folder_token else None in
  read_text host md_path = Some content ->
  target <> py"wiki" ->
  on_create_document client log title folder = Raised ->
  write_file client host md_path target folder_token wiki_token false log
  = (Returned (failure creation_failed), log ++ [create_document title folder]).
Proof.
  intros title folder Hread Ht Hfail. unfold write_file. rewrite Hread.
  destruct (parse_total content init) as (blocks & parser & -> & _).
  cbn [andb]. rewrite mret_bind. unfold write_new.
  assert (str_eqb target py"wiki" = false) as ->.
  { unfold str_eqb. by apply bool_decide_eq_false. }
  fold title folder. unfold do_create_document, mbind, M_bind, attempt, call.
  by rewrite Hfail.
Qed.

(** X27.  When a space is configured in the environment, the target is
    the library and duplicates are not checked, [write_file] never looks
    up the space of the node token it is given: its first call creates the
    document in the configured space, below the node token, and every
    later call is a content call. *)
Theorem configured_space_wins (client : Client) (host : Host)
    (md_path content : str) (folder_token wiki_token : option str) (log : list Call) :
  let title := path_stem host md_path in
  let space := getenv host "FEISHU_DEFAULT_WIKI_SPACE_ID" in
  let node := opt_or wiki_token (getenv host "FEISHU_DEFAULT_WIKI_NODE_TOKEN") in
  read_text host md_path = Some content ->
  opt_truthy space = true ->
  exists res post,
    write_file client host md_path py"wiki" folder_token wiki_token false log
    = (res, log ++ create_wiki_document title (group_str space) node :: post) /\
    Forall (fun x => content_call x = true) post.
Proof.
  intros title space node Hread Hs. unfold write_file. rewrite Hread.
  destruct (parse_total content init) as (blocks & parser & -> & _).
  cbn [andb]. rewrite mret_bind. unfold write_new.
  assert (str_eqb py"wiki" py"wiki" = true) as -> by done.
  fold title space node. rewrite Hs. cbn [negb]. rewrite andb_false_r, mret_bind, Hs.
  cbn [negb]. unfold do_create_wiki_document.
  destruct (on_create_wiki_document client log title (group_str space) node)
    as [|[doc_id node']] eqn:E.
  { eexists _, []. split; [|done]. unfold mbind, M_bind, attempt, call. by rewrite E. }
  destruct (write_content_trace client md_path doc_id blocks (pending_images parser)
              (pending_tables parser)
              (log ++ [create_wiki_document title (group_str space) node]))
    as (r & post & R & (F & _) & _).
  unfold runs in R.
  destruct r as [|n]; (eexists _, post; split; [|by eapply content_of_targets]);
    unfold mbind, M_bind, attempt, call; rewrite E, R; by rewrite <- app_assoc.
Qed.

(** X28.  When the target is the library, duplicates are not checked and
    no space is configured: without a node token [write_file] fails with the outcome of a missing
    space and makes no call; with a node token whose lookup returns no
    space it fails with the same outcome after that single lookup.  In
    both cases no document is created. *)
Theorem wiki_without_space_fails (client : Client) (host : Host)
    (md_path content : str) (folder_token wiki_token : option str) (log : list Call) :
  let space := getenv host "FEISHU_DEFAULT_WIKI_SPACE_ID" in
  let node := opt_or wiki_token (getenv host "FEISHU_DEFAULT_WIKI_NODE_TOKEN") in
  let run := write_file client host md_path py"wiki" folder_token wiki_token false in
  read_text host md_path = Some content ->
  opt_truthy space = false ->
  (opt_truthy node = false -> run log = (Returned (failure wiki_space_missing), log)) /\
  (opt_truthy node = true ->
   forall sid, on_get_wiki_space_id client log (group_str node) = Returned sid ->
     opt_truthy sid = false ->
     run log = (Returned (failure wiki_space_missing),
                log ++ [get_wiki_space_id (group_str node)])).
Proof.
  intros space node run Hread Hs. subst run. unfold write_file. rewrite Hread.
  destruct (parse_total content init) as (blocks & parser & -> & _).
  cbn [andb]. rewrite mret_bind. unfold write_new.
  assert (str_eqb py"wiki" py"wiki" = true) as -> by done.
  fold space node. rewrite Hs. cbn [negb]. split.
  - intros ->. cbn [andb]. rewrite mret_bind. by rewrite Hs.
  - intros -> sid Hsid Hf. cbn [andb].
    unfold do_get_wiki_space_id, mbind, M_bind, call. rewrite Hsid, Hf. reflexivity.
Qed.

(** *** The index maps of the write *)

Lemma build_image_map_value l i v :
  build_image_map l !! i = Some v -> (i, v.1, v.2) ∈ l.
Proof.
  unfold build_image_map.
  assert (Hgen : forall m : gmap nat (str * bool),
            foldl (fun m '(idx, path, is_url) => <[idx := (path, is_url)]> m) m l !! i
            = Some v ->
            m !! i = Some v \/ (i, v.1, v.2) ∈ l).
  { induction l as [|[[j q] u] l IH]; intros m Hm; cbn [foldl] in Hm; [by left|].
    destruct (IH _ Hm) as [Hin|Hin]; [|right; by right].
    destruct (decide (j = i)) as [->|Hne].
    - rewrite lookup_insert_eq in Hin. injection Hin as <-. right. left.
    - rewrite lookup_insert_ne in Hin by done. by left. }
  intros H. destruct (Hgen _ H) as [Hm|Hin]; [|done]. by rewrite lookup_empty in Hm.
Qed.

Lemma build_table_map_value l i d :
  build_table_map l !! i = Some d -> (i, d) ∈ l.
Proof.
  unfold build_table_map.
  assert (Hgen : forall m : gmap nat (list (list str)),
            foldl (fun m '(idx, data) => <[idx := data]> m) m l !! i = Some d ->
            m !! i = Some d \/ (i, d) ∈ l).
  { induction l as [|[j q] l IH]; intros m Hm; cbn [foldl] in Hm; [by left|].
    destruct (IH _ Hm) as [Hin|Hin]; [|right; by right].
    destruct (decide (j = i)) as [->|Hne].
    - rewrite lookup_insert_eq in Hin. injection Hin as <-. right. left.
    - rewrite lookup_insert_ne in Hin by done. by left. }
  intros H. destruct (Hgen _ H) as [Hm|Hin]; [|done]. by rewrite lookup_empty in Hm.
Qed.

(** X29.  After a parse on a new parser, the two index maps that the
    write builds from the pending lists hold exactly the pending entries:
    a position maps to a path and flag, or to a grid, if and only if that
    entry is in the list, so that no entry is lost to a clash of
    positions. *)
Theorem index_maps_lose_nothing (content : str) :
  exists blocks self, parse content init = Some (blocks, self) /\
    (forall i p u, build_image_map (pending_images self) !! i = Some (p, u) <->
                   (i, p, u) ∈ pending_images self) /\
    (forall i d, build_table_map (pending_tables self) !! i = Some d <->
                 (i, d) ∈ pending_tables self).
Proof.
  destruct (parse_pending_ok content) as (blocks & self & E & Ha & Hb & _ & _).
  exists blocks, self. split; [exact E|]. split.
  - intros i p u. split; [apply (build_image_map_value _ i (p, u))|].
    intros Hin. destruct (build_image_map_lookup _ _ _ _ Hin) as [[p' u'] Hv].
    pose proof (build_image_map_value _ _ _ Hv) as Hin'. cbn in Hin'.
    pose proof (Ha _ _ _ Hin) as H1. pose proof (Ha _ _ _ Hin') as H2. congruence.
  - intros i d. split; [apply build_table_map_value|].
    intros Hin. destruct (build_table_map_lookup _ _ _ Hin) as [d' Hv].
    pose proof (build_table_map_value _ _ _ Hv) as Hin'.
    pose proof (Hb _ _ Hin) as H1. pose proof (Hb _ _ Hin') as H2. congruence.
Qed.

Import Samples MoreSamples.

(** *** Concrete clients *)

Lemma update_deletes_first_witness :
  exists blocks self,
    parse mixed_text init = Some (blocks, self) /\
    exists r new,
      _write_content_with_images quiet_client py"notes.md" py"doc9" blocks
        (pending_images self) (pending_tables self) ([] ++ [delete_document_content py"doc9"])
      = (r, ([] ++ [delete_document_content py"doc9"]) ++ new) /\
      Forall (targets py"doc9") new /\
      match r with
      | Returned n =>
          rendered new
          = expected (build_image_map (pending_images self))
              (build_table_map (pending_tables self)) (enumerate blocks) /\
          update_document quiet_client notes_host py"doc9" py"notes.md" []
          = (Returned {| success := true; document_id := Some py"doc9";
                         message := updated; existing_doc := None;
                         node_token := None; uploaded_images := Some n |},
             [] ++ delete_document_content py"doc9" :: new)
      | Raised =>
          rendered new
            `prefix_of` expected (build_image_map (pending_images self))
                          (build_table_map (pending_tables self)) (enumerate blocks) /\
          update_document quiet_client notes_host py"doc9" py"notes.md" []
          = (Raised, [] ++ delete_document_content py"doc9" :: new)
      end.
Proof.
  exact (update_deletes_first quiet_client notes_host py"doc9" py"notes.md" mixed_text []
           eq_refl).
Defined.

(** An update of a document with [mixed_text] on a client whose clearing
    returns [False]: the whole text is written all the same. *)
Example update_after_failed_clear :
  update_document failing_client notes_host py"doc9" py"notes.md" []
  = (Returned {| success := true; document_id := Some py"doc9";
                 message := updated; existing_doc := None;
                 node_token := None; uploaded_images := Some 1 |},
     [delete_document_content py"doc9";
      append_blocks py"doc9" py"doc9" [Text [plain_run py"first"]];
      create_image_block py"doc9" py"doc9";
      upload py"a.png" py"img1";
      replace_image_token py"doc9" py"img1" py"file1";
      append_blocks py"doc9" py"doc9" [Text [plain_run py"second"]];
      create_table py"doc9" py"doc9" 2 2;
      fill_table py"doc9" py"tbl1" [[py"h"; py"k"]; [py"1"; py"2"]];
      append_blocks py"doc9" py"doc9" [Text [plain_run py"third"]]]).
Proof. vm_compute. reflexivity. Qed.

Lemma creation_failure_witness :
  write_file failing_client notes_host py"notes.md" py"space" None None false []
  = (Returned (failure creation_failed), [create_document py"notes" None]).
Proof.
  exact (creation_failure_writes_nothing failing_client notes_host py"notes.md" py"space"
           mixed_text None None [] eq_refl ltac:(discriminate) eq_refl).
Defined.

Lemma configured_space_witness :
  exists res post,
    write_file quiet_client wiki_host py"notes.md" py"wiki" None (Some py"node7") false []
    = (res, [] ++ create_wiki_document py"notes" py"space9" (Some py"node7") :: post) /\
    Forall (fun x => content_call x = true) post.
Proof.
  exact (configured_space_wins quiet_client wiki_host py"notes.md" mixed_text None
           (Some py"node7") [] eq_refl eq_refl).
Defined.

Lemma wiki_without_space_witness :
  write_file failing_client notes_host py"notes.md" py"wiki" None None false []
  = (Returned (failure wiki_space_missing), []) /\
  write_file failing_client notes_host py"notes.md" py"wiki" None (Some py"node7") false []
  = (Returned (failure wiki_space_missing), [get_wiki_space_id py"node7"]).
Proof.
  split.
  - exact (proj1 (wiki_without_space_fails failing_client notes_host py"notes.md" mixed_text
                    None None [] eq_refl eq_refl) eq_refl).
  - exact (proj2 (wiki_without_space_fails failing_client notes_host py"notes.md" mixed_text
                    None (Some py"node7") [] eq_refl eq_refl) eq_refl None eq_refl eq_refl).
Defined.

End CallFacts.
